(** * cblog's buffer.c: the automatic buffer structure

    A shallow embedding of [src/cli/buffer.c] (with [buffer.h]) and the
    properties of its operations: growth, appending, slurping, comparison
    with a C string, integer parsing, duplication and reference-counted
    assignment. *)

From Stdlib Require Import ZArith Lia String Ascii.
From stdpp Require Import base option list gmap.

Local Open Scope Z_scope.

(** ** Machine integers

    [size_t] is a 64-bit unsigned integer, [int] a 32-bit and [long] a 64-bit
    signed one. Values are kept in [Z]; every arithmetic result the code
    stores is wrapped explicitly. *)

Definition SIZE_MAX : Z := 2 ^ 64 - 1.

(** Reduction of a [size_t] result modulo [2^64]. *)
Definition wrap (z : Z) : Z := z mod 2 ^ 64.

(** Reduction of an [int] result to the two's complement range. *)
Definition wrap_int (z : Z) : Z := (z + 2 ^ 31) mod 2 ^ 32 - 2 ^ 31.

(** Reduction of a [long] result to the two's complement range. *)
Definition wrap_long (z : Z) : Z := (z + 2 ^ 63) mod 2 ^ 64 - 2 ^ 63.

(** Conversion of an [int] to [size_t] (the usual arithmetic conversion). *)
Definition int_to_size (z : Z) : Z := wrap z.

(** A byte is a [Z] in [0, 256); a character literal is its code. *)
Definition byte_of (c : ascii) : Z := Z.of_N (N_of_ascii c).

Definition bytes_of (s : string) : list Z := map byte_of (list_ascii_of_string s).

(** A C string literal: the characters followed by the terminating NUL. *)
Definition cstring (s : string) : list Z := bytes_of s ++ [0].

(** ** Memory blocks

    A [char *] is [None] for the null pointer and otherwise the block of
    bytes it points to; the list is as long as the block. *)

Definition block := option (list Z).

Definition block_len (d : block) : Z :=
  match d with None => 0 | Some l => Z.of_nat (length l) end.

(** The bytes of a block (none behind a null pointer). *)
Definition block_bytes (d : block) : list Z := default [] d.

(** [d[i]]: reading outside the block (or through a null pointer) has no
    defined value. *)
Definition load (d : block) (i : Z) : option Z :=
  match d with
  | None => None
  | Some l => if (0 <=? i) && (i <? Z.of_nat (length l)) then l !! Z.to_nat i else None
  end.

(** [memcpy (dst + off, src, n)] and [memmove] with the source bytes already
    read: the bytes of [dst] at [off .. off + n) are replaced. A copy of zero
    bytes changes nothing, whatever the pointers; any other copy needs the
    whole range inside the destination block. *)
Definition blit (dst : block) (off : Z) (bytes : list Z) : option block :=
  if bool_decide (bytes = []) then Some dst else
  match dst with
  | None => None
  | Some l =>
      if (0 <=? off) && (off + Z.of_nat (length bytes) <=? Z.of_nat (length l))
      then Some (Some (take (Z.to_nat off) l ++ bytes
                         ++ drop (Z.to_nat off + length bytes) l))
      else None
  end.

(** Reading [n] bytes from offset [off] of a block. *)
Definition read_bytes (src : block) (off n : Z) : option (list Z) :=
  if n =? 0 then Some [] else
  match src with
  | None => None
  | Some l =>
      if (0 <=? off) && (0 <=? n) && (off + n <=? Z.of_nat (length l))
      then Some (take (Z.to_nat n) (drop (Z.to_nat off) l))
      else None
  end.

(** ** The buffer structure ([struct buf] of buffer.h) *)

Record buf : Type := Buf {
  buf_data : block;   (* actual character data *)
  buf_size : Z;       (* size of the string *)
  buf_asize : Z;      (* allocated size (0 = volatile buffer) *)
  buf_unit : Z;       (* reallocation unit size (0 = read-only buffer) *)
  buf_ref : Z         (* reference count *)
}.

Definition set_data (d : block) (b : buf) : buf :=
  Buf d (buf_size b) (buf_asize b) (buf_unit b) (buf_ref b).
Definition set_size (n : Z) (b : buf) : buf :=
  Buf (buf_data b) n (buf_asize b) (buf_unit b) (buf_ref b).
Definition set_asize (n : Z) (b : buf) : buf :=
  Buf (buf_data b) (buf_size b) n (buf_unit b) (buf_ref b).
Definition set_ref (n : Z) (b : buf) : buf :=
  Buf (buf_data b) (buf_size b) (buf_asize b) (buf_unit b) n.

(** The logical contents: the first [size] bytes of the data. *)
Definition contents (b : buf) : list Z :=
  match buf_data b with
  | None => []
  | Some l => take (Z.to_nat (buf_size b)) l
  end.

(** The macros of buffer.h. [CONST_BUF] leaves [unit] and [ref] zero,
    [VOLATILE_BUF] leaves [asize], [unit] and [ref] zero. *)
Definition CONST_BUF (s : string) : buf :=
  Buf (Some (cstring s)) (Z.of_nat (String.length s))
      (Z.of_nat (String.length s) + 1) 0 0.

Definition VOLATILE_BUF (s : string) : buf :=
  Buf (Some (cstring s)) (Z.of_nat (String.length s)) 0 0 0.

(** A buffer is volatile when it has data but no allocated size. *)
Definition is_volatile (b : buf) : bool :=
  bool_decide (buf_data b ≠ None) && (buf_asize b =? 0).

(** The invariant of an owned buffer: the block is [asize] bytes long and
    holds the [size] bytes of the string. *)
Record buf_wf (b : buf) : Prop := {
  wf_size : 0 <= buf_size b <= buf_asize b;
  wf_asize : buf_asize b = block_len (buf_data b);
  wf_asize_max : buf_asize b <= SIZE_MAX;
  wf_unit : 0 <= buf_unit b <= SIZE_MAX
}.

(** What reading a buffer needs (owned or not): the string lies inside the
    block. *)
Definition buf_readable (b : buf) : Prop :=
  0 <= buf_size b <= SIZE_MAX ∧ buf_size b <= block_len (buf_data b).

(** [b'] is [b] after a successful growth to at least [neosz]: the same
    fields and bytes, with more room behind them. *)
Definition grown (neosz : Z) (b b' : buf) : Prop :=
  buf_wf b' ∧ neosz <= buf_asize b' ∧ buf_size b' = buf_size b ∧
  buf_unit b' = buf_unit b ∧ buf_ref b' = buf_ref b ∧
  ∃ k, block_bytes (buf_data b') = block_bytes (buf_data b) ++ k.

(** ** The store and the allocator

    [struct buf] objects live in a store indexed by address; a
    [struct buf *] is [None] (null) or an address. Every call of [malloc] or
    [realloc] consumes one decision of the allocator: failure, or success
    with the byte that fills the fresh memory. With no decision left the
    allocation fails. The two statistics counters of [BUFFER_STATS] are part
    of the state. *)

Inductive alloc_result := AllocFail | AllocOk (fill : Z).

Record mem : Type := Mem {
  heap : gmap positive buf;
  allocs : list alloc_result;
  buffer_stat_nb : Z;
  buffer_stat_alloc_bytes : Z
}.

Definition ptr := option positive.

Definition set_heap (h : gmap positive buf) (m : mem) : mem :=
  Mem h (allocs m) (buffer_stat_nb m) (buffer_stat_alloc_bytes m).
Definition set_allocs (a : list alloc_result) (m : mem) : mem :=
  Mem (heap m) a (buffer_stat_nb m) (buffer_stat_alloc_bytes m).



(** The outcome of running a function: a result and a final state, undefined
    behaviour (an access outside a block, a dangling pointer, a division by
    zero), or a loop that never ends. *)
Inductive outcome (A : Type) : Type :=
  | Done (a : A) (m : mem)
  | Undefined
  | Diverges.
Arguments Done {A} a m.
Arguments Undefined {A}.
Arguments Diverges {A}.

(** The result of a run that returns. *)
Definition result {A : Type} (o : outcome A) : option A :=
  match o with Done a _ => Some a | _ => None end.

Definition M (A : Type) : Type := mem → outcome A.

Definition ret {A} (a : A) : M A := λ m, Done a m.

Definition bind {A B} (c : M A) (k : A → M B) : M B :=
  λ m, match c m with
       | Done a m' => k a m'
       | Undefined => Undefined
       | Diverges => Diverges
       end.

#[global] Instance M_ret : MRet M := @ret.
#[global] Instance M_bind : MBind M := λ A B k c, bind c k.
#[global] Instance M_fmap : FMap M := λ A B f c, bind c (λ a, ret (f a)).

Definition undefined {A} : M A := λ _, Undefined.
Definition diverges {A} : M A := λ _, Diverges.

(** A value that must be defined. *)
Definition defined {A} (o : option A) : M A :=
  match o with Some a => ret a | None => undefined end.

(** [*p] for a non-null [p]: the object must be live. *)
Definition deref (p : positive) : M buf := λ m, defined (heap m !! p) m.

(** Writing the fields of [*p]. *)
Definition store (p : positive) (b : buf) : M Datatypes.unit :=
  λ m, Done tt (set_heap (<[p := b]> (heap m)) m).

(** The next decision of the allocator. *)
Definition next_alloc : M alloc_result :=
  λ m, match allocs m with
       | [] => Done AllocFail m
       | r :: rest => Done r (set_allocs rest m)
       end.

Definition fresh_address : M positive := λ m, Done (fresh (dom (heap m))) m.

(** [malloc (sizeof (struct buf))]: a fresh address, or null. The caller
    initialises every field before reading any, so the object enters the
    store with its first [store]. *)
Definition malloc_buf : M ptr :=
  r ← next_alloc;
  match r with
  | AllocFail => ret None
  | AllocOk _ => Some <$> fresh_address
  end.

(** [malloc (n)] for character data. *)
Definition malloc (n : Z) : M block :=
  r ← next_alloc;
  match r with
  | AllocFail => ret None
  | AllocOk fill => ret (Some (replicate (Z.to_nat n) fill))
  end.

(** [realloc (old, n)]: on failure the old block stays as it is; on success
    the new block starts with the old bytes (cut at [n]). Only [bufgrow]
    calls it, past its test of [unit]; the buffers that [CONST_BUF] and
    [VOLATILE_BUF] build around memory of another origin have [unit == 0]. *)
Definition realloc (old : block) (n : Z) : M block :=
  r ← next_alloc;
  match r with
  | AllocFail => ret None
  | AllocOk fill =>
      let l := default [] old in
      ret (Some (take (Z.to_nat n) l ++ replicate (Z.to_nat n - length l) fill))
  end.

(** [free (p)] of a [struct buf]; its data goes with it. *)
Definition free_buf (p : positive) : M Datatypes.unit :=
  λ m, Done tt (set_heap (delete p (heap m)) m).

Definition add_stat_nb (d : Z) : M Datatypes.unit :=
  λ m, Done tt (Mem (heap m) (allocs m) (wrap_long (buffer_stat_nb m + d))
                    (buffer_stat_alloc_bytes m)).

Definition add_stat_alloc_bytes (d : Z) : M Datatypes.unit :=
  λ m, Done tt (Mem (heap m) (allocs m) (buffer_stat_nb m)
                    (wrap (buffer_stat_alloc_bytes m + d))).

(** ** Loops

    [iterate fuel step a] runs [step] from [a] until it answers [inr], at
    most [fuel] times. The fuel is a binary number, so it can be as large as
    the number of values a [size_t] takes. *)
Fixpoint iterate {A B : Type} (fuel : positive) (step : A → A + B) (a : A) : A + B :=
  match fuel with
  | xH => step a
  | xO q =>
      match iterate q step a with
      | inl a' => iterate q step a'
      | inr b => inr b
      end
  | xI q =>
      match step a with
      | inl a1 =>
          match iterate q step a1 with
          | inl a2 => iterate q step a2
          | inr b => inr b
          end
      | inr b => inr b
      end
  end.

(** The same with a unary count, for the proofs. *)
Fixpoint iterate_nat {A B : Type} (n : nat) (step : A → A + B) (a : A) : A + B :=
  match n with
  | O => inl a
  | S n' =>
      match step a with
      | inl a' => iterate_nat n' step a'
      | inr b => inr b
      end
  end.

(** ** bufgrow • increasing the allocated size to the given value *)

(** One turn of [while (neoasz < neosz) neoasz += buf->unit;]. *)
Definition grow_step (unit neosz neoasz : Z) : Z + Z :=
  if neoasz <? neosz then inl (wrap (neoasz + unit)) else inr neoasz.

(** The loop. The values of [neoasz] repeat after at most [2^64] turns, so a
    loop that has not ended by then never ends. *)
Definition grow_loop (unit neosz neoasz : Z) : option Z :=
  match iterate (2 ^ 64)%positive (grow_step unit neosz) neoasz with
  | inr r => Some r
  | inl _ => None
  end.

Definition bufgrow (buf : ptr) (neosz : Z) : M Z :=
  match buf with
  | None => mret 0
  | Some p =>
      b ← deref p;
      if buf_unit b =? 0 then mret 0
      else if neosz <=? buf_asize b then mret 1
      else
        match grow_loop (buf_unit b) neosz (wrap (buf_asize b + buf_unit b)) with
        | None => diverges
        | Some neoasz =>
            neodata ← realloc (buf_data b) neoasz;
            match neodata with
            | None => mret 0
            | Some _ =>
                add_stat_alloc_bytes (neoasz - buf_asize b);;
                store p (set_asize neoasz (set_data neodata b));;
                mret 1
            end
        end
  end.

(** ** bufnew • allocation of a new buffer *)
Definition bufnew (unit : Z) : M ptr :=
  ret_ ← malloc_buf;
  match ret_ with
  | None => mret None
  | Some p =>
      add_stat_nb 1;;
      store p (Buf None 0 0 unit 1);;
      mret (Some p)
  end.

(** ** bufdup • buffer duplication *)

(** The allocated size of the copy:
    [blocks = (src->size + dupunit - 1) / dupunit; asize = blocks * dupunit]. *)
Definition bufdup_asize (size dupunit : Z) : Z :=
  let blocks := wrap (wrap (size + dupunit) - 1) / dupunit in
  wrap (blocks * dupunit).

Definition bufdup (src : ptr) (dupunit : Z) : M ptr :=
  match src with
  | None => mret None
  | Some s =>
      ret_ ← malloc_buf;
      match ret_ with
      | None => mret None
      | Some p =>
          b ← deref s;
          if buf_size b =? 0 then
            add_stat_nb 1;;
            store p (Buf None (buf_size b) 0 dupunit 1);;
            mret (Some p)
          else if dupunit =? 0 then undefined
          else
            let asize := bufdup_asize (buf_size b) dupunit in
            data ← malloc asize;
            match data with
            | None => mret None
            | Some _ =>
                bytes ← defined (read_bytes (buf_data b) 0 (buf_size b));
                data' ← defined (blit data 0 bytes);
                add_stat_nb 1;;
                add_stat_alloc_bytes asize;;
                store p (Buf data' (buf_size b) asize dupunit 1);;
                mret (Some p)
            end
      end
  end.

(** ** bufput • appends raw data to a buffer *)
Definition bufput (buf : ptr) (data : block) (len : Z) : M Datatypes.unit :=
  match buf with
  | None => mret tt
  | Some p =>
      b ← deref p;
      ok ← bufgrow buf (wrap (buf_size b + len));
      if ok =? 0 then mret tt
      else
        b ← deref p;
        bytes ← defined (read_bytes data 0 len);
        data' ← defined (blit (buf_data b) (buf_size b) bytes);
        store p (set_size (wrap (buf_size b + len)) (set_data data' b))
  end.

(** [strlen]: the index of the first NUL; none inside the block, or a null
    pointer, is undefined. *)
Fixpoint strlen_from (l : list Z) (i : Z) : option Z :=
  match l with
  | [] => None
  | c :: l' => if c =? 0 then Some i else strlen_from l' (i + 1)
  end.

Definition strlen (s : block) : option Z :=
  match s with None => None | Some l => strlen_from l 0 end.

(** ** bufputs • appends a NUL-terminated string to a buffer *)
Definition bufputs (buf : ptr) (str : block) : M Datatypes.unit :=
  len ← defined (strlen str);
  bufput buf str len.

(** ** bufputc • appends a single char to a buffer *)
Definition bufputc (buf : ptr) (c : Z) : M Datatypes.unit :=
  match buf with
  | None => mret tt
  | Some p =>
      b ← deref p;
      ok ← bufgrow buf (wrap (buf_size b + 1));
      if ok =? 0 then mret tt
      else
        b ← deref p;
        data' ← defined (blit (buf_data b) (buf_size b) [c]);
        store p (set_size (wrap (buf_size b + 1)) (set_data data' b))
  end.

(** ** bufrelease • decrease the reference count and free the buffer if needed *)
Definition bufrelease (buf : ptr) : M Datatypes.unit :=
  match buf with
  | None => mret tt
  | Some p =>
      b ← deref p;
      if buf_unit b =? 0 then mret tt
      else
        let b' := set_ref (wrap_int (buf_ref b - 1)) b in
        store p b';;
        if buf_ref b' =? 0 then
          add_stat_nb (-1);;
          add_stat_alloc_bytes (- buf_asize b');;
          free_buf p
        else mret tt
  end.

(** ** bufset • safely assigns a buffer to another

    [dest] is the value of [*dest] on entry, the result its value on
    return. *)
Definition bufset (dest : ptr) (src : ptr) : M ptr :=
  src' ← match src with
         | None => mret None
         | Some s =>
             b ← deref s;
             if is_volatile b then bufdup src 1
             else store s (set_ref (wrap_int (buf_ref b + 1)) b);; mret src
         end;
  bufrelease dest;;
  mret src'.

(** ** bufslurp • removes a given number of bytes from the head of the array *)
Definition bufslurp (buf : ptr) (len : Z) : M Datatypes.unit :=
  match buf with
  | None => mret tt
  | Some p =>
      b ← deref p;
      if (buf_unit b =? 0) || (len <=? 0) then mret tt
      else if buf_size b <=? len then store p (set_size 0 b)
      else
        let size := wrap (buf_size b - len) in
        bytes ← defined (read_bytes (buf_data b) len size);
        data' ← defined (blit (buf_data b) 0 bytes);
        store p (set_size size (set_data data' b))
  end.

(** The value of a [char] holding a byte ([char] is signed here; the tests
    of [buftoi] give the same answer for an unsigned [char]). *)
Definition char_val (c : Z) : Z :=
  if (128 <=? c) && (c <? 256) then c - 256 else c.

(** lower • retruns the lower-case variant of the input char *)
Definition lower (c : Z) : Z :=
  if (byte_of "A" <=? c) && (c <=? byte_of "Z") then c - byte_of "A" + byte_of "a" else c.

(** ** bufcmp • case-sensitive buffer comparison, and bufcasecmp *)

(** [while (i < cmplen && f (a->data[i]) == f (b->data[i])) ++i;] with [n]
    the number of turns left before [cmplen]; [f] is the identity for
    [bufcmp] and [lower] for [bufcasecmp]. *)
Fixpoint cmp_loop (f : Z → Z) (n : nat) (a b : buf) (cmplen i : Z) : option Z :=
  match n with
  | O => Some i
  | S n' =>
      if i <? cmplen then
        ca ← load (buf_data a) i;
        cb ← load (buf_data b) i;
        if f (char_val ca) =? f (char_val cb) then cmp_loop f n' a b cmplen (wrap (i + 1))
        else Some i
      else Some i
  end.

Definition cmp_with (f : Z → Z) (a b : ptr) : M Z :=
  if bool_decide (a = b) then mret 0
  else
    match a, b with
    | None, _ => mret (-1)
    | _, None => mret 1
    | Some pa, Some pb =>
        a ← deref pa;
        b ← deref pb;
        let cmplen := if buf_size a <? buf_size b then buf_size a else buf_size b in
        i ← defined (cmp_loop f (Z.to_nat cmplen) a b cmplen 0);
        if i <? buf_size a then
          if i <? buf_size b then
            ca ← defined (load (buf_data a) i);
            cb ← defined (load (buf_data b) i);
            mret (f (char_val ca) - f (char_val cb))
          else mret 1
        else if i <? buf_size b then mret (-1)
        else mret 0
    end.

Definition bufcmp (a b : ptr) : M Z := cmp_with id a b.

Definition bufcasecmp (a b : ptr) : M Z := cmp_with lower a b.

(** ** bufcmps • case-sensitive comparison of a string to a buffer *)

(** [strncmp (s1, s2, n)] from index [i]: the bytes are compared as
    [unsigned char] until they differ, a NUL has been compared, or [n] bytes
    are done. The result is the difference of the two bytes that differ (only
    its sign is specified by C). *)
Fixpoint strncmp_from (n : nat) (s1 s2 : block) (i : Z) : option Z :=
  match n with
  | O => Some 0
  | S n' =>
      c1 ← load s1 i;
      c2 ← load s2 i;
      if negb (c1 =? c2) then Some (c1 - c2)
      else if c1 =? 0 then Some 0
      else strncmp_from n' s1 s2 (i + 1)
  end.

Definition strncmp (s1 s2 : block) (n : Z) : option Z :=
  strncmp_from (Z.to_nat n) s1 s2 0.

Definition bufcmps (a : ptr) (b : block) : M Z :=
  len ← defined (strlen b);
  let cmplen := len in
  a' ← match a with None => mret None | Some p => Some <$> deref p end;
  match a' with
  | None => mret (if bool_decide (b ≠ None) then 0 else -1)
  | Some a =>
      if buf_size a =? 0 then mret (if bool_decide (b ≠ None) then 0 else -1)
      else
        let cmplen := if len <? buf_size a then buf_size a else cmplen in
        r ← defined (strncmp (buf_data a) b cmplen);
        if negb (r =? 0) then mret r
        else if buf_size a =? len then mret 0
        else if buf_size a <? len then mret (-1)
        else mret 1
  end.

(** ** buftoi • converts the numbers at the beginning of the buf into an int *)

(** Reads of [buf->data] are logged: a computation takes the indices read so
    far and returns them extended, with its value when every read was inside
    the block. *)
Definition R (A : Type) : Type := list Z → list Z * option A.

#[global] Instance R_ret : MRet R := λ A a t, (t, Some a).
#[global] Instance R_bind : MBind R := λ A B k c t,
  match c t with
  | (t', Some a) => k a t'
  | (t', None) => (t', None)
  end.

(** [buf->data[i]] *)
Definition read (b : buf) (i : Z) : R Z :=
  λ t, (t ++ [i], char_val <$> load (buf_data b) i).

(** The digit loop, with [n] the number of positions left before
    [buf->size]:
    [while (i < buf->size && buf->data[i] >= '0' && buf->data[i] <= '9')]. *)
Fixpoint buftoi_loop (n : nat) (b : buf) (r i : Z) : R (Z * Z) :=
  match n with
  | O => mret (r, i)
  | S n' =>
      if i <? buf_size b then
        c1 ← read b i;
        if byte_of "0" <=? c1 then
          c2 ← read b i;
          if c2 <=? byte_of "9" then
            c3 ← read b i;
            buftoi_loop n' b (wrap_int (wrap_int (wrap_int (r * 10) + c3) - byte_of "0"))
                        (wrap (i + 1))
          else mret (r, i)
        else mret (r, i)
      else mret (r, i)
  end.

(** The body of [buftoi] after the null and empty tests: the result and the
    final [i]. *)
Definition buftoi_scan (b : buf) (offset_i : Z) : R (Z * Z) :=
  let i := offset_i in
  c ← read b i;
  '(neg, i) ← (if c =? byte_of "+" then mret (0, wrap (i + 1))
               else
                 c' ← read b i;
                 if c' =? byte_of "-" then mret (1, wrap (i + 1))
                 else mret (0, i));
  '(r, i) ← buftoi_loop (Z.to_nat (buf_size b - i)) b 0 i;
  mret (if neg =? 0 then r else wrap_int (- r), i).

(** The indices [buftoi] reads on a non-null, non-empty buffer. *)
Definition buftoi_reads (b : buf) (offset_i : Z) : list Z :=
  fst (buftoi_scan b offset_i []).

(** [offset_o] is [None] for a null pointer, else the value of [*offset_o];
    the result pairs the returned [int] with [*offset_o] on return. *)
Definition buftoi (buf : ptr) (offset_i : Z) (offset_o : option Z) : M (Z * option Z) :=
  match buf with
  | None => mret (0, offset_o)
  | Some p =>
      b ← deref p;
      if buf_size b =? 0 then mret (0, offset_o)
      else
        '(r, i) ← defined (snd (buftoi_scan b offset_i []));
        mret (r, if offset_o is Some _ then Some i else None)
  end.

(** ** vbufprintf • stdarg variant of formatted printing into a buffer *)

(** [vsnprintf (dst + off, cap, fmt, ap)], with [rendered] the bytes that
    [fmt] produces from [ap] ([None] when the conversion fails). At most
    [cap - 1] of them are written, followed by a NUL; the result is their
    number, or [-1] for a failure or a length that no [int] holds. *)
Definition vsnprintf (dst : block) (off cap : Z) (rendered : option (list Z))
  : option (block * Z) :=
  match rendered with
  | None => Some (dst, -1)
  | Some out =>
      let n := if Z.of_nat (length out) <? 2 ^ 31 then Z.of_nat (length out) else -1 in
      if (cap =? 0) || (n <? 0) then Some (dst, n)
      else
        dst' ← blit dst off (take (Z.to_nat (cap - 1)) out ++ [0]);
        Some (dst', n)
  end.

Definition vbufprintf (buf : ptr) (rendered : option (list Z)) : M Datatypes.unit :=
  match buf with
  | None => mret tt
  | Some p =>
      b ← deref p;
      ok ← (if buf_asize b <=? buf_size b then bufgrow buf (wrap (buf_size b + 1))
            else mret 1);
      if ok =? 0 then mret tt
      else
        b ← deref p;
        '(data', n) ← defined (vsnprintf (buf_data b) (buf_size b)
                                 (wrap (buf_asize b - buf_size b)) rendered);
        store p (set_data data' b);;
        r ← (if wrap (buf_asize b - buf_size b) <=? int_to_size n then
               ok ← bufgrow buf (wrap (wrap (buf_size b + int_to_size n) + 1));
               if ok =? 0 then mret None
               else
                 b ← deref p;
                 '(data', n) ← defined (vsnprintf (buf_data b) (buf_size b)
                                          (wrap (buf_asize b - buf_size b)) rendered);
                 store p (set_data data' b);;
                 mret (Some n)
             else mret (Some n));
        match r with
        | None => mret tt
        | Some n =>
            if n <? 0 then mret tt
            else
              b ← deref p;
              store p (set_size (wrap (buf_size b + int_to_size n)) b)
        end
  end.

(** ** bufprintf • formatted printing to a buffer *)
Definition bufprintf (buf : ptr) (rendered : option (list Z)) : M Datatypes.unit :=
  match buf with
  | None => mret tt
  | Some p =>
      b ← deref p;
      if buf_unit b =? 0 then mret tt else vbufprintf buf rendered
  end.

(** ** bufreset • frees internal data of the buffer *)
Definition bufreset (buf : ptr) : M Datatypes.unit :=
  match buf with
  | None => mret tt
  | Some p =>
      b ← deref p;
      if (buf_unit b =? 0) || (buf_asize b =? 0) then mret tt
      else
        add_stat_alloc_bytes (- buf_asize b);;
        store p (set_asize 0 (set_size 0 (set_data None b)))
  end.

(** ** bufnullterm • NUL-termination of the string array (making a C-string) *)

(** [buf->size < buf->asize && buf->data[buf->size] == 0] *)
Definition nullterm_present (b : buf) : M bool :=
  if buf_size b <? buf_asize b then
    c ← defined (load (buf_data b) (buf_size b));
    mret (char_val c =? 0)
  else mret false.

Definition bufnullterm (buf : ptr) : M Datatypes.unit :=
  match buf with
  | None => mret tt
  | Some p =>
      b ← deref p;
      if buf_unit b =? 0 then mret tt
      else
        terminated ← nullterm_present b;
        if (terminated : bool) then mret tt
        else
          ok ← bufgrow buf (wrap (buf_size b + 1));
          if ok =? 0 then mret tt
          else
            b ← deref p;
            data' ← defined (blit (buf_data b) (buf_size b) [0]);
            store p (set_data data' b)
  end.

(** BUFPUTSL • optimized bufputs of a string litteral:
    [bufput(output, litteral, sizeof litteral - 1)] *)
Definition BUFPUTSL (output : ptr) (litteral : string) : M Datatypes.unit :=
  bufput output (Some (cstring litteral)) (Z.of_nat (String.length litteral)).

(** ** The words of the specification, for comparison with the code *)

(** ASCII decimal digits. *)
Definition is_digit (c : Z) : bool := (byte_of "0" <=? c) && (c <=? byte_of "9").

(** The maximal run of digits at the head of a byte sequence. *)
Fixpoint digit_run (l : list Z) : list Z :=
  match l with
  | c :: l' => if is_digit c then c :: digit_run l' else []
  | [] => []
  end.

(** The decimal value of a run of digits, as a mathematical integer. *)
Definition decimal (ds : list Z) : Z :=
  fold_left (λ acc d, acc * 10 + (d - byte_of "0")) ds 0.

(** The same sum accumulated the way the code does, in [int] arithmetic. *)
Definition accumulate (ds : list Z) (r : Z) : Z :=
  fold_left (λ acc d, wrap_int (wrap_int (wrap_int (acc * 10) + d) - byte_of "0")) ds r.

(** The leading integer of a byte sequence: an optional ['+'] or ['-'], then
    the maximal run of digits; the signed value in native [int] arithmetic
    and the number of bytes consumed. *)
Definition parse_leading_integer (l : list Z) : Z * Z :=
  match l with
  | c :: l' =>
      if c =? byte_of "+" then
        (wrap_int (decimal (digit_run l')), 1 + Z.of_nat (length (digit_run l')))
      else if c =? byte_of "-" then
        (wrap_int (- decimal (digit_run l')), 1 + Z.of_nat (length (digit_run l')))
      else (wrap_int (decimal (digit_run l)), Z.of_nat (length (digit_run l)))
  | [] => (0, 0)
  end.

(** The order of the buffer comparisons on two byte strings: the first pair
    of characters that differ (after [f]) decides by its difference; when one
    string is a prefix of the other, the shorter one is less. *)
Fixpoint lex_cmp (f : Z → Z) (la lb : list Z) : Z :=
  match la, lb with
  | [], [] => 0
  | [], _ :: _ => -1
  | _ :: _, [] => 1
  | x :: la', y :: lb' =>
      if f (char_val x) =? f (char_val y) then lex_cmp f la' lb'
      else f (char_val x) - f (char_val y)
  end.

(** A [struct buf *] that is null or points to a live buffer whose string
    lies inside its block. *)
Definition readable_in (m : mem) (a : ptr) : Prop :=
  match a with
  | None => True
  | Some p => ∃ b, heap m !! p = Some b ∧ buf_readable b
  end.

(** [k] calls of [bufrelease (buf)] in a row. *)
Fixpoint release_times (k : nat) (buf : ptr) : M Datatypes.unit :=
  match k with
  | O => mret tt
  | S k' => bufrelease buf;; release_times k' buf
  end.

(** The bytes that a buffer has from the allocator: those of a writable
    buffer ([CONST_BUF] and [VOLATILE_BUF] allocate nothing). *)
Definition owned_size (b : buf) : Z := if buf_unit b =? 0 then 0 else buf_asize b.

Definition owned_bytes (h : gmap positive buf) : Z :=
  map_fold (λ _ b acc, owned_size b + acc) 0 h.

(** The statistics are exact: [buffer_stat_alloc_bytes] is the number of
    bytes the live buffers own, and [buffer_stat_nb] the number of live
    buffers, [c] apart (the buffers that no call of [bufnew] or [bufdup]
    made). *)
Definition stats_exact (c : Z) (m : mem) : Prop :=
  buffer_stat_alloc_bytes m = wrap (owned_bytes (heap m)) ∧
  buffer_stat_nb m = wrap_long (Z.of_nat (size (heap m)) + c).

(** A computation keeps the statistics exact, from the state [m] and from
    every state. *)
Definition keeps_at {A : Type} (f : M A) (m : mem) : Prop :=
  ∀ c a m', stats_exact c m → f m = Done a m' → stats_exact c m'.

Definition keeps_stats {A : Type} (f : M A) : Prop := ∀ m, keeps_at f m.

(** [release] in the words of the specification: nothing on a read-only
    buffer; otherwise the reference count is decremented, and at zero the
    storage and the record are freed (and taken off the statistics). [bd] is
    the buffer at [d] before the release. *)
Definition released (d : positive) (bd : buf) (m : mem) : mem :=
  if buf_unit bd =? 0 then m
  else if wrap_int (buf_ref bd - 1) =? 0 then
    Mem (delete d (heap m)) (allocs m) (wrap_long (buffer_stat_nb m - 1))
        (wrap (buffer_stat_alloc_bytes m - buf_asize bd))
  else set_heap (<[d := set_ref (wrap_int (buf_ref bd - 1)) bd]> (heap m)) m.

(** The state once the value [dest] of a slot, null or a live buffer, has
    been released in [m]. *)
Definition slot_released (dest : ptr) (m : mem) : mem :=
  match dest with
  | None => m
  | Some d => match heap m !! d with Some bd => released d bd m | None => m end
  end.

(** What is at [d] once the buffer [bd] there has been released. *)
Definition after_release (bd : buf) : option buf :=
  if buf_unit bd =? 0 then Some bd
  else if wrap_int (buf_ref bd - 1) =? 0 then None
  else Some (set_ref (wrap_int (buf_ref bd - 1)) bd).

(** A computation that only consults the allocator: it changes neither the
    buffers nor the counters. *)
Definition allocator_only {A : Type} (f : M A) : Prop :=
  ∀ m a m1, f m = Done a m1 →
    heap m1 = heap m ∧ buffer_stat_nb m1 = buffer_stat_nb m ∧
    buffer_stat_alloc_bytes m1 = buffer_stat_alloc_bytes m.

(** Bytes, as opposed to arbitrary integers. *)
Definition is_byte (c : Z) : Prop := 0 <= c < 256.

(** The result of a run with its sign flipped. *)
Definition negated (o : outcome Z) : outcome Z :=
  match o with
  | Done r m => Done (- r) m
  | Undefined => Undefined
  | Diverges => Diverges
  end.

(** [a] is the least multiple of [u] that is at least [n]. *)
Definition least_multiple_above (u n a : Z) : Prop :=
  (∃ k, 0 <= k ∧ a = k * u) ∧ n <= a ∧ ∀ k, 0 <= k → n <= k * u → a <= k * u.

(** * Properties *)

(** ** Running the state monad *)

Lemma run_bind {A B : Type} (c : M A) (k : A → M B) (m : mem) :
  (c ≫= k) m =
    match c m with
    | Done a m' => k a m'
    | Undefined => Undefined
    | Diverges => Diverges
    end.
Proof. reflexivity. Qed.

Lemma run_deref (p : positive) (b : buf) (m : mem) :
  heap m !! p = Some b → deref p m = Done b m.
Proof. intros H. unfold deref. by rewrite H. Qed.

Lemma run_defined {A : Type} (a : A) (m : mem) : defined (Some a) m = Done a m.
Proof. reflexivity. Qed.

(** ** Machine arithmetic *)

Lemma wrap_small z : 0 <= z < 2 ^ 64 → wrap z = z.
Proof. intros. unfold wrap. by apply Z.mod_small. Qed.

Lemma wrap_range z : 0 <= wrap z < 2 ^ 64.
Proof. unfold wrap. apply Z.mod_pos_bound. lia. Qed.

(** ** The loop combinator *)

Section iterate.
Context {A B : Type} (step : A → A + B).

Lemma iterate_nat_S (n : nat) (a : A) :
  iterate_nat (S n) step a =
    match step a with
    | inl a' => iterate_nat n step a'
    | inr b => inr b
    end.
Proof. done. Qed.

Lemma iterate_nat_add (n k : nat) (a : A) :
  iterate_nat (n + k) step a =
    match iterate_nat n step a with
    | inl a' => iterate_nat k step a'
    | inr b => inr b
    end.
Proof.
  revert a. induction n as [|n IH]; intros a; simpl; [done|].
  destruct (step a); [apply IH | done].
Qed.

Lemma iterate_nat_twice (n : nat) (a : A) :
  iterate_nat (2 * n) step a =
    match iterate_nat n step a with
    | inl a' => iterate_nat n step a'
    | inr b => inr b
    end.
Proof. replace (2 * n)%nat with (n + n)%nat by lia. apply iterate_nat_add. Qed.

Lemma iterate_unary (fuel : positive) (a : A) :
  iterate fuel step a = iterate_nat (Pos.to_nat fuel) step a.
Proof.
  revert a. induction fuel as [q IH|q IH|]; intros a.
  - rewrite Pos2Nat.inj_xI.
    change (iterate_nat (S (2 * Pos.to_nat q)) step a)
      with (match step a with
            | inl a' => iterate_nat (2 * Pos.to_nat q) step a'
            | inr b => inr b end).
    simpl iterate. destruct (step a) as [a1|]; [|done].
    rewrite iterate_nat_twice, <- IH.
    destruct (iterate q step a1); [apply IH | done].
  - rewrite Pos2Nat.inj_xO, iterate_nat_twice, <- IH. simpl iterate.
    destruct (iterate q step a); [apply IH | done].
  - simpl. by destruct (step a).
Qed.

Lemma iterate_nat_more (n k : nat) (a : A) (b : B) :
  iterate_nat n step a = inr b → (n ≤ k)%nat → iterate_nat k step a = inr b.
Proof.
  intros Hn Hle. replace k with (n + (k - n))%nat by lia.
  by rewrite iterate_nat_add, Hn.
Qed.
Lemma iterate_nat_stuck (P : A → Prop) (n : nat) (a : A) :
  (∀ a, P a → ∃ a', step a = inl a' ∧ P a') → P a →
  ∃ a', iterate_nat n step a = inl a' ∧ P a'.
Proof.
  intros Hstep. revert a. induction n as [|n IH]; intros a Ha; [by exists a|].
  destruct (Hstep a Ha) as (a' & Hs & Ha'). rewrite iterate_nat_S, Hs. by apply IH.
Qed.

End iterate.

(** The loop of [bufgrow] ends when the requested size is at most [2^63],
    whatever the unit: a unit of at most [2^63] never wraps below the
    request, a larger one steps down by [2^64 - unit] until one more step
    jumps over the request. *)
Lemma grow_step_exit (unit neosz x : Z) :
  neosz <= x → grow_step unit neosz x = inr x.
Proof. intros. unfold grow_step. destruct (Z.ltb_spec x neosz); [lia|done]. Qed.

Lemma grow_step_again (unit neosz x : Z) :
  x < neosz → grow_step unit neosz x = inl (wrap (x + unit)).
Proof. intros. unfold grow_step. destruct (Z.ltb_spec x neosz); [done|lia]. Qed.

Lemma grow_loop_up (unit neosz : Z) (n : nat) (x : Z) :
  0 < unit <= 2 ^ 63 → neosz <= 2 ^ 63 → 0 <= x < 2 ^ 64 →
  (Z.to_nat (neosz - x) ≤ n)%nat →
  ∃ y, iterate_nat (S n) (grow_step unit neosz) x = inr y ∧ neosz <= y < 2 ^ 64.
Proof.
  intros Hu Hsz. revert x. induction n as [|n IH]; intros x Hx Hn;
    rewrite iterate_nat_S; destruct (Z.lt_ge_cases x neosz) as [Hlt|Hge];
    try (rewrite grow_step_exit by done; exists x; split; [done|lia]).
  - lia.
  - rewrite grow_step_again, wrap_small by lia. apply IH; lia.
Qed.

Lemma grow_loop_down (unit neosz : Z) (n : nat) (x : Z) :
  2 ^ 63 < unit < 2 ^ 64 → neosz <= 2 ^ 63 → 0 <= x < 2 ^ 64 →
  (Z.to_nat x ≤ n)%nat →
  ∃ y, iterate_nat (S (S n)) (grow_step unit neosz) x = inr y ∧ neosz <= y < 2 ^ 64.
Proof.
  intros Hu Hsz. revert x. induction n as [|n IH]; intros x Hx Hn;
    rewrite iterate_nat_S; destruct (Z.lt_ge_cases x neosz) as [Hlt|Hge];
    try (rewrite grow_step_exit by done; exists x; split; [done|lia]);
    rewrite grow_step_again by done;
    destruct (Z.lt_ge_cases (x + unit) (2 ^ 64)) as [Hno|Hwrap];
    try (rewrite wrap_small by lia; rewrite iterate_nat_S, grow_step_exit by lia;
         eexists; split; [done|lia]).
  assert (wrap (x + unit) = x + unit - 2 ^ 64) as ->.
  { unfold wrap. symmetry. apply (Z.mod_unique_pos _ _ 1); lia. }
  apply IH; lia.
Qed.

Lemma grow_loop_ends (unit neosz x : Z) :
  0 < unit < 2 ^ 64 → neosz <= 2 ^ 63 → 0 <= x < 2 ^ 64 →
  ∃ y, grow_loop unit neosz x = Some y ∧ neosz <= y < 2 ^ 64.
Proof.
  intros Hu Hsz Hx. unfold grow_loop. rewrite iterate_unary.
  assert (∃ (n : nat) y, (n ≤ Pos.to_nat (2 ^ 64))%nat ∧
            iterate_nat n (grow_step unit neosz) x = inr y ∧ neosz <= y < 2 ^ 64)
    as (n & y & Hn & Hy & Hr).
  { destruct (Z.le_gt_cases unit (2 ^ 63)).
    - destruct (grow_loop_up unit neosz (Z.to_nat (neosz - x)) x) as (y & ? & ?);
        [lia..|]. exists (S (Z.to_nat (neosz - x))), y. split; [|done].
      change (2 ^ 64)%positive with (Z.to_pos (2 ^ 64)).
      rewrite <- Z2Nat.inj_pos. lia.
    - destruct (Z.lt_ge_cases x neosz).
      + destruct (grow_loop_down unit neosz (Z.to_nat x) x) as (y & ? & ?);
          [lia..|]. exists (S (S (Z.to_nat x))), y. split; [|done].
        change (2 ^ 64)%positive with (Z.to_pos (2 ^ 64)).
        rewrite <- Z2Nat.inj_pos. lia.
      + exists 1%nat, x. split; [lia|]. split; [|lia].
        by rewrite iterate_nat_S, grow_step_exit. }
  rewrite (iterate_nat_more _ _ _ _ _ Hy Hn). eauto.
Qed.

(** Above [2^63] the loop may never end: with a unit of [2^63], [neoasz]
    alternates between [2^63] and 0 and never reaches [2^63 + 1]. *)
Lemma grow_loop_may_not_end : grow_loop (2 ^ 63) (2 ^ 63 + 1) (2 ^ 63) = None.
Proof.
  unfold grow_loop. rewrite iterate_unary.
  destruct (iterate_nat_stuck (grow_step (2 ^ 63) (2 ^ 63 + 1))
              (λ x, x = 2 ^ 63 ∨ x = 0) (Pos.to_nat (2 ^ 64)) (2 ^ 63))
    as (x & -> & _); [|by left|done].
  intros x [-> | ->]; eexists; (split; [reflexivity|]); [by right|by left].
Qed.

(** ** Blocks and contents *)

Lemma block_len_bytes d : block_len d = Z.of_nat (length (block_bytes d)).
Proof. by destruct d. Qed.

(** What [bufgrow] does to a writable buffer: either the allocation fails, [0]
    is returned and the store is as before, or [1] is returned and the buffer
    has room for [neosz] bytes. *)
Lemma bufgrow_cases (m : mem) (p : positive) (b : buf) (neosz : Z) :
  heap m !! p = Some b → buf_wf b → 0 < buf_unit b → 0 <= neosz <= 2 ^ 63 →
  ∃ ok m', bufgrow (Some p) neosz m = Done ok m' ∧
    ((ok = 0 ∧ heap m' = heap m) ∨
     (ok = 1 ∧ ∃ b', heap m' = <[p := b']> (heap m) ∧ grown neosz b b')).
Proof.
  intros Hp [Hsize Hasize Hmax Hunit] Hpos Hsz. unfold SIZE_MAX in *.
  unfold bufgrow. rewrite run_bind, (run_deref _ _ _ Hp).
  destruct (Z.eqb_spec (buf_unit b) 0); [lia|].
  destruct (Z.leb_spec neosz (buf_asize b)).
  - exists 1, m. split; [done|]. right. split; [done|]. exists b.
    split; [by rewrite insert_id|]. split; [done|].
    split; [lia|]. do 3 (split; [done|]). exists []. by rewrite app_nil_r.
  - destruct (grow_loop_ends (buf_unit b) neosz (wrap (buf_asize b + buf_unit b)))
      as (neoasz & -> & Hneo); [lia | lia | apply wrap_range |].
    rewrite run_bind. unfold realloc. rewrite run_bind. unfold next_alloc.
    destruct (allocs m) as [|[|fill] rest] eqn:Hal.
    + exists 0, m. split; [done|]. by left.
    + eexists 0, _. split; [done|]. by left.
    + eexists 1, _. split; [reflexivity|]. right. split; [done|].
      eexists. split; [reflexivity|].
      assert (length (block_bytes (buf_data b)) = Z.to_nat (buf_asize b)) as Hlen.
      { rewrite Hasize, block_len_bytes. lia. }
      fold (block_bytes (buf_data b)).
      rewrite take_ge by lia.
      split; [|split; [simpl; lia|do 3 (split; [done|]); simpl; eauto]].
      split; simpl; unfold SIZE_MAX; try done; try lia.
      rewrite length_app, length_replicate. lia.
Qed.

Lemma contents_block_bytes b :
  contents b = take (Z.to_nat (buf_size b)) (block_bytes (buf_data b)).
Proof. unfold contents. destruct (buf_data b); simpl; [done|]. by rewrite take_nil. Qed.

Lemma read_bytes_prefix (d : list Z) (len : Z) :
  0 <= len <= Z.of_nat (length d) →
  read_bytes (Some d) 0 len = Some (take (Z.to_nat len) d).
Proof.
  intros H. unfold read_bytes. destruct (Z.eqb_spec len 0) as [->|]; [done|].
  destruct (Z.leb_spec 0 len); [|lia].
  destruct (Z.leb_spec (0 + len) (Z.of_nat (length d))); [|lia]. done.
Qed.

Lemma blit_inside (l : list Z) (off : Z) (bytes : list Z) :
  0 <= off → off + Z.of_nat (length bytes) <= Z.of_nat (length l) →
  blit (Some l) off bytes =
    Some (Some (take (Z.to_nat off) l ++ bytes ++ drop (Z.to_nat off + length bytes) l)).
Proof.
  intros H1 H2. unfold blit. case_bool_decide as Hb.
  - subst bytes. simpl. by rewrite Nat.add_0_r, take_drop.
  - destruct (Z.leb_spec 0 off); [|lia].
    destruct (Z.leb_spec (off + Z.of_nat (length bytes)) (Z.of_nat (length l))); [|lia].
    done.
Qed.

Lemma blit_nothing (d : block) (off : Z) : blit d off [] = Some d.
Proof. done. Qed.

(** Writing [bytes] at the end of the string of a buffer with room for
    them. *)
Lemma blit_tail (b : buf) (bytes : list Z) :
  buf_wf b → buf_size b + Z.of_nat (length bytes) <= buf_asize b →
  ∃ d', blit (buf_data b) (buf_size b) bytes = Some d' ∧
    block_len d' = block_len (buf_data b) ∧
    take (Z.to_nat (buf_size b) + length bytes) (block_bytes d') =
      contents b ++ bytes.
Proof.
  intros [Hsize Hasize _ _] Hroom. rewrite contents_block_bytes.
  destruct (decide (bytes = [])) as [->|Hne].
  - exists (buf_data b). rewrite blit_nothing, Nat.add_0_r, app_nil_r. done.
  - assert (0 < length bytes)%nat by (destruct bytes; [done|simpl; lia]).
    destruct (buf_data b) as [l|] eqn:Hd; simpl in *; [|lia].
    rewrite blit_inside by lia. eexists. split; [done|].
    simpl. split.
    + rewrite !length_app, length_take, length_drop. lia.
    + rewrite take_app_ge; rewrite length_take; [|lia].
      replace (Z.to_nat (buf_size b) `min` length l)%nat with (Z.to_nat (buf_size b)) by lia.
      replace (Z.to_nat (buf_size b) + length bytes - Z.to_nat (buf_size b))%nat
        with (length bytes) by lia.
      by rewrite take_app_length.
Qed.

Lemma grown_contents (neosz : Z) (b b' : buf) :
  buf_wf b → grown neosz b b' → contents b' = contents b.
Proof.
  intros [Hsize Hasize _ _] (_ & _ & Hs & _ & _ & k & Hk).
  rewrite !contents_block_bytes, Hs, Hk.
  rewrite block_len_bytes in Hasize. apply take_app_le. lia.
Qed.

(** C1: for a non-null buffer [b] with a positive growth unit, [bufput (b, d,
    len)] ends in one of two ways. Either the growth step [bufgrow (b, size +
    len)] failed (returned 0) and no buffer of the store has changed; or it
    succeeded and [b->size] has increased by exactly [len], the contents
    being the old contents followed by the [len] bytes of [d] (so the last
    [len] bytes equal [d] and the first old [size] bytes are preserved). The
    buffer satisfies the invariant of an owned buffer, [d] holds at least
    [len] bytes, and the size asked for is at most [2^63] (no object is
    larger). *)
Theorem bufput_appends (m : mem) (p : positive) (b : buf) (d : list Z) (len : Z) :
  heap m !! p = Some b → buf_wf b → 0 < buf_unit b →
  0 <= len <= Z.of_nat (length d) → buf_size b + len <= 2 ^ 63 →
  ∃ ok m1 m',
    bufgrow (Some p) (buf_size b + len) m = Done ok m1 ∧
    bufput (Some p) (Some d) len m = Done tt m' ∧
    ((ok = 0 ∧ heap m' = heap m) ∨
     (ok = 1 ∧ ∃ b', heap m' = <[p := b']> (heap m) ∧
        buf_size b' = buf_size b + len ∧
        contents b' = contents b ++ take (Z.to_nat len) d ∧
        buf_unit b' = buf_unit b ∧ buf_ref b' = buf_ref b ∧ buf_wf b')).
Proof.
  intros Hp Hwf Hunit Hlen Hmax.
  pose proof (wf_size _ Hwf) as Hsize.
  destruct (bufgrow_cases m p b (buf_size b + len) Hp Hwf Hunit) as (ok & m1 & Hgrow & Hcases);
    [lia|].
  exists ok, m1. unfold bufput.
  rewrite run_bind, (run_deref _ _ _ Hp), run_bind, wrap_small, Hgrow by lia.
  destruct Hcases as [[-> Hheap]|[-> (b1 & Hheap & Hgrown)]].
  - exists m1. split; [done|]. split; [reflexivity|]. by left.
  - simpl. pose proof (grown_contents _ _ _ Hwf Hgrown) as Hcont.
    destruct Hgrown as (Hwf1 & Hroom & Hs1 & Hu1 & Hr1 & _).
    assert (heap m1 !! p = Some b1) as Hp1 by (by rewrite Hheap, lookup_insert_eq).
    rewrite run_bind, (run_deref _ _ _ Hp1), run_bind, read_bytes_prefix by done.
    rewrite run_defined, run_bind.
    destruct (blit_tail b1 (take (Z.to_nat len) d) Hwf1) as (d' & -> & Hlen' & Htake).
    { rewrite length_take. lia. }
    rewrite run_defined. eexists. split; [done|]. split; [reflexivity|]. right.
    split; [done|]. eexists. split.
    { simpl. rewrite Hheap. by rewrite insert_insert_eq. }
    simpl. rewrite Hs1, Hu1, Hr1, wrap_small by lia. split; [done|].
    split.
    { rewrite contents_block_bytes. simpl. rewrite length_take in Htake.
      rewrite <- Hcont, <- Htake. f_equal. lia. }
    do 2 (split; [done|]).
    destruct Hwf1. split; simpl; unfold SIZE_MAX in *; try lia.
Qed.

Lemma bufput_appends_witness :
  let b := Buf (Some (bytes_of "hello" ++ [7; 7; 7])) 5 8 8 1 in
  let m := Mem {[1%positive := b]} [AllocOk 7] 0 0 in
  ∃ ok m1 m',
    bufgrow (Some 1%positive) (buf_size b + 10) m = Done ok m1 ∧
    bufput (Some 1%positive) (Some (bytes_of "0123456789")) 10 m = Done tt m' ∧
    ((ok = 0 ∧ heap m' = heap m) ∨
     (ok = 1 ∧ ∃ b', heap m' = <[1%positive := b']> (heap m) ∧
        buf_size b' = buf_size b + 10 ∧
        contents b' = contents b ++ take (Z.to_nat 10) (bytes_of "0123456789") ∧
        buf_unit b' = buf_unit b ∧ buf_ref b' = buf_ref b ∧ buf_wf b')).
Proof.
  intros b m. apply (bufput_appends m 1%positive b (bytes_of "0123456789") 10).
  - reflexivity.
  - split; simpl; unfold SIZE_MAX; lia.
  - simpl. lia.
  - simpl. lia.
  - simpl. lia.
Defined.

(** The scenario of the specification: a buffer from [bufnew (8)] holds 5
    bytes in 8 after ["hello"], and 15 bytes in 16 after 10 more. *)
Example bufput_scenario :
  let run := p ← bufnew 8;
             bufput p (Some (bytes_of "hello")) 5;;
             b1 ← (if p is Some a then deref a else undefined);
             bufput p (Some (bytes_of "0123456789")) 10;;
             b2 ← (if p is Some a then deref a else undefined);
             mret (buf_size b1, buf_asize b1, buf_size b2, buf_asize b2,
                   contents b2) in
  result (run (Mem ∅ [AllocOk 0; AllocOk 0; AllocOk 0] 0 0))
  = Some (5, 8, 15, 16, bytes_of "hello0123456789").
Proof. vm_compute. reflexivity. Qed.

(** ** bufgrow on a read-only buffer *)

(** C2 (amended): on a read-only buffer ([unit == 0]) [bufgrow] is a no-op
    that reports failure: it returns 0 and leaves the store, and so the
    buffer, as they were, whatever the size asked for. *)
Theorem bufgrow_readonly (m : mem) (p : positive) (b : buf) (neosz : Z) :
  heap m !! p = Some b → buf_unit b = 0 →
  bufgrow (Some p) neosz m = Done 0 m.
Proof.
  intros Hp Hu. unfold bufgrow. rewrite run_bind, (run_deref _ _ _ Hp), Hu. done.
Qed.

Lemma bufgrow_readonly_witness :
  bufgrow (Some 1%positive) 10 (Mem {[1%positive := CONST_BUF "abc"]} [AllocOk 0] 0 0)
  = Done 0 (Mem {[1%positive := CONST_BUF "abc"]} [AllocOk 0] 0 0).
Proof. apply (bufgrow_readonly _ _ (CONST_BUF "abc")); reflexivity. Defined.

(** C2 as stated fails: on the read-only buffer [CONST_BUF "abc"] the call
    [bufgrow (buf, 10)] does not return success. *)
Lemma bufgrow_readonly_no_success :
  buf_unit (CONST_BUF "abc") = 0 ∧
  ∀ m', bufgrow (Some 1%positive) 10
          (Mem {[1%positive := CONST_BUF "abc"]} [AllocOk 0] 0 0) ≠ Done 1 m'.
Proof. split; [reflexivity|]. intros m'. vm_compute. discriminate. Qed.

(** ** bufslurp *)

Lemma read_bytes_inside (l : list Z) (off n : Z) :
  0 <= off → 0 <= n → off + n <= Z.of_nat (length l) →
  read_bytes (Some l) off n = Some (take (Z.to_nat n) (drop (Z.to_nat off) l)).
Proof.
  intros H1 H2 H3. unfold read_bytes. destruct (Z.eqb_spec n 0) as [->|]; [done|].
  destruct (Z.leb_spec 0 off); [|lia]. destruct (Z.leb_spec 0 n); [|lia].
  destruct (Z.leb_spec (off + n) (Z.of_nat (length l))); [|lia]. done.
Qed.

(** One [bufslurp] of a positive length on a writable buffer: the size drops
    by [len] (to zero when [len] reaches it) and the contents lose their first
    [len] bytes. *)
Lemma bufslurp_spec (m : mem) (p : positive) (b : buf) (len : Z) :
  heap m !! p = Some b → buf_wf b → 0 < buf_unit b → 0 < len →
  ∃ b', bufslurp (Some p) len m = Done tt (set_heap (<[p := b']> (heap m)) m) ∧
    buf_size b' = Z.max 0 (buf_size b - len) ∧
    contents b' = drop (Z.to_nat len) (contents b) ∧
    buf_unit b' = buf_unit b ∧ buf_wf b'.
Proof.
  intros Hp Hwf Hunit Hlen. pose proof Hwf as [Hsize Hasize Hmax Hu].
  unfold SIZE_MAX in *.
  unfold bufslurp. rewrite run_bind, (run_deref _ _ _ Hp).
  destruct (Z.eqb_spec (buf_unit b) 0); [lia|].
  destruct (Z.leb_spec len 0); [lia|]. simpl.
  destruct (Z.leb_spec (buf_size b) len).
  - exists (set_size 0 b). split; [done|]. simpl. split; [lia|]. split.
    + rewrite !contents_block_bytes. simpl. rewrite drop_ge; [done|].
      rewrite length_take. lia.
    + split; [done|]. split; simpl; unfold SIZE_MAX; try done; lia.
  - destruct (buf_data b) as [l|] eqn:Hd; simpl in Hasize; [|lia].
    rewrite wrap_small by lia.
    rewrite run_bind, read_bytes_inside, run_defined by lia.
    rewrite run_bind, blit_inside; [|lia|rewrite length_take, length_drop; lia].
    rewrite run_defined. eexists. split; [done|]. simpl.
    split; [lia|]. split.
    + unfold contents. simpl. rewrite Hd.
      rewrite length_take, length_drop.
      replace (Z.to_nat (buf_size b - len) `min` (length l - Z.to_nat len))%nat
        with (Z.to_nat (buf_size b - len)) by lia.
      rewrite take_app_le by (rewrite length_take, length_drop; lia).
      rewrite take_take, Nat.min_id, take_drop_commute.
      do 2 f_equal. lia.
    + split; [done|]. split; simpl; unfold SIZE_MAX; try lia.
      rewrite !length_app, !length_take, !length_drop. lia.
Qed.

(** C7: on a writable buffer ([unit > 0]), for positive [k] and [k2] with
    [k + k2] within [size], [bufslurp (b, k)] followed by [bufslurp (b, k2)]
    leaves the same size and the same bytes [0 .. size) as the single
    [bufslurp (b, k + k2)]; and [bufslurp (b, b->size)] leaves [size == 0]. *)
Theorem bufslurp_twice (m : mem) (p : positive) (b : buf) :
  heap m !! p = Some b → buf_wf b → 0 < buf_unit b →
  (∀ k k2, 0 < k → 0 < k2 → k + k2 <= buf_size b →
     ∃ m1 m2 m12 b2 b12,
       bufslurp (Some p) k m = Done tt m1 ∧
       bufslurp (Some p) k2 m1 = Done tt m2 ∧
       bufslurp (Some p) (k + k2) m = Done tt m12 ∧
       heap m2 !! p = Some b2 ∧ heap m12 !! p = Some b12 ∧
       buf_size b2 = buf_size b12 ∧ contents b2 = contents b12) ∧
  (∃ m0 b0, bufslurp (Some p) (buf_size b) m = Done tt m0 ∧
     heap m0 !! p = Some b0 ∧ buf_size b0 = 0).
Proof.
  intros Hp Hwf Hunit. split.
  - intros k k2 Hk Hk2 Hle.
    destruct (bufslurp_spec m p b k Hp Hwf Hunit Hk) as (b1 & Hrun1 & Hs1 & Hc1 & Hu1 & Hwf1).
    assert (heap (set_heap (<[p := b1]> (heap m)) m) !! p = Some b1) as Hp1
      by apply lookup_insert_eq.
    destruct (bufslurp_spec _ p b1 k2 Hp1 Hwf1 ltac:(lia) Hk2)
      as (b2 & Hrun2 & Hs2 & Hc2 & _).
    destruct (bufslurp_spec m p b (k + k2) Hp Hwf Hunit ltac:(lia))
      as (b12 & Hrun12 & Hs12 & Hc12 & _).
    eexists _, _, _, b2, b12. split; [exact Hrun1|]. split; [exact Hrun2|].
    split; [exact Hrun12|]. split; [apply lookup_insert_eq|].
    split; [apply lookup_insert_eq|]. split; [lia|].
    rewrite Hc2, Hc1, Hc12, drop_drop. f_equal. lia.
  - destruct (Z.eq_dec (buf_size b) 0) as [Hz|Hnz].
    + exists m, b. split; [|done]. unfold bufslurp.
      rewrite run_bind, (run_deref _ _ _ Hp), Hz.
      destruct (buf_unit b =? 0); done.
    + pose proof (wf_size _ Hwf).
      destruct (bufslurp_spec m p b (buf_size b) Hp Hwf Hunit ltac:(lia))
        as (b0 & Hrun & Hs & _).
      eexists _, b0. split; [exact Hrun|]. split; [apply lookup_insert_eq|]. lia.
Qed.

Lemma bufslurp_twice_witness :
  let b := Buf (Some (bytes_of "abcdefgh")) 6 8 8 1 in
  let m := Mem {[1%positive := b]} [] 0 0 in
  ∃ m1 m2 m12 b2 b12,
    bufslurp (Some 1%positive) 1 m = Done tt m1 ∧
    bufslurp (Some 1%positive) 2 m1 = Done tt m2 ∧
    bufslurp (Some 1%positive) (1 + 2) m = Done tt m12 ∧
    heap m2 !! 1%positive = Some b2 ∧ heap m12 !! 1%positive = Some b12 ∧
    buf_size b2 = buf_size b12 ∧ contents b2 = contents b12.
Proof.
  intros b m.
  assert (buf_wf b) as Hwf by (split; simpl; unfold SIZE_MAX; lia).
  apply (proj1 (bufslurp_twice m 1%positive b eq_refl Hwf eq_refl)); simpl; lia.
Defined.

(** ** buftoi *)

Lemma wrap_int_shift (a k : Z) : wrap_int (a + k * 2 ^ 32) = wrap_int a.
Proof.
  unfold wrap_int. replace (a + k * 2 ^ 32 + 2 ^ 31) with (a + 2 ^ 31 + k * 2 ^ 32) by lia.
  by rewrite Z_mod_plus_full.
Qed.

Lemma wrap_int_multiple (a : Z) : ∃ k, wrap_int a = a + k * 2 ^ 32.
Proof.
  exists (- ((a + 2 ^ 31) / 2 ^ 32)). unfold wrap_int.
  pose proof (Z_div_mod_eq_full (a + 2 ^ 31) (2 ^ 32)). lia.
Qed.

Lemma wrap_int_small (a : Z) : - 2 ^ 31 <= a < 2 ^ 31 → wrap_int a = a.
Proof. intros. unfold wrap_int. rewrite Z.mod_small; lia. Qed.

Lemma wrap_int_step (r d : Z) :
  wrap_int (wrap_int (wrap_int (wrap_int r * 10) + d) - byte_of "0")
  = wrap_int (r * 10 + (d - byte_of "0")).
Proof.
  destruct (wrap_int_multiple r) as [k1 ->].
  destruct (wrap_int_multiple ((r + k1 * 2 ^ 32) * 10)) as [k2 ->].
  destruct (wrap_int_multiple ((r + k1 * 2 ^ 32) * 10 + k2 * 2 ^ 32 + d)) as [k3 ->].
  rewrite <- (wrap_int_shift (r * 10 + _) (10 * k1 + k2 + k3)). f_equal. lia.
Qed.

Lemma wrap_int_neg (r : Z) : wrap_int (- wrap_int r) = wrap_int (- r).
Proof.
  destruct (wrap_int_multiple r) as [k ->].
  rewrite <- (wrap_int_shift (- r) (- k)). f_equal. lia.
Qed.

(** Accumulating in [int] arithmetic gives the decimal value reduced once. *)
Lemma accumulate_decimal (ds : list Z) (r : Z) :
  accumulate ds (wrap_int r)
  = wrap_int (fold_left (λ acc d, acc * 10 + (d - byte_of "0")) ds r).
Proof.
  revert r. induction ds as [|d ds IH]; intros r; simpl; [done|].
  fold (accumulate ds (wrap_int (wrap_int (wrap_int (wrap_int r * 10) + d) - byte_of "0"))).
  by rewrite wrap_int_step, IH.
Qed.

Lemma accumulate_zero (ds : list Z) : accumulate ds 0 = wrap_int (decimal ds).
Proof. apply (accumulate_decimal ds 0). Qed.

Lemma char_val_digit (c : Z) :
  (byte_of "0" <=? char_val c) && (char_val c <=? byte_of "9") = is_digit c ∧
  (is_digit c = true → char_val c = c).
Proof.
  unfold is_digit, char_val. change (byte_of "0") with 48. change (byte_of "9") with 57.
  destruct (Z.leb_spec 128 c), (Z.ltb_spec c 256); simpl;
    destruct (Z.leb_spec 48 c), (Z.leb_spec c 57); simpl; try lia;
    repeat match goal with |- context [?a <=? ?b] => destruct (Z.leb_spec a b) end;
    simpl; try lia; split; try done; try lia.
Qed.

Lemma char_val_eqb (c k : Z) : 0 <= k < 128 → (char_val c =? k) = (c =? k).
Proof.
  intros. unfold char_val.
  destruct (Z.leb_spec 128 c), (Z.ltb_spec c 256); simpl; try done.
  destruct (Z.eqb_spec (c - 256) k), (Z.eqb_spec c k); try done; lia.
Qed.

Lemma run_read (b : buf) (l : list Z) (i c : Z) (t : list Z) :
  buf_data b = Some l → 0 <= i → l !! Z.to_nat i = Some c →
  read b i t = (t ++ [i], Some (char_val c)).
Proof.
  intros Hd Hi Hc. unfold read, load. rewrite Hd.
  pose proof (lookup_lt_Some _ _ _ Hc).
  destruct (Z.leb_spec 0 i); [|lia].
  destruct (Z.ltb_spec i (Z.of_nat (length l))); [|lia].
  simpl. by rewrite Hc.
Qed.

Lemma run_R_bind {A B : Type} (c : R A) (k : A → R B) (t : list Z) :
  (c ≫= k) t =
    match c t with
    | (t', Some a) => k a t'
    | (t', None) => (t', None)
    end.
Proof. reflexivity. Qed.

(** The bytes of the string from index [i] on. *)
Lemma contents_from (b : buf) (l : list Z) (i : Z) :
  buf_data b = Some l → buf_readable b → 0 <= i < buf_size b →
  ∃ c, l !! Z.to_nat i = Some c ∧
    drop (Z.to_nat i) (contents b) = c :: drop (Z.to_nat (i + 1)) (contents b).
Proof.
  intros Hd [Hs Hlen] Hi. rewrite Hd in Hlen. simpl in Hlen.
  destruct (lookup_lt_is_Some_2 l (Z.to_nat i)) as [c Hc]; [lia|].
  exists c. split; [done|]. unfold contents. rewrite Hd.
  replace (Z.to_nat (i + 1)) with (S (Z.to_nat i)) by lia.
  apply drop_S. rewrite lookup_take_lt by lia. done.
Qed.

Lemma contents_length (b : buf) :
  buf_readable b → length (contents b) = Z.to_nat (buf_size b).
Proof.
  intros [Hs Hlen]. unfold contents. destruct (buf_data b); simpl in *.
  - rewrite length_take. lia.
  - lia.
Qed.

(** The digit loop consumes the maximal run of digits, reading only indices
    from [i] up to the size. *)
Lemma buftoi_loop_spec (n : nat) (b : buf) (l : list Z) (r i : Z) (t : list Z) :
  buf_data b = Some l → buf_readable b → 0 <= i →
  n = Z.to_nat (buf_size b - i) →
  let ds := digit_run (drop (Z.to_nat i) (contents b)) in
  ∃ t', buftoi_loop n b r i t = (t ++ t', Some (accumulate ds r, i + Z.of_nat (length ds))) ∧
        Forall (λ j, i <= j < buf_size b) t'.
Proof.
  intros Hd Hrd. revert r i t. induction n as [|n IH]; intros r i t Hi Hn ds.
  - exists []. rewrite app_nil_r. split; [|done]. subst ds.
    rewrite drop_ge by (rewrite contents_length by done; lia). simpl.
    by rewrite Z.add_0_r.
  - assert (i < buf_size b) as Hlt by lia.
    destruct (contents_from b l i Hd Hrd ltac:(lia)) as (c & Hc & Hdrop).
    subst ds. rewrite Hdrop. simpl digit_run.
    destruct (char_val_digit c) as [Hdig Hval].
    simpl buftoi_loop. destruct (Z.ltb_spec i (buf_size b)); [|lia].
    rewrite run_R_bind, (run_read b l i c) by done.
    destruct (Z.leb_spec (byte_of "0") (char_val c)) as [H0|H0]; simpl in Hdig.
    + rewrite run_R_bind, (run_read b l i c) by done.
      destruct (Z.leb_spec (char_val c) (byte_of "9")) as [H9|H9]; simpl in Hdig.
      * rewrite run_R_bind, (run_read b l i c) by done.
        rewrite <- Hdig. rewrite Hval by done.
        destruct Hrd as [Hs Hlen].
        rewrite wrap_small by (unfold SIZE_MAX in *; lia).
        destruct (IH (wrap_int (wrap_int (wrap_int (r * 10) + c) - byte_of "0"))
                    (i + 1) (((t ++ [i]) ++ [i]) ++ [i])) as (t' & -> & Hall); [lia|lia|].
        exists ([i; i; i] ++ t'). split.
        { rewrite <- !app_assoc. simpl. do 2 f_equal. f_equal. simpl length. lia. }
        apply Forall_app. split.
        { repeat constructor; lia. }
        eapply Forall_impl; [exact Hall|]. simpl. lia.
      * rewrite <- Hdig. exists [i; i]. rewrite <- !app_assoc. simpl.
        split; [by rewrite Z.add_0_r|]. repeat constructor; lia.
    + rewrite <- Hdig. exists [i]. simpl. split; [by rewrite Z.add_0_r|].
      repeat constructor; lia.
Qed.

Lemma run_R_ret {A : Type} (a : A) (t : list Z) : (mret a : R A) t = (t, Some a).
Proof. reflexivity. Qed.

(** The scan of [buftoi] from an offset inside the string computes the
    leading integer of the bytes from that offset, reading only inside the
    string. *)
Lemma buftoi_scan_spec (b : buf) (offset_i : Z) :
  buf_readable b → 0 <= offset_i < buf_size b →
  let parsed := parse_leading_integer (drop (Z.to_nat offset_i) (contents b)) in
  ∃ t', buftoi_scan b offset_i [] = (offset_i :: t', Some (parsed.1, offset_i + parsed.2)) ∧
        Forall (λ j, offset_i <= j < buf_size b) t'.
Proof.
  intros Hrd Hoff parsed.
  destruct (buf_data b) as [l|] eqn:Hd; [|destruct Hrd as [_ Hlen]; rewrite Hd in Hlen; simpl in Hlen; lia].
  destruct (contents_from b l offset_i Hd Hrd Hoff) as (c & Hc & Hdrop).
  assert (wrap (offset_i + 1) = offset_i + 1) as Hw.
  { destruct Hrd as [Hs _]. apply wrap_small. unfold SIZE_MAX in Hs. lia. }
  subst parsed. rewrite Hdrop. unfold parse_leading_integer, buftoi_scan.
  rewrite run_R_bind, (run_read b l offset_i c) by (done || lia).
  rewrite (char_val_eqb c (byte_of "+")) by (vm_compute; split; [discriminate|done]).
  destruct (c =? byte_of "+") eqn:Hplus.
  - rewrite run_R_bind, run_R_ret, Hw. simpl fst. simpl snd.
    cbv beta iota. rewrite run_R_bind.
    destruct (buftoi_loop_spec (Z.to_nat (buf_size b - (offset_i + 1))) b l 0
                (offset_i + 1) ([] ++ [offset_i]) Hd Hrd ltac:(lia) eq_refl)
      as (t' & -> & Hall).
    exists t'. rewrite run_R_ret, accumulate_zero. split.
    + simpl. do 3 f_equal. lia.
    + eapply Forall_impl; [exact Hall|]. simpl. lia.
  - rewrite !run_R_bind, (run_read b l offset_i c) by (done || lia).
    rewrite (char_val_eqb c (byte_of "-")) by (vm_compute; split; [discriminate|done]).
    destruct (c =? byte_of "-") eqn:Hminus.
    + rewrite run_R_ret, Hw. cbv beta iota. rewrite run_R_bind.
      destruct (buftoi_loop_spec (Z.to_nat (buf_size b - (offset_i + 1))) b l 0
                  (offset_i + 1) (([] ++ [offset_i]) ++ [offset_i]) Hd Hrd ltac:(lia) eq_refl)
        as (t' & -> & Hall).
      exists (offset_i :: t'). rewrite run_R_ret, accumulate_zero, wrap_int_neg. split.
      * simpl. do 3 f_equal. lia.
      * constructor; [lia|]. eapply Forall_impl; [exact Hall|]. simpl. lia.
    + rewrite run_R_ret. cbv beta iota. rewrite run_R_bind.
      destruct (buftoi_loop_spec (Z.to_nat (buf_size b - offset_i)) b l 0
                  offset_i (([] ++ [offset_i]) ++ [offset_i]) Hd Hrd ltac:(lia) eq_refl)
        as (t' & -> & Hall).
      exists (offset_i :: t'). rewrite run_R_ret, accumulate_zero, Hdrop. split.
      * done.
      * constructor; [lia|]. done.
Qed.

(** Reads only ever extend the log. *)
Lemma buftoi_loop_extends (n : nat) (b : buf) (r i : Z) (t : list Z) :
  ∃ t', (buftoi_loop n b r i t).1 = t ++ t'.
Proof.
  revert r i t. induction n as [|n IH]; intros r i t; simpl.
  - exists []. by rewrite app_nil_r.
  - destruct (i <? buf_size b); [|exists []; by rewrite app_nil_r].
    rewrite run_R_bind. unfold read at 1.
    destruct (char_val <$> load (buf_data b) i) as [c1|]; [|by exists [i]].
    destruct (byte_of "0" <=? c1); [|by exists [i]].
    rewrite run_R_bind. unfold read at 1.
    destruct (char_val <$> load (buf_data b) i) as [c2|];
      [|exists [i; i]; by rewrite <- app_assoc].
    destruct (c2 <=? byte_of "9"); [|exists [i; i]; by rewrite <- app_assoc].
    rewrite run_R_bind. unfold read at 1.
    destruct (char_val <$> load (buf_data b) i) as [c3|];
      [|exists [i; i; i]; by rewrite <- !app_assoc].
    destruct (IH (wrap_int (wrap_int (wrap_int (r * 10) + c3) - byte_of "0"))
                (wrap (i + 1)) (((t ++ [i]) ++ [i]) ++ [i])) as [t' ->].
    exists ([i; i; i] ++ t'). by rewrite <- !app_assoc.
Qed.

Lemma buftoi_reads_first (b : buf) (offset_i : Z) :
  ∃ rest, buftoi_reads b offset_i = offset_i :: rest.
Proof.
  unfold buftoi_reads, buftoi_scan. rewrite run_R_bind. unfold read at 1.
  destruct (char_val <$> load (buf_data b) offset_i) as [c|]; [|by exists []].
  rewrite run_R_bind.
  assert (∃ neg i t', (if c =? byte_of "+" then mret (0, wrap (offset_i + 1))
            else read b offset_i ≫= λ c', if c' =? byte_of "-"
                   then mret (1, wrap (offset_i + 1)) else mret (0, offset_i))
           ([] ++ [offset_i]) = ([offset_i] ++ t', neg) ∧
           (neg = None ∨ neg = Some i)) as (neg & i & t' & -> & Hneg).
  { destruct (c =? byte_of "+"); [by eexists _, (0, wrap (offset_i + 1)), []; eauto|].
    rewrite run_R_bind. unfold read at 1.
    destruct (char_val <$> load (buf_data b) offset_i) as [c'|];
      [|by eexists None, (0, 0), [offset_i]; eauto].
    destruct (c' =? byte_of "-"); eexists _, _, [offset_i]; eauto. }
  destruct Hneg as [->| ->]; [by eexists|].
  destruct i as [neg i]. rewrite run_R_bind.
  destruct (buftoi_loop_extends (Z.to_nat (buf_size b - i)) b 0 i ([offset_i] ++ t'))
    as [t'' Ht''].
  destruct (buftoi_loop _ b 0 i ([offset_i] ++ t')) as [tt [[r' i']|]];
    simpl in Ht''; subst tt; by eexists.
Qed.

(** C8: for a non-null, non-empty buffer and a start offset inside the
    string, [buftoi] returns the leading integer of the bytes from that
    offset: an optional ['+'] or ['-'] followed by the maximal run of ASCII
    digits, as a signed decimal value wrapped to [int]; it stops at the first
    non-digit or at the end of the string and, when [offset_o] is given,
    stores there the offset just past the digits consumed. For a null or an
    empty buffer it returns 0 (and leaves [*offset_o] alone). On the contents
    ["-42abc"] from offset 0 it returns -42 with end offset 3. *)
Theorem buftoi_leading_integer :
  (∀ m p b offset_i offset_o,
     heap m !! p = Some b → buf_readable b → 0 < buf_size b →
     0 <= offset_i < buf_size b →
     let parsed := parse_leading_integer (drop (Z.to_nat offset_i) (contents b)) in
     buftoi (Some p) offset_i offset_o m
     = Done (parsed.1, (λ _, offset_i + parsed.2) <$> offset_o) m) ∧
  (∀ m offset_i offset_o, buftoi None offset_i offset_o m = Done (0, offset_o) m) ∧
  (∀ m p b offset_i offset_o,
     heap m !! p = Some b → buf_size b = 0 →
     buftoi (Some p) offset_i offset_o m = Done (0, offset_o) m) ∧
  (let m := Mem {[1%positive := CONST_BUF "-42abc"]} [] 0 0 in
   buftoi (Some 1%positive) 0 (Some 0) m = Done (-42, Some 3) m).
Proof.
  split; [|split; [|split]].
  - intros m p b offset_i offset_o Hp Hrd Hsize Hoff parsed.
    unfold buftoi. rewrite run_bind, (run_deref _ _ _ Hp).
    destruct (Z.eqb_spec (buf_size b) 0); [lia|].
    destruct (buftoi_scan_spec b offset_i Hrd Hoff) as (t' & Hscan & _).
    rewrite run_bind, Hscan. by destruct offset_o.
  - done.
  - intros m p b offset_i offset_o Hp Hsize.
    unfold buftoi. by rewrite run_bind, (run_deref _ _ _ Hp), Hsize.
  - vm_compute. done.
Qed.

(** C9: on a non-null, non-empty buffer [buftoi] reads [data[offset_i]]
    first, whatever the offset, and is undefined as soon as a read falls
    outside the block. When [offset_i < size] every index read is below
    [size] and no read is out of range. With [offset_i >= size] an index past
    the end is read: on a 3-byte buffer and offset 3 the only read is at
    index 3, outside the block. *)
Theorem buftoi_reads_in_bounds :
  (∀ m p b offset_i offset_o,
     heap m !! p = Some b → buf_size b ≠ 0 →
     (∃ rest, buftoi_reads b offset_i = offset_i :: rest) ∧
     buftoi (Some p) offset_i offset_o m
     = match (buftoi_scan b offset_i []).2 with
       | Some (r, i) => Done (r, if offset_o is Some _ then Some i else None) m
       | None => Undefined
       end) ∧
  (∀ b offset_i,
     buf_readable b → 0 <= offset_i < buf_size b →
     Forall (λ j, 0 <= j < buf_size b) (buftoi_reads b offset_i) ∧
     is_Some (buftoi_scan b offset_i []).2) ∧
  (let b := Buf (Some (bytes_of "abc")) 3 3 1 1 in
   buf_readable b ∧ buf_size b ≠ 0 ∧ buftoi_reads b 3 = [3] ∧ buf_size b <= 3 ∧
   (buftoi_scan b 3 []).2 = None).
Proof.
  split; [|split].
  - intros m p b offset_i offset_o Hp Hsize. split; [apply buftoi_reads_first|].
    unfold buftoi. rewrite run_bind, (run_deref _ _ _ Hp).
    destruct (Z.eqb_spec (buf_size b) 0); [done|].
    rewrite run_bind. by destruct (buftoi_scan b offset_i []).2 as [[r i]|].
  - intros b offset_i Hrd Hoff.
    destruct (buftoi_scan_spec b offset_i Hrd Hoff) as (t' & Hscan & Hall).
    unfold buftoi_reads. rewrite Hscan. simpl. split; [|by eexists].
    constructor; [lia|]. eapply Forall_impl; [exact Hall|]. simpl. lia.
  - repeat split; try done; vm_compute; try done; discriminate.
Qed.

Lemma buftoi_leading_integer_witness :
  let b := CONST_BUF "x=+17;" in
  let m := Mem {[1%positive := b]} [] 0 0 in
  buftoi (Some 1%positive) 2 (Some 0) m = Done (17, Some 5) m.
Proof.
  intros b m.
  assert (buf_readable b) as Hrd by (split; simpl; unfold SIZE_MAX; lia).
  assert (heap m !! 1%positive = Some b) as Hp by reflexivity.
  assert (0 < buf_size b) as H0 by reflexivity.
  assert (0 <= 2 < buf_size b) as H1 by (simpl; lia).
  exact (proj1 buftoi_leading_integer m 1%positive b 2 (Some 0) Hp Hrd H0 H1).
Defined.

Lemma buftoi_reads_in_bounds_witness :
  let b := CONST_BUF "x=+17;" in
  Forall (λ j, 0 <= j < buf_size b) (buftoi_reads b 2) ∧
  is_Some (buftoi_scan b 2 []).2.
Proof.
  intros b.
  assert (buf_readable b) as Hrd by (split; simpl; unfold SIZE_MAX; lia).
  assert (0 <= 2 < buf_size b) as H1 by (simpl; lia).
  exact (proj1 (proj2 buftoi_reads_in_bounds) b 2 Hrd H1).
Defined.

(** ** bufdup *)

(** Without wrap-around the rounding of [bufdup] gives the least multiple of
    the unit that covers the size. *)
Lemma bufdup_asize_least (size dupunit : Z) :
  0 < size → 0 < dupunit → size + dupunit - 1 <= SIZE_MAX →
  least_multiple_above dupunit size (bufdup_asize size dupunit).
Proof.
  intros Hs Hu Hmax. unfold SIZE_MAX in Hmax. unfold bufdup_asize.
  replace (wrap (wrap (size + dupunit) - 1)) with (size + dupunit - 1)
    by (unfold wrap; rewrite Zminus_mod_idemp_l, Z.mod_small; lia).
  pose proof (Z_div_mod_eq_full (size + dupunit - 1) dupunit) as Hdiv.
  pose proof (Z.mod_pos_bound (size + dupunit - 1) dupunit Hu) as Hmod.
  set (blocks := (size + dupunit - 1) / dupunit) in *.
  assert (0 <= blocks) by (apply Z.div_pos; lia).
  rewrite wrap_small by nia.
  split; [exists blocks; split; [done|lia]|]. split; [nia|].
  intros k Hk Hle. assert (blocks < k + 1) by nia. nia.
Qed.

Lemma run_next_alloc_ok (m : mem) (fill : Z) (rest : list alloc_result) :
  allocs m = AllocOk fill :: rest → next_alloc m = Done (AllocOk fill) (set_allocs rest m).
Proof. intros H. unfold next_alloc. by rewrite H. Qed.


Lemma run_malloc_buf_ok (m : mem) (fill : Z) (rest : list alloc_result) :
  allocs m = AllocOk fill :: rest →
  malloc_buf m = Done (Some (fresh (dom (heap m)))) (set_allocs rest m).
Proof.
  intros H. unfold malloc_buf. by rewrite run_bind, (run_next_alloc_ok _ _ _ H).
Qed.


Lemma fresh_address_free (m : mem) : heap m !! fresh (dom (heap m)) = None.
Proof. apply not_elem_of_dom, is_fresh. Qed.

(** [bufdup] of an empty buffer: no division, no data. *)
Lemma bufdup_empty (m : mem) (s : positive) (b : buf) (dupunit fill : Z)
    (rest : list alloc_result) :
  heap m !! s = Some b → allocs m = AllocOk fill :: rest → buf_size b = 0 →
  bufdup (Some s) dupunit m
  = Done (Some (fresh (dom (heap m))))
      (Mem (<[fresh (dom (heap m)) := Buf None 0 0 dupunit 1]> (heap m)) rest
           (wrap_long (buffer_stat_nb m + 1)) (buffer_stat_alloc_bytes m)).
Proof.
  intros Hs Hal Hz. unfold bufdup.
  rewrite run_bind, (run_malloc_buf_ok _ _ _ Hal), run_bind.
  rewrite (run_deref s b) by done. by rewrite Hz.
Qed.

(** [bufdup] of a non-empty buffer when both allocations succeed. *)
Lemma bufdup_ok (m : mem) (s : positive) (b : buf) (dupunit f1 f2 : Z)
    (rest : list alloc_result) :
  heap m !! s = Some b → buf_readable b → 0 < buf_size b →
  0 < dupunit → buf_size b + dupunit - 1 <= SIZE_MAX →
  allocs m = AllocOk f1 :: AllocOk f2 :: rest →
  ∃ d',
    bufdup (Some s) dupunit m
    = Done (Some (fresh (dom (heap m))))
        (Mem (<[fresh (dom (heap m)) :=
                Buf d' (buf_size b) (bufdup_asize (buf_size b) dupunit) dupunit 1]> (heap m))
             rest (wrap_long (buffer_stat_nb m + 1))
             (wrap (buffer_stat_alloc_bytes m + bufdup_asize (buf_size b) dupunit))) ∧
    block_len d' = bufdup_asize (buf_size b) dupunit ∧
    take (Z.to_nat (buf_size b)) (block_bytes d') = contents b.
Proof.
  intros Hs [Hsz Hlen] Hpos Hu Hmax Hal.
  destruct (bufdup_asize_least (buf_size b) dupunit Hpos Hu Hmax) as ((k & Hk & Hmul) & Hge & _).
  unfold bufdup.
  rewrite run_bind, (run_malloc_buf_ok _ _ _ Hal), run_bind.
  rewrite (run_deref s b) by done.
  destruct (Z.eqb_spec (buf_size b) 0); [lia|].
  destruct (Z.eqb_spec dupunit 0); [lia|].
  rewrite run_bind. unfold malloc. rewrite run_bind.
  rewrite (run_next_alloc_ok _ f2 rest) by done.
  destruct (buf_data b) as [l|] eqn:Hd; simpl in Hlen; [|lia].
  change (ret (Some (replicate (Z.to_nat (bufdup_asize (buf_size b) dupunit)) f2))
           (set_allocs rest (set_allocs (AllocOk f2 :: rest) m)))
    with (Done (Some (replicate (Z.to_nat (bufdup_asize (buf_size b) dupunit)) f2))
           (set_allocs rest m)).
  cbv beta iota.
  rewrite run_bind, read_bytes_inside, run_defined by lia.
  rewrite run_bind, blit_inside;
    [|lia|rewrite length_take, length_drop, length_replicate; lia].
  rewrite run_defined. eexists. split; [reflexivity|].
  rewrite drop_0. simpl. split.
  - rewrite length_app, length_drop, length_replicate, length_take. lia.
  - rewrite take_app_length'; [|rewrite length_take; lia].
    unfold contents. by rewrite Hd.
Qed.



(** C10 (amended): [bufdup] divides by [dupunit] exactly when the source is
    non-null and non-empty. A source of size zero never reaches the division
    and yields a buffer with [asize == 0] and null data, whatever the unit.
    For a non-empty source a zero unit is a division by zero; with
    [dupunit > 0] and [size + dupunit - 1] not above [SIZE_MAX] (the rounding
    does not wrap around) the division is defined and the new capacity
    [blocks * dupunit] is the least multiple of [dupunit] that is at least
    [size], the copy holding the bytes of the source. *)
Theorem bufdup_capacity :
  (∀ m s b dupunit fill rest,
     heap m !! s = Some b → allocs m = AllocOk fill :: rest → buf_size b = 0 →
     ∃ q m', bufdup (Some s) dupunit m = Done (Some q) m' ∧
       heap m' !! q = Some (Buf None 0 0 dupunit 1)) ∧
  (∀ m s b fill rest,
     heap m !! s = Some b → allocs m = AllocOk fill :: rest → buf_size b ≠ 0 →
     bufdup (Some s) 0 m = Undefined) ∧
  (∀ m s b dupunit f1 f2 rest,
     heap m !! s = Some b → buf_readable b → 0 < buf_size b →
     allocs m = AllocOk f1 :: AllocOk f2 :: rest →
     0 < dupunit → buf_size b + dupunit - 1 <= SIZE_MAX →
     ∃ q m' b', bufdup (Some s) dupunit m = Done (Some q) m' ∧
       heap m' !! q = Some b' ∧ heap m' !! s = Some b ∧
       buf_asize b' = bufdup_asize (buf_size b) dupunit ∧
       least_multiple_above dupunit (buf_size b) (buf_asize b') ∧
       buf_size b' = buf_size b ∧ contents b' = contents b).
Proof.
  split; [|split].
  - intros m s b dupunit fill rest Hs Hal Hz.
    eexists _, _. split; [by apply (bufdup_empty m s b dupunit fill rest)|].
    apply lookup_insert_eq.
  - intros m s b fill rest Hs Hal Hnz. unfold bufdup.
    rewrite run_bind, (run_malloc_buf_ok _ _ _ Hal), run_bind.
    rewrite (run_deref s b) by done.
    by destruct (Z.eqb_spec (buf_size b) 0).
  - intros m s b dupunit f1 f2 rest Hs Hrd Hpos Hal Hu Hmax.
    destruct (bufdup_ok m s b dupunit f1 f2 rest) as (d' & Hrun & Hlen & Hbytes); try done.
    eexists _, _, _. split; [exact Hrun|]. simpl.
    split; [apply lookup_insert_eq|].
    split. { rewrite lookup_insert_ne; [done|]. intros <-. by rewrite fresh_address_free in Hs. }
    split; [done|]. split; [by apply bufdup_asize_least|]. split; [done|].
    by rewrite contents_block_bytes.
Qed.

Lemma bufdup_capacity_witness :
  let b := CONST_BUF "hello" in
  let m := Mem {[1%positive := b]} [AllocOk 0; AllocOk 0] 0 0 in
  ∃ q m' b', bufdup (Some 1%positive) 4 m = Done (Some q) m' ∧
    heap m' !! q = Some b' ∧ heap m' !! 1%positive = Some b ∧
    buf_asize b' = bufdup_asize (buf_size b) 4 ∧
    least_multiple_above 4 (buf_size b) (buf_asize b') ∧
    buf_size b' = buf_size b ∧ contents b' = contents b.
Proof.
  intros b m.
  assert (buf_readable b) as Hrd by (split; simpl; unfold SIZE_MAX; lia).
  assert (heap m !! 1%positive = Some b) as Hp by reflexivity.
  assert (0 < buf_size b) as H0 by reflexivity.
  assert (0 < 4) as H1 by reflexivity.
  assert (buf_size b + 4 - 1 <= SIZE_MAX) as H2 by (simpl; unfold SIZE_MAX; lia).
  exact (proj2 (proj2 bufdup_capacity) m 1%positive b 4 0 0 [] Hp Hrd H0 eq_refl H1 H2).
Defined.

(** C10 as stated fails for a unit so large that the rounding wraps around:
    for a source of 5 bytes and [dupunit = 2^64 - 4] the code computes a
    capacity of 0, which is not a multiple covering 5 bytes, and then copies
    5 bytes into the empty block. *)
Lemma bufdup_capacity_wraps :
  let b := CONST_BUF "hello" in
  let m := Mem {[1%positive := b]} [AllocOk 0; AllocOk 0] 0 0 in
  0 < 2 ^ 64 - 4 <= SIZE_MAX ∧ buf_size b = 5 ∧
  bufdup_asize (buf_size b) (2 ^ 64 - 4) = 0 ∧
  ¬ least_multiple_above (2 ^ 64 - 4) (buf_size b) (bufdup_asize (buf_size b) (2 ^ 64 - 4)) ∧
  bufdup (Some 1%positive) (2 ^ 64 - 4) m = Undefined.
Proof.
  intros b m. split; [unfold SIZE_MAX; lia|]. split; [done|]. split; [done|].
  split; [|by vm_compute].
  intros (_ & Hge & _). vm_compute in Hge. by apply Hge.
Qed.

(** ** bufrelease and bufset *)

(** What [bufrelease] does to a live buffer. *)
Lemma bufrelease_spec (m : mem) (d : positive) (b : buf) :
  heap m !! d = Some b →
  bufrelease (Some d) m
  = Done tt
      (if buf_unit b =? 0 then m
       else if wrap_int (buf_ref b - 1) =? 0 then
         Mem (delete d (heap m)) (allocs m) (wrap_long (buffer_stat_nb m + -1))
             (wrap (buffer_stat_alloc_bytes m + - buf_asize b))
       else set_heap (<[d := set_ref (wrap_int (buf_ref b - 1)) b]> (heap m)) m).
Proof.
  intros Hd. unfold bufrelease. rewrite run_bind, (run_deref _ _ _ Hd).
  destruct (buf_unit b =? 0); [done|]. rewrite run_bind. simpl.
  destruct (wrap_int (buf_ref b - 1) =? 0); [|done].
  unfold mbind, M_bind, bind, add_stat_nb, add_stat_alloc_bytes, free_buf. simpl.
  by rewrite delete_insert_eq.
Qed.

(** [bufrelease] of null or of a live buffer returns. *)
Lemma bufrelease_returns (m : mem) (dest : ptr) :
  (∀ d, dest = Some d → is_Some (heap m !! d)) →
  ∃ m', bufrelease dest m = Done tt m'.
Proof.
  intros Hlive. destruct dest as [d|]; [|by exists m].
  destruct (Hlive d eq_refl) as [b Hb]. rewrite (bufrelease_spec m d b Hb). by eexists.
Qed.

Lemma bufdup_asize_unit (size : Z) : 0 <= size <= SIZE_MAX → bufdup_asize size 1 = size.
Proof.
  intros H. unfold SIZE_MAX in H. unfold bufdup_asize.
  replace (wrap (wrap (size + 1) - 1)) with size
    by (unfold wrap; rewrite Zminus_mod_idemp_l, Z.mod_small; lia).
  rewrite Z.div_1_r, Z.mul_1_r. apply wrap_small. lia.
Qed.

(** The duplicate that [bufset] makes of a volatile buffer. *)
Lemma bufdup_volatile (m : mem) (s : positive) (b : buf) (f1 f2 : Z)
    (rest : list alloc_result) :
  heap m !! s = Some b → buf_readable b →
  allocs m = AllocOk f1 :: AllocOk f2 :: rest →
  ∃ q b' m1, bufdup (Some s) 1 m = Done (Some q) m1 ∧
    heap m !! q = None ∧ heap m1 = <[q := b']> (heap m) ∧
    buf_unit b' = 1 ∧ buf_ref b' = 1 ∧ buf_size b' = buf_size b ∧
    buf_size b <= buf_asize b' ∧ contents b' = contents b ∧ buf_wf b' ∧
    is_volatile b' = false.
Proof.
  intros Hs Hrd Hal. pose proof Hrd as [Hsz Hlen].
  exists (fresh (dom (heap m))).
  destruct (Z.eq_dec (buf_size b) 0) as [Hz|Hnz].
  - eexists _, _. split; [by apply (bufdup_empty m s b 1 f1 (AllocOk f2 :: rest))|].
    split; [apply fresh_address_free|]. split; [done|]. simpl.
    do 3 (split; [done|]). split; [lia|]. split.
    + rewrite !contents_block_bytes, Hz. simpl. by rewrite take_0.
    + split; [|done]. split; simpl; unfold SIZE_MAX; lia.
  - destruct (bufdup_ok m s b 1 f1 f2 rest) as (d' & Hrun & Hlen' & Hbytes);
      [done|done|lia|lia|lia|done|].
    rewrite bufdup_asize_unit in * by done.
    eexists _, _. split; [exact Hrun|]. split; [apply fresh_address_free|].
    split; [done|]. simpl. do 3 (split; [done|]). split; [lia|]. split.
    + by rewrite contents_block_bytes.
    + split; [split; simpl; unfold SIZE_MAX in *; lia|].
      unfold is_volatile. simpl. destruct (Z.eqb_spec (buf_size b) 0); [lia|].
      apply andb_false_r.
Qed.

(** [bufrelease] of the value of a slot gives the state [slot_released]. *)
Lemma bufrelease_slot (m : mem) (dest : ptr) :
  (∀ d, dest = Some d → is_Some (heap m !! d)) →
  bufrelease dest m = Done tt (slot_released dest m).
Proof.
  intros Hlive. destruct dest as [d|]; [|done].
  destruct (Hlive d eq_refl) as [bd Hbd].
  rewrite (bufrelease_spec m d bd Hbd). unfold slot_released, released. by rewrite Hbd.
Qed.

(** The buffers of the state [released d bd m]. *)
Lemma released_lookup (m : mem) (d p : positive) (bd : buf) :
  heap m !! d = Some bd →
  heap (released d bd m) !! p = if decide (p = d) then after_release bd else heap m !! p.
Proof.
  intros Hbd. unfold released, after_release.
  destruct (decide (p = d)) as [->|Hne].
  - destruct (buf_unit bd =? 0); [done|].
    destruct (wrap_int (buf_ref bd - 1) =? 0); simpl.
    + apply lookup_delete_eq.
    + apply lookup_insert_eq.
  - destruct (buf_unit bd =? 0); [done|].
    destruct (wrap_int (buf_ref bd - 1) =? 0); simpl.
    + by apply lookup_delete_ne.
    + by apply lookup_insert_ne.
Qed.

(** The buffers of the state [slot_released dest m]. *)
Lemma slot_released_lookup (m : mem) (dest : ptr) (p : positive) :
  heap (slot_released dest m) !! p
  = if decide (dest = Some p) then heap m !! p ≫= after_release else heap m !! p.
Proof.
  destruct dest as [d|]; [|by case_decide].
  unfold slot_released.
  destruct (heap m !! d) as [bd|] eqn:Hbd.
  - rewrite (released_lookup m d p bd Hbd).
    destruct (decide (p = d)) as [->|Hne].
    + case_decide; [|done]. by rewrite Hbd.
    + case_decide as Heq; [by injection Heq as ->|done].
  - case_decide as Heq; [|done]. injection Heq as ->. by rewrite Hbd.
Qed.

(** C6: for a slot holding null or a live buffer and a non-null [src],
    [bufset] first converts [src]. A volatile [src] (data but [asize == 0]) is
    replaced, when the allocations succeed, by a duplicate: a new owned
    buffer with unit 1, one reference, the same size and bytes and
    [asize >= size], [src] itself staying as it was. Any other [src] has its
    [ref] incremented by 1 (in [int] arithmetic). Then the buffer previously
    in the slot is released and the slot holds the (possibly duplicated)
    buffer. The final state is the state after the conversion with the old
    value of the slot released ([slot_released]): in it the buffer now in the
    slot is live (the duplicate as built, [src] with its new [ref]), the
    buffer that was in the slot has one reference less, or is freed when that
    was its last one, or is as it was when it is read-only, and every other
    buffer is as before the call. When the slot already held [src], an owned
    buffer, the state is the one before the call. *)
Theorem bufset_assigns (m : mem) (dest : ptr) (s : positive) (b : buf) :
  heap m !! s = Some b →
  (∀ d, dest = Some d → is_Some (heap m !! d)) →
  (is_volatile b = true → buf_readable b →
   ∀ f1 f2 rest, allocs m = AllocOk f1 :: AllocOk f2 :: rest →
   ∃ q b' m1 m2,
     heap m !! q = None ∧ heap m1 = <[q := b']> (heap m) ∧
     buf_unit b' = 1 ∧ buf_ref b' = 1 ∧ buf_size b' = buf_size b ∧
     buf_size b <= buf_asize b' ∧ contents b' = contents b ∧
     buf_wf b' ∧ is_volatile b' = false ∧
     bufrelease dest m1 = Done tt m2 ∧
     bufset dest (Some s) m = Done (Some q) m2 ∧
     m2 = slot_released dest m1 ∧
     heap m2 !! q = Some b' ∧
     (∀ d bd, dest = Some d → heap m !! d = Some bd →
        heap m2 !! d = after_release bd) ∧
     (∀ p, p ≠ q → dest ≠ Some p → heap m2 !! p = heap m !! p)) ∧
  (is_volatile b = false →
   ∃ b1 m1 m2,
     b1 = set_ref (wrap_int (buf_ref b + 1)) b ∧
     (- 2 ^ 31 <= buf_ref b < 2 ^ 31 - 1 → buf_ref b1 = buf_ref b + 1) ∧
     m1 = set_heap (<[s := b1]> (heap m)) m ∧
     bufrelease dest m1 = Done tt m2 ∧
     bufset dest (Some s) m = Done (Some s) m2 ∧
     m2 = slot_released dest m1 ∧
     (dest ≠ Some s → heap m2 !! s = Some b1) ∧
     (∀ d bd, dest = Some d → d ≠ s → heap m !! d = Some bd →
        heap m2 !! d = after_release bd) ∧
     (dest = Some s → buf_unit b ≠ 0 → 1 <= buf_ref b < 2 ^ 31 - 1 → m2 = m) ∧
     (∀ p, p ≠ s → dest ≠ Some p → heap m2 !! p = heap m !! p)).
Proof.
  intros Hs Hlive. split.
  - intros Hvol Hrd f1 f2 rest Hal.
    destruct (bufdup_volatile m s b f1 f2 rest Hs Hrd Hal)
      as (q & b' & m1 & Hdup & Hq & Hheap & Hu & Hr & Hsz & Hasz & Hc & Hwf & Hown).
    assert (dest ≠ Some q) as Hdq.
    { intros ->. destruct (Hlive q eq_refl) as [bq Hbq]. by rewrite Hq in Hbq. }
    assert (bufrelease dest m1 = Done tt (slot_released dest m1)) as Hrel.
    { apply bufrelease_slot. intros d Hd. destruct (Hlive d Hd) as [bd Hbd].
      rewrite Hheap, lookup_insert_ne by (by intros ->; subst dest). by eexists. }
    exists q, b', m1, (slot_released dest m1). do 9 (split; [done|]).
    split; [done|]. split.
    { unfold bufset. rewrite run_bind, run_bind, (run_deref _ _ _ Hs), Hvol, Hdup.
      by rewrite run_bind, Hrel. }
    split; [done|]. split.
    { rewrite slot_released_lookup. case_decide; [done|].
      by rewrite Hheap, lookup_insert_eq. }
    split.
    + intros d bd -> Hbd. rewrite slot_released_lookup.
      case_decide; [|done].
      rewrite Hheap, lookup_insert_ne by (by intros ->). by rewrite Hbd.
    + intros p Hpq Hpd. rewrite slot_released_lookup.
      case_decide; [done|].
      by rewrite Hheap, lookup_insert_ne.
  - intros Hvol.
    set (b1 := set_ref (wrap_int (buf_ref b + 1)) b).
    set (m1 := set_heap (<[s := b1]> (heap m)) m).
    assert (bufrelease dest m1 = Done tt (slot_released dest m1)) as Hrel.
    { apply bufrelease_slot. intros d Hd. destruct (Hlive d Hd) as [bd Hbd]. simpl.
      destruct (decide (s = d)) as [->|].
      - rewrite lookup_insert_eq. by eexists.
      - rewrite lookup_insert_ne by done. by eexists. }
    exists b1, m1, (slot_released dest m1). split; [reflexivity|]. split.
    { intros H. simpl. apply wrap_int_small. lia. }
    split; [reflexivity|]. split; [done|]. split.
    { unfold bufset. rewrite run_bind, run_bind, (run_deref _ _ _ Hs), Hvol.
      rewrite run_bind. simpl. unfold m1, b1 in Hrel. by rewrite run_bind, Hrel. }
    split; [done|]. split.
    { intros Hds. rewrite slot_released_lookup. case_decide; [done|].
      apply lookup_insert_eq. }
    split.
    { intros d bd -> Hne Hbd. rewrite slot_released_lookup.
      case_decide; [|done]. simpl.
      rewrite lookup_insert_ne by done. by rewrite Hbd. }
    split.
    + intros -> Hu Href. unfold slot_released, m1. simpl. rewrite lookup_insert_eq.
      unfold released, b1. simpl.
      destruct (Z.eqb_spec (buf_unit b) 0); [done|].
      rewrite (wrap_int_small (buf_ref b + 1)) by lia.
      replace (buf_ref b + 1 - 1) with (buf_ref b) by lia.
      rewrite (wrap_int_small (buf_ref b)) by lia.
      destruct (Z.eqb_spec (buf_ref b) 0); [lia|].
      unfold set_heap. simpl. rewrite insert_insert_eq.
      replace (set_ref (buf_ref b) (set_ref (buf_ref b + 1) b)) with b by by destruct b.
      rewrite insert_id by done. by destruct m.
    + intros p Hps Hpd. rewrite slot_released_lookup.
      case_decide; [done|]. simpl. by rewrite lookup_insert_ne.
Qed.

Lemma bufset_assigns_witness :
  let v := VOLATILE_BUF "abc" in
  let old := Buf None 0 0 8 1 in
  let m := Mem {[1%positive := v; 2%positive := old]} [AllocOk 0; AllocOk 0] 1 0 in
  ∃ q b' m1 m2,
    heap m !! q = None ∧ heap m1 = <[q := b']> (heap m) ∧
    buf_unit b' = 1 ∧ buf_ref b' = 1 ∧ buf_size b' = buf_size v ∧
    buf_size v <= buf_asize b' ∧ contents b' = contents v ∧
    buf_wf b' ∧ is_volatile b' = false ∧
    bufrelease (Some 2%positive) m1 = Done tt m2 ∧
    bufset (Some 2%positive) (Some 1%positive) m = Done (Some q) m2 ∧
    m2 = slot_released (Some 2%positive) m1 ∧
    heap m2 !! q = Some b' ∧
    (∀ d bd, Some 2%positive = Some d → heap m !! d = Some bd →
       heap m2 !! d = after_release bd) ∧
    (∀ p, p ≠ q → Some 2%positive ≠ Some p → heap m2 !! p = heap m !! p).
Proof.
  intros v old m.
  assert (heap m !! 1%positive = Some v) as Hs by reflexivity.
  assert (∀ d, Some 2%positive = Some d → is_Some (heap m !! d)) as Hlive.
  { intros d Hd. injection Hd as <-. by eexists. }
  assert (is_volatile v = true) as Hvol by reflexivity.
  assert (buf_readable v) as Hrd by (split; simpl; unfold SIZE_MAX; lia).
  exact (proj1 (bufset_assigns m (Some 2%positive) 1%positive v Hs Hlive)
           Hvol Hrd 0 0 [] eq_refl).
Defined.

(** ** Allocation failure *)






Lemma run_ret {A : Type} (a : A) (m : mem) : (mret a : M A) m = Done a m.
Proof. reflexivity. Qed.





(** ** bufcmps *)

(** On a null or an empty buffer [bufcmps] answers 0 to every C string. *)
Lemma bufcmps_empty_spec (m : mem) (a : ptr) (s : list Z) (len : Z) :
  strlen (Some s) = Some len →
  (a = None ∨ ∃ p b, a = Some p ∧ heap m !! p = Some b ∧ buf_size b = 0) →
  bufcmps a (Some s) m = Done 0 m.
Proof.
  intros Hlen Ha. unfold bufcmps. rewrite run_bind, Hlen, run_defined, run_bind.
  destruct Ha as [->|(p & b & -> & Hp & Hz)]; [done|].
  unfold fmap, M_fmap, bind. rewrite (run_deref _ _ _ Hp). simpl.
  by rewrite Hz.
Qed.

(** C4 (the code at the failing inputs): for an empty or a null buffer
    [bufcmps] answers 0, "equal", to the non-null string ["abc"], where the
    claim wants a negative result; with a null string [strlen] is applied to
    the null pointer before any test, so no result is defined, where the
    claim wants 0. The sibling [bufcmp] does order a null or an empty buffer
    before a buffer holding ["abc"]. *)
Theorem bufcmps_empty_buffer :
  let m := Mem {[1%positive := Buf None 0 0 8 1;
                 2%positive := Buf (Some (bytes_of "abc")) 3 3 8 1]} [] 0 0 in
  bufcmps (Some 1%positive) (Some (cstring "abc")) m = Done 0 m ∧
  bufcmps None (Some (cstring "abc")) m = Done 0 m ∧
  bufcmps (Some 1%positive) None m = Undefined ∧
  bufcmps None None m = Undefined ∧
  bufcmp (Some 1%positive) (Some 2%positive) m = Done (-1) m ∧
  bufcmp None (Some 2%positive) m = Done (-1) m.
Proof.
  intros m. split; [|split; [|split; [|split; [|split]]]]; vm_compute; reflexivity.
Qed.

(** C5 (the code at the failing inputs): [bufcmps] compares over the longer
    of the two lengths, not the shorter. After ["xyzab"] has lost its first 3
    bytes the buffer holds ["ab"], followed in its block by the stale byte
    ['z']; compared with ["abc"] the shared prefix ["ab"] is equal and the
    buffer is the shorter side, yet the result is positive, from the byte at
    index 2 = [size]. When the block ends with the string that read is outside
    the block. The sibling [bufcmp], which compares over the shorter length,
    orders the same buffer before a buffer holding ["abc"]. The scenario
    ["abc"] against ["abd"] is negative, as claimed. *)
Theorem bufcmps_compares_past_size :
  let m0 := Mem ∅ [AllocOk 0; AllocOk 0; AllocOk 0; AllocOk 0] 0 0 in
  let slurped := p ← bufnew 8;
                 bufput p (Some (bytes_of "xyzab")) 5;;
                 bufslurp p 3;;
                 mret p in
  let run := p ← slurped;
             b ← (if p is Some a then deref a else undefined);
             r ← bufcmps p (Some (cstring "abc"));
             mret (contents b, r) in
  let run_sibling := p ← slurped;
                     q ← bufnew 8;
                     bufput q (Some (bytes_of "abc")) 3;;
                     bufcmp p q in
  result (run m0) = Some (bytes_of "ab", 23) ∧
  result (run_sibling m0) = Some (-1) ∧
  (let m := Mem {[1%positive := Buf (Some (bytes_of "ab")) 2 2 8 1]} [] 0 0 in
   bufcmps (Some 1%positive) (Some (cstring "abc")) m = Undefined) ∧
  (let m := Mem {[1%positive := Buf (Some (bytes_of "abc")) 3 3 8 1]} [] 0 0 in
   bufcmps (Some 1%positive) (Some (cstring "abd")) m = Done (-1) m).
Proof.
  intros m0 slurped run run_sibling.
  split; [|split; [|split]]; vm_compute; reflexivity.
Qed.

(** * Further properties *)

(** ** bufgrow *)

(** X1: on an owned, well-formed buffer [bufgrow] returns for every request
    up to [2^63], and it never shrinks: the allocated size does not
    decrease, the size and the contents stay, and the buffer stays
    well-formed. It answers 0 only when the request was above the allocated
    size, and then the buffer is untouched; it answers 1 only with the
    allocated size at or above the request. *)
Theorem bufgrow_never_shrinks (m : mem) (p : positive) (b : buf) (neosz : Z) :
  heap m !! p = Some b → buf_wf b → 0 < buf_unit b → 0 <= neosz <= 2 ^ 63 →
  ∃ ok m' b',
    bufgrow (Some p) neosz m = Done ok m' ∧ heap m' = <[p := b']> (heap m) ∧
    buf_asize b <= buf_asize b' ∧ buf_size b' = buf_size b ∧
    contents b' = contents b ∧ buf_wf b' ∧
    ((ok = 0 ∧ b' = b ∧ buf_asize b < neosz) ∨ (ok = 1 ∧ neosz <= buf_asize b')).
Proof.
  intros Hp Hwf Hu Hsz.
  destruct (bufgrow_cases m p b neosz Hp Hwf Hu Hsz) as (ok & m' & Hrun & Hcases).
  exists ok, m'.
  destruct Hcases as [[-> Hheap]|[-> (b' & Hheap & Hgrown)]].
  - exists b. split; [done|]. split; [by rewrite insert_id|].
    split; [lia|]. do 3 (split; [done|]). left. split; [done|]. split; [done|].
    destruct (Z.lt_ge_cases (buf_asize b) neosz) as [|Hge]; [done|].
    exfalso. unfold bufgrow in Hrun. rewrite run_bind, (run_deref _ _ _ Hp) in Hrun.
    destruct (Z.eqb_spec (buf_unit b) 0); [lia|].
    destruct (Z.leb_spec neosz (buf_asize b)); [|lia]. discriminate.
  - exists b'. split; [done|]. split; [done|].
    pose proof (grown_contents _ _ _ Hwf Hgrown) as Hc.
    destruct Hgrown as (Hwf' & Hroom & Hs & _ & _ & k & Hk).
    split.
    { rewrite (wf_asize _ Hwf), (wf_asize _ Hwf'), !block_len_bytes, Hk, length_app. lia. }
    do 3 (split; [done|]). by right.
Qed.

Lemma bufgrow_never_shrinks_witness :
  let b := Buf (Some (bytes_of "hello" ++ [7; 7; 7])) 5 8 8 1 in
  let m := Mem {[1%positive := b]} [AllocOk 7] 1 8 in
  ∃ ok m' b',
    bufgrow (Some 1%positive) 20 m = Done ok m' ∧ heap m' = <[1%positive := b']> (heap m) ∧
    buf_asize b <= buf_asize b' ∧ buf_size b' = buf_size b ∧
    contents b' = contents b ∧ buf_wf b' ∧
    ((ok = 0 ∧ b' = b ∧ buf_asize b < 20) ∨ (ok = 1 ∧ 20 <= buf_asize b')).
Proof.
  intros b m.
  assert (heap m !! 1%positive = Some b) as Hp by reflexivity.
  assert (buf_wf b) as Hwf by (split; simpl; unfold SIZE_MAX; lia).
  assert (0 < buf_unit b) as Hu by reflexivity.
  assert (0 <= 20 <= 2 ^ 63) as Hn by lia.
  exact (bufgrow_never_shrinks m 1%positive b 20 Hp Hwf Hu Hn).
Defined.

(** Without wrap-around the loop of [bufgrow] stops at the first value
    [a + k * unit] that reaches the request. *)
Lemma grow_loop_first (unit neosz a : Z) (n : nat) (k : Z) :
  0 < unit → 0 <= a → neosz + unit <= 2 ^ 64 →
  1 <= k → a + (k - 1) * unit < neosz →
  (Z.to_nat (neosz - (a + k * unit)) ≤ n)%nat →
  ∃ k', k <= k' ∧
    iterate_nat (S n) (grow_step unit neosz) (a + k * unit) = inr (a + k' * unit) ∧
    neosz <= a + k' * unit < neosz + unit.
Proof.
  intros Hu Ha Hmax. revert k. induction n as [|n IH]; intros k Hk Hprev Hn;
    rewrite iterate_nat_S;
    destruct (Z.lt_ge_cases (a + k * unit) neosz) as [Hlt|Hge];
    try (rewrite grow_step_exit by done; exists k; split; [lia|]; split; [done|lia]).
  - lia.
  - rewrite grow_step_again, wrap_small by nia.
    replace (a + k * unit + unit) with (a + (k + 1) * unit) by lia.
    destruct (IH (k + 1)) as (k' & Hk' & Hrun & Hres); [lia| |nia|].
    + replace (k + 1 - 1) with k by lia. done.
    + exists k'. split; [lia|]. done.
Qed.

Lemma grow_loop_exact (unit neosz a : Z) :
  0 < unit → 0 <= a < neosz → neosz + unit <= 2 ^ 64 →
  ∃ k, 1 <= k ∧ grow_loop unit neosz (wrap (a + unit)) = Some (a + k * unit) ∧
    neosz <= a + k * unit < neosz + unit.
Proof.
  intros Hu Ha Hmax. rewrite wrap_small by lia. unfold grow_loop. rewrite iterate_unary.
  destruct (grow_loop_first unit neosz a (Z.to_nat (neosz - (a + 1 * unit))) 1)
    as (k & Hk & Hrun & Hres); [lia..|].
  replace (a + 1 * unit) with (a + unit) in * by lia.
  rewrite (iterate_nat_more _ _ _ _ _ Hrun).
  - exists k. done.
  - change (2 ^ 64)%positive with (Z.to_pos (2 ^ 64)). rewrite <- Z2Nat.inj_pos. lia.
Qed.

(** X2: when [bufgrow] has to grow (the request is above the allocated size,
    the allocator agrees and nothing wraps), the new allocated size is the
    old one plus a whole number [k >= 1] of units, the first such value at or
    above the request (so less than one unit above it); a multiple of the
    unit stays one; the contents stay and [buffer_stat_alloc_bytes] grows by
    those [k] units. *)
Theorem bufgrow_adds_units (m : mem) (p : positive) (b : buf) (neosz fill : Z)
    (rest : list alloc_result) :
  heap m !! p = Some b → buf_wf b → 0 < buf_unit b →
  buf_asize b < neosz → neosz + buf_unit b <= 2 ^ 64 →
  allocs m = AllocOk fill :: rest →
  ∃ k m' b',
    bufgrow (Some p) neosz m = Done 1 m' ∧ heap m' = <[p := b']> (heap m) ∧
    1 <= k ∧ buf_asize b' = buf_asize b + k * buf_unit b ∧
    neosz <= buf_asize b' < neosz + buf_unit b ∧
    (buf_asize b mod buf_unit b = 0 → buf_asize b' mod buf_unit b = 0) ∧
    buf_size b' = buf_size b ∧ contents b' = contents b ∧ buf_wf b' ∧
    buffer_stat_alloc_bytes m' = wrap (buffer_stat_alloc_bytes m + k * buf_unit b).
Proof.
  intros Hp Hwf Hu Hlt Hmax Hal. pose proof Hwf as [Hsize Hasize Hamax Hunit].
  unfold SIZE_MAX in *.
  destruct (grow_loop_exact (buf_unit b) neosz (buf_asize b)) as (k & Hk & Hloop & Hres);
    [lia..|].
  unfold bufgrow. rewrite run_bind, (run_deref _ _ _ Hp).
  destruct (Z.eqb_spec (buf_unit b) 0); [lia|].
  destruct (Z.leb_spec neosz (buf_asize b)); [lia|].
  rewrite Hloop, run_bind. unfold realloc.
  rewrite run_bind, (run_next_alloc_ok _ _ _ Hal).
  exists k. eexists _, _. split; [reflexivity|].
  assert (length (block_bytes (buf_data b)) = Z.to_nat (buf_asize b)) as Hlen.
  { rewrite Hasize, block_len_bytes. lia. }
  fold (block_bytes (buf_data b)). rewrite take_ge by lia.
  split; [done|]. split; [done|]. split; [done|]. split; [simpl; lia|].
  split; [intros Hmod; simpl; by rewrite Z_mod_plus_full|].
  split; [done|]. split.
  { rewrite !contents_block_bytes. simpl. apply take_app_le. lia. }
  split.
  { split; simpl; unfold SIZE_MAX; try lia.
    rewrite length_app, length_replicate. lia. }
  simpl. f_equal. lia.
Qed.

Lemma bufgrow_adds_units_witness :
  let b := Buf (Some (bytes_of "hello" ++ [7; 7; 7])) 5 8 8 1 in
  let m := Mem {[1%positive := b]} [AllocOk 7] 1 8 in
  ∃ k m' b',
    bufgrow (Some 1%positive) 20 m = Done 1 m' ∧ heap m' = <[1%positive := b']> (heap m) ∧
    1 <= k ∧ buf_asize b' = buf_asize b + k * buf_unit b ∧
    20 <= buf_asize b' < 20 + buf_unit b ∧
    (buf_asize b mod buf_unit b = 0 → buf_asize b' mod buf_unit b = 0) ∧
    buf_size b' = buf_size b ∧ contents b' = contents b ∧ buf_wf b' ∧
    buffer_stat_alloc_bytes m' = wrap (buffer_stat_alloc_bytes m + k * buf_unit b).
Proof.
  intros b m.
  assert (heap m !! 1%positive = Some b) as Hp by reflexivity.
  assert (buf_wf b) as Hwf by (split; simpl; unfold SIZE_MAX; lia).
  assert (0 < buf_unit b) as Hu by reflexivity.
  assert (buf_asize b < 20) as Hlt by reflexivity.
  assert (20 + buf_unit b <= 2 ^ 64) as Hmax by (simpl; lia).
  assert (allocs m = AllocOk 7 :: []) as Ha by reflexivity.
  exact (bufgrow_adds_units m 1%positive b 20 7 [] Hp Hwf Hu Hlt Hmax Ha).
Defined.

(** [bufgrow] succeeds when there is room already or the allocator agrees. *)
Lemma bufgrow_succeeds (m : mem) (p : positive) (b : buf) (neosz : Z) :
  heap m !! p = Some b → buf_wf b → 0 < buf_unit b → 0 <= neosz <= 2 ^ 63 →
  (neosz <= buf_asize b ∨ ∃ fill rest, allocs m = AllocOk fill :: rest) →
  ∃ m' b', bufgrow (Some p) neosz m = Done 1 m' ∧
    heap m' = <[p := b']> (heap m) ∧ grown neosz b b' ∧
    (allocs m' = allocs m ∨ allocs m' = tail (allocs m)).
Proof.
  intros Hp Hwf Hu Hsz Hcan.
  destruct (Z.le_gt_cases neosz (buf_asize b)) as [Hroom|Hgrow].
  - exists m, b. split.
    { unfold bufgrow. rewrite run_bind, (run_deref _ _ _ Hp).
      destruct (Z.eqb_spec (buf_unit b) 0); [lia|].
      by destruct (Z.leb_spec neosz (buf_asize b)); [|lia]. }
    split; [by rewrite insert_id|]. split; [|by left].
    split; [done|]. split; [done|]. do 3 (split; [done|]).
    exists []. by rewrite app_nil_r.
  - destruct Hcan as [|(fill & rest & Hal)]; [lia|].
    destruct (bufgrow_cases m p b neosz Hp Hwf Hu Hsz) as (ok & m' & Hrun & Hcases).
    pose proof Hwf as [Hsize Hasize Hmax Hunit]. unfold SIZE_MAX in *.
    unfold bufgrow in Hrun. rewrite run_bind, (run_deref _ _ _ Hp) in Hrun.
    destruct (Z.eqb_spec (buf_unit b) 0); [lia|].
    destruct (Z.leb_spec neosz (buf_asize b)); [lia|].
    destruct (grow_loop_ends (buf_unit b) neosz (wrap (buf_asize b + buf_unit b)))
      as (neoasz & Hloop & Hneo); [lia | lia | apply wrap_range |].
    rewrite Hloop, run_bind in Hrun. unfold realloc in Hrun.
    rewrite run_bind, (run_next_alloc_ok _ _ _ Hal) in Hrun.
    injection Hrun as <- <-.
    destruct Hcases as [[? _]|[_ (b' & Hheap & Hgrown)]]; [done|].
    unfold bufgrow. rewrite run_bind, (run_deref _ _ _ Hp).
    destruct (Z.eqb_spec (buf_unit b) 0); [lia|].
    destruct (Z.leb_spec neosz (buf_asize b)); [lia|].
    rewrite Hloop, run_bind. unfold realloc.
    rewrite run_bind, (run_next_alloc_ok _ _ _ Hal).
    eexists _, b'. split; [reflexivity|]. split; [exact Hheap|]. split; [done|].
    right. simpl. by rewrite Hal.
Qed.

(** [bufput] once the growth has succeeded: the bytes are appended. *)
Lemma bufput_succeeds (m : mem) (p : positive) (b : buf) (d : list Z) (len : Z) :
  heap m !! p = Some b → buf_wf b → 0 < buf_unit b →
  0 <= len <= Z.of_nat (length d) → buf_size b + len <= 2 ^ 63 →
  (buf_size b + len <= buf_asize b ∨ ∃ fill rest, allocs m = AllocOk fill :: rest) →
  ∃ m' b', bufput (Some p) (Some d) len m = Done tt m' ∧
    heap m' = <[p := b']> (heap m) ∧
    buf_size b' = buf_size b + len ∧
    contents b' = contents b ++ take (Z.to_nat len) d ∧
    buf_unit b' = buf_unit b ∧ buf_ref b' = buf_ref b ∧ buf_wf b' ∧
    (allocs m' = allocs m ∨ allocs m' = tail (allocs m)).
Proof.
  intros Hp Hwf Hunit Hlen Hmax Hcan.
  pose proof (wf_size _ Hwf) as Hsize.
  destruct (bufgrow_succeeds m p b (buf_size b + len) Hp Hwf Hunit ltac:(lia) Hcan)
    as (m1 & b1 & Hgrow & Hheap & Hgrown & Hal).
  unfold bufput.
  rewrite run_bind, (run_deref _ _ _ Hp), run_bind, wrap_small, Hgrow by lia.
  change (1 =? 0) with false. cbv iota.
  pose proof (grown_contents _ _ _ Hwf Hgrown) as Hcont.
  destruct Hgrown as (Hwf1 & Hroom & Hs1 & Hu1 & Hr1 & _).
  assert (heap m1 !! p = Some b1) as Hp1 by (by rewrite Hheap, lookup_insert_eq).
  rewrite run_bind, (run_deref _ _ _ Hp1), run_bind, read_bytes_prefix by done.
  rewrite run_defined, run_bind.
  destruct (blit_tail b1 (take (Z.to_nat len) d) Hwf1) as (d' & -> & Hlen' & Htake).
  { rewrite length_take. lia. }
  rewrite run_defined. eexists _, _. split; [reflexivity|]. split.
  { simpl. rewrite Hheap. by rewrite insert_insert_eq. }
  simpl. rewrite Hs1, Hu1, Hr1, wrap_small by lia. split; [done|].
  split.
  { rewrite contents_block_bytes. simpl. rewrite length_take in Htake.
    rewrite <- Hcont, <- Htake. f_equal. lia. }
  do 2 (split; [done|]). split; [|done].
  destruct Hwf1. split; simpl; unfold SIZE_MAX in *; try lia.
Qed.

(** ** bufnew *)

(** X3: when the allocator agrees, [bufnew (unit)] returns a buffer at an
    address no live buffer has: empty, without data, of the given unit and
    with one reference. Every buffer that was live is unchanged,
    [buffer_stat_nb] is one more and [buffer_stat_alloc_bytes] is the
    same. *)
Theorem bufnew_fresh (m : mem) (unit fill : Z) (rest : list alloc_result) :
  allocs m = AllocOk fill :: rest → 0 <= unit <= SIZE_MAX →
  ∃ q m', bufnew unit m = Done (Some q) m' ∧
    heap m !! q = None ∧ heap m' = <[q := Buf None 0 0 unit 1]> (heap m) ∧
    (∀ p b, heap m !! p = Some b → heap m' !! p = Some b) ∧
    buf_wf (Buf None 0 0 unit 1) ∧ contents (Buf None 0 0 unit 1) = [] ∧
    buffer_stat_nb m' = wrap_long (buffer_stat_nb m + 1) ∧
    buffer_stat_alloc_bytes m' = buffer_stat_alloc_bytes m.
Proof.
  intros Hal Hu. exists (fresh (dom (heap m))). eexists. split.
  { unfold bufnew. rewrite run_bind, (run_malloc_buf_ok _ _ _ Hal). reflexivity. }
  split; [apply fresh_address_free|]. split; [done|]. split.
  { intros p b Hp. simpl. rewrite lookup_insert_ne; [done|].
    intros <-. by rewrite fresh_address_free in Hp. }
  split; [split; simpl; unfold SIZE_MAX in *; lia|]. done.
Qed.

Lemma bufnew_fresh_witness :
  let old := Buf (Some (bytes_of "hello" ++ [7; 7; 7])) 5 8 8 1 in
  let m := Mem {[1%positive := old]} [AllocOk 0] 1 8 in
  ∃ q m', bufnew 16 m = Done (Some q) m' ∧
    heap m !! q = None ∧ heap m' = <[q := Buf None 0 0 16 1]> (heap m) ∧
    (∀ p b, heap m !! p = Some b → heap m' !! p = Some b) ∧
    buf_wf (Buf None 0 0 16 1) ∧ contents (Buf None 0 0 16 1) = [] ∧
    buffer_stat_nb m' = wrap_long (buffer_stat_nb m + 1) ∧
    buffer_stat_alloc_bytes m' = buffer_stat_alloc_bytes m.
Proof.
  intros old m.
  assert (allocs m = AllocOk 0 :: []) as Ha by reflexivity.
  assert (0 <= 16 <= SIZE_MAX) as Hu by (unfold SIZE_MAX; lia).
  exact (bufnew_fresh m 16 0 [] Ha Hu).
Defined.

(** ** bufreset *)

Lemma bufreset_spec (m : mem) (p : positive) (b : buf) :
  heap m !! p = Some b → buf_wf b → 0 < buf_unit b →
  ∃ m' b', bufreset (Some p) m = Done tt m' ∧ heap m' = <[p := b']> (heap m) ∧
    buf_size b' = 0 ∧ buf_asize b' = 0 ∧ contents b' = [] ∧
    buf_unit b' = buf_unit b ∧ buf_ref b' = buf_ref b ∧ buf_wf b' ∧
    allocs m' = allocs m ∧ buffer_stat_nb m' = buffer_stat_nb m ∧
    buffer_stat_alloc_bytes m'
    = (if buf_asize b =? 0 then buffer_stat_alloc_bytes m
       else wrap (buffer_stat_alloc_bytes m - buf_asize b)).
Proof.
  intros Hp Hwf Hu. pose proof Hwf as [Hsize Hasize Hmax Hunit].
  unfold bufreset. rewrite run_bind, (run_deref _ _ _ Hp).
  destruct (Z.eqb_spec (buf_unit b) 0); [lia|]. simpl orb.
  destruct (Z.eqb_spec (buf_asize b) 0) as [Hz|Hnz].
  - exists m, b. split; [done|]. split; [by rewrite insert_id|].
    split; [lia|]. split; [done|]. split; [|done].
    rewrite contents_block_bytes. replace (buf_size b) with 0 by lia. apply take_0.
  - eexists _, _. split; [reflexivity|]. simpl. split; [done|].
    do 5 (split; [done|]). split; [|done].
    split; simpl; unfold SIZE_MAX in *; lia.
Qed.

(** ** bufnullterm *)

Lemma strlen_from_prefix (l rest : list Z) (i : Z) :
  0 ∉ l → strlen_from (l ++ 0 :: rest) i = Some (i + Z.of_nat (length l)).
Proof.
  revert i. induction l as [|c l IH]; intros i Hl; simpl.
  - f_equal. lia.
  - destruct (Z.eqb_spec c 0) as [->|]; [set_solver|].
    rewrite IH by set_solver. f_equal. lia.
Qed.

Lemma load_inside (l : list Z) (i : Z) :
  0 <= i < Z.of_nat (length l) → load (Some l) i = l !! Z.to_nat i.
Proof.
  intros H. unfold load. destruct (Z.leb_spec 0 i); [|lia].
  by destruct (Z.ltb_spec i (Z.of_nat (length l))); [|lia].
Qed.

(** A buffer whose string is followed by a NUL inside its block. *)
Lemma terminated_block (b : buf) :
  buf_wf b → buf_size b < buf_asize b →
  load (buf_data b) (buf_size b) = Some 0 →
  ∃ rest, block_bytes (buf_data b) = contents b ++ 0 :: rest.
Proof.
  intros [Hsize Hasize _ _] Hlt Hload.
  destruct (buf_data b) as [l|] eqn:Hd; [|done]. simpl in Hasize.
  rewrite load_inside in Hload by lia.
  exists (drop (S (Z.to_nat (buf_size b))) l).
  unfold contents. rewrite Hd. simpl.
  rewrite <- (take_drop (Z.to_nat (buf_size b)) l) at 1. f_equal.
  by apply drop_S.
Qed.

(** [bufnullterm] finds the terminator in place and leaves the store alone. *)
Lemma bufnullterm_noop (m : mem) (p : positive) (b : buf) :
  heap m !! p = Some b → buf_size b < buf_asize b →
  load (buf_data b) (buf_size b) = Some 0 →
  bufnullterm (Some p) m = Done tt m.
Proof.
  intros Hp Hlt Hload. unfold bufnullterm. rewrite run_bind, (run_deref _ _ _ Hp).
  destruct (buf_unit b =? 0); [done|].
  rewrite run_bind. unfold nullterm_present.
  destruct (Z.ltb_spec (buf_size b) (buf_asize b)); [|lia].
  by rewrite run_bind, Hload, run_defined.
Qed.

(** X5: [bufnullterm] on an owned buffer (with room behind the string, or
    the allocator agreeing) keeps the size and the contents and leaves a NUL
    at [data[size]], inside the allocated block; when the contents hold no
    NUL the data is then a C string of length [size]. A second call changes
    nothing. *)
Theorem bufnullterm_terminates (m : mem) (p : positive) (b : buf) :
  heap m !! p = Some b → buf_wf b → 0 < buf_unit b → buf_size b + 1 <= 2 ^ 63 →
  (buf_size b < buf_asize b ∨ ∃ fill rest, allocs m = AllocOk fill :: rest) →
  ∃ m' b', bufnullterm (Some p) m = Done tt m' ∧ heap m' = <[p := b']> (heap m) ∧
    buf_size b' = buf_size b ∧ contents b' = contents b ∧
    buf_size b' < buf_asize b' ∧ load (buf_data b') (buf_size b') = Some 0 ∧
    buf_wf b' ∧ buf_unit b' = buf_unit b ∧
    (0 ∉ contents b → strlen (buf_data b') = Some (buf_size b)) ∧
    bufnullterm (Some p) m' = Done tt m'.
Proof.
  intros Hp Hwf Hu Hmax Hcan. pose proof Hwf as [Hsize Hasize Hamax Hunit].
  assert (∀ m' b', heap m' !! p = Some b' → buf_wf b' → buf_unit b' = buf_unit b →
            buf_size b' < buf_asize b' → load (buf_data b') (buf_size b') = Some 0 →
            bufnullterm (Some p) m' = Done tt m') as Hidem.
  { intros m' b' Hp' Hwf' Hu' Hlt Hload. unfold bufnullterm.
    rewrite run_bind, (run_deref _ _ _ Hp'), Hu'.
    destruct (Z.eqb_spec (buf_unit b) 0); [lia|].
    rewrite run_bind. unfold nullterm_present.
    destruct (Z.ltb_spec (buf_size b') (buf_asize b')); [|lia].
    by rewrite run_bind, Hload, run_defined. }
  assert (∀ b', buf_wf b' → buf_size b' = buf_size b → contents b' = contents b →
            buf_size b' < buf_asize b' → load (buf_data b') (buf_size b') = Some 0 →
            0 ∉ contents b → strlen (buf_data b') = Some (buf_size b)) as Hstr.
  { intros b' Hwf' Hs' Hc' Hlt Hload Hnz.
    destruct (terminated_block b' Hwf' Hlt Hload) as [rest Hblock].
    destruct (buf_data b') as [l|] eqn:Hd; [|done].
    simpl in Hblock. unfold strlen. rewrite Hblock, Hc', strlen_from_prefix by done.
    rewrite contents_block_bytes, length_take.
    rewrite block_len_bytes in Hasize. f_equal. lia. }
  assert (nullterm_present b m = Done false m →
          (buf_size b + 1 <= buf_asize b ∨ ∃ fill rest, allocs m = AllocOk fill :: rest) →
          ∃ m' b', bufnullterm (Some p) m = Done tt m' ∧ heap m' = <[p := b']> (heap m) ∧
            buf_size b' = buf_size b ∧ contents b' = contents b ∧
            buf_size b' < buf_asize b' ∧ load (buf_data b') (buf_size b') = Some 0 ∧
            buf_wf b' ∧ buf_unit b' = buf_unit b) as Hwrite.
  { intros Hpresent Hcan'.
    destruct (bufgrow_succeeds m p b (buf_size b + 1) Hp Hwf Hu ltac:(lia) Hcan')
      as (m1 & b1 & Hgrow & Hheap & Hgrown & _).
    pose proof (grown_contents _ _ _ Hwf Hgrown) as Hcont.
    destruct Hgrown as (Hwf1 & Hroom & Hs1 & Hu1 & Hr1 & _).
    assert (heap m1 !! p = Some b1) as Hp1 by (by rewrite Hheap, lookup_insert_eq).
    destruct (blit_tail b1 [0] Hwf1) as (d' & Hblit & Hlen' & Htake); [simpl; lia|].
    unfold bufnullterm. rewrite run_bind, (run_deref _ _ _ Hp).
    destruct (Z.eqb_spec (buf_unit b) 0); [lia|].
    rewrite run_bind, Hpresent. cbv iota.
    rewrite run_bind, wrap_small, Hgrow by lia.
    change (1 =? 0) with false. cbv iota.
    rewrite run_bind, (run_deref _ _ _ Hp1), run_bind, Hblit, run_defined.
    eexists _, (set_data d' b1). split; [reflexivity|]. split.
    { simpl. by rewrite Hheap, insert_insert_eq. }
    assert (length (contents b1) = Z.to_nat (buf_size b1)) as Hcl.
    { rewrite contents_block_bytes, length_take.
      pose proof (wf_size _ Hwf1). pose proof (wf_asize _ Hwf1) as Ha1.
      rewrite block_len_bytes in Ha1. lia. }
    simpl in Htake.
    assert (block_bytes d' !! Z.to_nat (buf_size b1) = Some 0) as Hz.
    { rewrite <- (lookup_take_lt _ (Z.to_nat (buf_size b1) + 1)) by lia.
      rewrite Htake, lookup_app_r by lia. by rewrite Hcl, Nat.sub_diag. }
    pose proof (wf_asize _ Hwf1) as Ha1. pose proof (wf_asize_max _ Hwf1).
    pose proof (wf_unit _ Hwf1). pose proof (wf_size _ Hwf1).
    simpl. split; [done|]. split.
    { rewrite <- Hcont. rewrite (contents_block_bytes (set_data d' b1)). simpl.
      rewrite <- (take_app_length' (contents b1) [0] (Z.to_nat (buf_size b1))) by done.
      rewrite <- Htake, take_take. f_equal. lia. }
    split; [lia|]. split.
    { destruct d' as [l'|]; [|done].
      rewrite load_inside; [exact Hz|].
      change (block_len (Some l')) with (Z.of_nat (length l')) in Hlen'. lia. }
    split; [split; simpl; lia|]. done. }
  assert (∀ m' b', bufnullterm (Some p) m = Done tt m' ∧ heap m' = <[p := b']> (heap m) ∧
            buf_size b' = buf_size b ∧ contents b' = contents b ∧
            buf_size b' < buf_asize b' ∧ load (buf_data b') (buf_size b') = Some 0 ∧
            buf_wf b' ∧ buf_unit b' = buf_unit b →
          ∃ m' b', bufnullterm (Some p) m = Done tt m' ∧ heap m' = <[p := b']> (heap m) ∧
            buf_size b' = buf_size b ∧ contents b' = contents b ∧
            buf_size b' < buf_asize b' ∧ load (buf_data b') (buf_size b') = Some 0 ∧
            buf_wf b' ∧ buf_unit b' = buf_unit b ∧
            (0 ∉ contents b → strlen (buf_data b') = Some (buf_size b)) ∧
            bufnullterm (Some p) m' = Done tt m') as Hfinish.
  { intros m' b' (Hrun & Hheap & Hs & Hc & Hlt & Hload & Hwf' & Hu').
    exists m', b'. do 8 (split; [done|]). split; [by apply Hstr|].
    apply (Hidem m' b'); try done. by rewrite Hheap, lookup_insert_eq. }
  destruct (Z.lt_ge_cases (buf_size b) (buf_asize b)) as [Hlt|Hge].
  - destruct (buf_data b) as [l|] eqn:Hd; simpl in Hasize; [|lia].
    destruct (lookup_lt_is_Some_2 l (Z.to_nat (buf_size b))) as [c Hc]; [lia|].
    assert (load (buf_data b) (buf_size b) = Some c) as Hload
      by (rewrite Hd, load_inside by lia; done).
    destruct (Z.eq_dec c 0) as [->|Hc0].
    + apply (Hfinish m b). split; [by apply (Hidem m b)|]. split; [by rewrite insert_id|].
      done.
    + destruct Hwrite as (m' & b' & H); [|left; lia|by apply (Hfinish m' b')].
      unfold nullterm_present. destruct (Z.ltb_spec (buf_size b) (buf_asize b)); [|lia].
      rewrite run_bind, Hd, <- Hd, Hload, run_defined.
      rewrite (char_val_eqb c 0) by lia.
      by destruct (Z.eqb_spec c 0).
  - destruct Hwrite as (m' & b' & H); [| |by apply (Hfinish m' b')].
    + unfold nullterm_present. by destruct (Z.ltb_spec (buf_size b) (buf_asize b)); [lia|].
    + destruct Hcan as [|Hal]; [lia|by right].
Qed.

Lemma bufnullterm_terminates_witness :
  let b := Buf (Some (bytes_of "hello")) 5 5 8 1 in
  let m := Mem {[1%positive := b]} [AllocOk 7] 1 5 in
  ∃ m' b', bufnullterm (Some 1%positive) m = Done tt m' ∧
    heap m' = <[1%positive := b']> (heap m) ∧
    buf_size b' = buf_size b ∧ contents b' = contents b ∧
    buf_size b' < buf_asize b' ∧ load (buf_data b') (buf_size b') = Some 0 ∧
    buf_wf b' ∧ buf_unit b' = buf_unit b ∧
    (0 ∉ contents b → strlen (buf_data b') = Some (buf_size b)) ∧
    bufnullterm (Some 1%positive) m' = Done tt m'.
Proof.
  intros b m.
  assert (heap m !! 1%positive = Some b) as Hp by reflexivity.
  assert (buf_wf b) as Hwf by (split; simpl; unfold SIZE_MAX; lia).
  assert (0 < buf_unit b) as Hu by reflexivity.
  assert (buf_size b + 1 <= 2 ^ 63) as Hmax by (simpl; lia).
  assert (buf_size b < buf_asize b ∨ ∃ fill rest, allocs m = AllocOk fill :: rest) as Hcan
    by (right; exists 7, []; reflexivity).
  exact (bufnullterm_terminates m 1%positive b Hp Hwf Hu Hmax Hcan).
Defined.

(** ** bufcmp and bufcasecmp *)

Lemma load_contents (b : buf) (i : Z) :
  buf_readable b → 0 <= i < buf_size b →
  ∃ x, load (buf_data b) i = Some x ∧ contents b !! Z.to_nat i = Some x ∧
    drop (Z.to_nat i) (contents b) = x :: drop (Z.to_nat (i + 1)) (contents b).
Proof.
  intros Hrd Hi. pose proof Hrd as [Hs Hlen].
  destruct (buf_data b) as [l|] eqn:Hd; simpl in Hlen; [|lia].
  destruct (contents_from b l i Hd Hrd Hi) as (x & Hx & Hdrop).
  exists x. split; [by rewrite load_inside by lia|]. split; [|done].
  unfold contents. rewrite Hd. by rewrite lookup_take_lt by lia.
Qed.

Lemma cmp_loop_spec (f : Z → Z) (a b : buf) (cmplen : Z) (n : nat) (i : Z) :
  buf_readable a → buf_readable b →
  cmplen <= buf_size a → cmplen <= buf_size b →
  0 <= i <= cmplen → n = Z.to_nat (cmplen - i) →
  ∃ j, cmp_loop f n a b cmplen i = Some j ∧ i <= j <= cmplen ∧
    lex_cmp f (drop (Z.to_nat i) (contents a)) (drop (Z.to_nat i) (contents b))
    = lex_cmp f (drop (Z.to_nat j) (contents a)) (drop (Z.to_nat j) (contents b)) ∧
    (j < cmplen → ∃ x y, load (buf_data a) j = Some x ∧ load (buf_data b) j = Some y ∧
       f (char_val x) ≠ f (char_val y)).
Proof.
  intros Ha Hb Hca Hcb. revert i. induction n as [|n IH]; intros i Hi Hn.
  - exists i. split; [done|]. split; [lia|]. split; [done|]. lia.
  - simpl. destruct (Z.ltb_spec i cmplen); [|lia].
    destruct (load_contents a i Ha ltac:(lia)) as (x & Hx & _ & Hdx).
    destruct (load_contents b i Hb ltac:(lia)) as (y & Hy & _ & Hdy).
    rewrite Hx, Hy. simpl.
    destruct (Z.eqb_spec (f (char_val x)) (f (char_val y))) as [Heq|Hne].
    + destruct Ha as [Hsa _]. unfold SIZE_MAX in Hsa.
      rewrite wrap_small by lia.
      destruct (IH (i + 1)) as (j & Hrun & Hj & Hlex & Hdiff); [lia|lia|].
      exists j. split; [done|]. split; [lia|]. split; [|done].
      rewrite Hdx, Hdy. simpl. rewrite <- Hlex.
      by destruct (Z.eqb_spec (f (char_val x)) (f (char_val y))).
    + exists i. split; [done|]. split; [lia|]. split; [done|].
      intros _. by exists x, y.
Qed.

Lemma lex_cmp_refl (f : Z → Z) (l : list Z) : lex_cmp f l l = 0.
Proof.
  induction l as [|x l IH]; simpl; [done|].
  by destruct (Z.eqb_spec (f (char_val x)) (f (char_val x))).
Qed.

(** Both comparisons order two live buffers by [lex_cmp] on their
    contents. *)
Lemma cmp_with_spec (f : Z → Z) (m : mem) (pa pb : positive) (a b : buf) :
  heap m !! pa = Some a → heap m !! pb = Some b →
  buf_readable a → buf_readable b →
  cmp_with f (Some pa) (Some pb) m = Done (lex_cmp f (contents a) (contents b)) m.
Proof.
  intros Hpa Hpb Ha Hb. unfold cmp_with. case_bool_decide as Heq.
  - injection Heq as ->. rewrite Hpa in Hpb. injection Hpb as ->.
    by rewrite lex_cmp_refl.
  - rewrite run_bind, (run_deref _ _ _ Hpa), run_bind, (run_deref _ _ _ Hpb).
    set (cmplen := if buf_size a <? buf_size b then buf_size a else buf_size b).
    assert (cmplen <= buf_size a ∧ cmplen <= buf_size b ∧
            (cmplen = buf_size a ∨ cmplen = buf_size b)) as (Hca & Hcb & Hmin).
    { subst cmplen. destruct (Z.ltb_spec (buf_size a) (buf_size b)); lia. }
    pose proof Ha as [Hsa _]. pose proof Hb as [Hsb _].
    destruct (cmp_loop_spec f a b cmplen (Z.to_nat cmplen) 0 Ha Hb Hca Hcb)
      as (j & Hrun & Hj & Hlex & Hdiff); [subst cmplen; destruct (buf_size a <? buf_size b); lia|lia|].
    rewrite run_bind, Hrun, run_defined. rewrite !drop_0 in Hlex. rewrite Hlex.
    destruct (Z.ltb_spec j (buf_size a)) as [Hja|Hja];
      destruct (Z.ltb_spec j (buf_size b)) as [Hjb|Hjb].
    + destruct Hdiff as (x & y & Hx & Hy & Hne); [lia|].
      destruct (load_contents a j Ha ltac:(lia)) as (x' & Hx' & _ & ->).
      destruct (load_contents b j Hb ltac:(lia)) as (y' & Hy' & _ & ->).
      rewrite Hx in Hx'. rewrite Hy in Hy'. injection Hx' as <-. injection Hy' as <-.
      rewrite run_bind, Hx, run_defined, run_bind, Hy, run_defined. simpl.
      by destruct (Z.eqb_spec (f (char_val x)) (f (char_val y))).
    + destruct (load_contents a j Ha ltac:(lia)) as (x' & _ & _ & ->).
      rewrite (drop_ge (contents b)) by (rewrite contents_length by done; lia). done.
    + destruct (load_contents b j Hb ltac:(lia)) as (y' & _ & _ & ->).
      rewrite (drop_ge (contents a)) by (rewrite contents_length by done; lia). done.
    + rewrite (drop_ge (contents a)) by (rewrite contents_length by done; lia).
      rewrite (drop_ge (contents b)) by (rewrite contents_length by done; lia). done.
Qed.

Lemma lex_cmp_antisym (f : Z → Z) (la lb : list Z) :
  lex_cmp f lb la = - lex_cmp f la lb.
Proof.
  revert lb. induction la as [|x la IH]; intros [|y lb]; simpl; try done.
  destruct (Z.eqb_spec (f (char_val y)) (f (char_val x))) as [Heq|Hne];
    destruct (Z.eqb_spec (f (char_val x)) (f (char_val y))); try lia.
  apply IH.
Qed.

Lemma lex_cmp_zero (f : Z → Z) (la lb : list Z) :
  lex_cmp f la lb = 0 ↔ map (λ c, f (char_val c)) la = map (λ c, f (char_val c)) lb.
Proof.
  revert lb. induction la as [|x la IH]; intros [|y lb]; simpl; try done.
  destruct (Z.eqb_spec (f (char_val x)) (f (char_val y))) as [Heq|Hne].
  - rewrite IH. split; [intros ->; by rewrite Heq|]. by intros [= _ ?].
  - split; [lia|]. by intros [= ? _].
Qed.

Lemma char_val_inj (x y : Z) : is_byte x → is_byte y → char_val x = char_val y → x = y.
Proof.
  unfold is_byte, char_val. intros Hx Hy.
  destruct (Z.leb_spec 128 x), (Z.ltb_spec x 256), (Z.leb_spec 128 y), (Z.ltb_spec y 256);
    simpl; lia.
Qed.

Lemma map_char_val_inj (la lb : list Z) :
  Forall is_byte la → Forall is_byte lb →
  map (λ c, id (char_val c)) la = map (λ c, id (char_val c)) lb → la = lb.
Proof.
  intros Ha. revert lb. induction Ha as [|x la Hx Ha IH]; intros [|y lb] Hb; simpl; try done.
  intros [= Hxy Hrest]. inversion Hb; subst. f_equal; [by apply char_val_inj|by apply IH].
Qed.

(** X6: on two distinct live buffers [bufcmp] returns the lexicographic
    comparison of the contents, [lex_cmp]: the difference of the first two
    bytes that differ, and else -1, 1 or 0 as the first buffer is the
    shorter, the longer or of the same size; [bufcasecmp] returns the same
    on the bytes mapped by [lower]. Neither changes the store. *)
Theorem bufcmp_order (m : mem) (pa pb : positive) (a b : buf) :
  heap m !! pa = Some a → heap m !! pb = Some b →
  buf_readable a → buf_readable b →
  bufcmp (Some pa) (Some pb) m = Done (lex_cmp id (contents a) (contents b)) m ∧
  bufcasecmp (Some pa) (Some pb) m = Done (lex_cmp lower (contents a) (contents b)) m.
Proof. intros. split; by apply cmp_with_spec. Qed.

Lemma bufcmp_order_witness :
  let a := CONST_BUF "abc" in
  let b := VOLATILE_BUF "abd" in
  let m := Mem {[1%positive := a; 2%positive := b]} [] 0 0 in
  bufcmp (Some 1%positive) (Some 2%positive) m
  = Done (lex_cmp id (contents a) (contents b)) m ∧
  bufcasecmp (Some 1%positive) (Some 2%positive) m
  = Done (lex_cmp lower (contents a) (contents b)) m.
Proof.
  intros a b m.
  assert (heap m !! 1%positive = Some a) as Hpa by reflexivity.
  assert (heap m !! 2%positive = Some b) as Hpb by reflexivity.
  assert (buf_readable a) as Ha by (unfold buf_readable, SIZE_MAX; simpl; lia).
  assert (buf_readable b) as Hb by (unfold buf_readable, SIZE_MAX; simpl; lia).
  exact (bufcmp_order m 1%positive 2%positive a b Hpa Hpb Ha Hb).
Defined.

(** X7: [bufcmp] returns 0 exactly when the two buffers hold the same
    bytes. *)
Theorem bufcmp_equal_iff (m : mem) (pa pb : positive) (a b : buf) :
  heap m !! pa = Some a → heap m !! pb = Some b →
  buf_readable a → buf_readable b →
  Forall is_byte (contents a) → Forall is_byte (contents b) →
  (bufcmp (Some pa) (Some pb) m = Done 0 m ↔ contents a = contents b).
Proof.
  intros Hpa Hpb Ha Hb Hba Hbb. unfold bufcmp.
  rewrite (cmp_with_spec id m pa pb a b) by done. split.
  - intros [= Hz]. apply map_char_val_inj; [done..|]. by apply lex_cmp_zero.
  - intros ->. by rewrite lex_cmp_refl.
Qed.

Lemma bufcmp_equal_iff_witness :
  let a := CONST_BUF "abc" in
  let b := VOLATILE_BUF "abd" in
  let m := Mem {[1%positive := a; 2%positive := b]} [] 0 0 in
  bufcmp (Some 1%positive) (Some 2%positive) m = Done 0 m ↔ contents a = contents b.
Proof.
  intros a b m.
  assert (heap m !! 1%positive = Some a) as Hpa by reflexivity.
  assert (heap m !! 2%positive = Some b) as Hpb by reflexivity.
  assert (buf_readable a) as Ha by (unfold buf_readable, SIZE_MAX; simpl; lia).
  assert (buf_readable b) as Hb by (unfold buf_readable, SIZE_MAX; simpl; lia).
  assert (Forall is_byte (contents a)) as Hba
    by (repeat (constructor; [unfold is_byte, byte_of; simpl; lia|]); constructor).
  assert (Forall is_byte (contents b)) as Hbb
    by (repeat (constructor; [unfold is_byte, byte_of; simpl; lia|]); constructor).
  exact (bufcmp_equal_iff m 1%positive 2%positive a b Hpa Hpb Ha Hb Hba Hbb).
Defined.

(** X8: swapping the arguments of [bufcmp] or of [bufcasecmp] negates the
    result, null pointers and twice the same buffer included. *)
Theorem bufcmp_antisym (m : mem) (a b : ptr) :
  readable_in m a → readable_in m b →
  bufcmp b a m = negated (bufcmp a b m) ∧
  bufcasecmp b a m = negated (bufcasecmp a b m).
Proof.
  intros Ha Hb.
  assert (∀ f, cmp_with f b a m = negated (cmp_with f a b m)) as H.
  { intros f. destruct a as [pa|], b as [pb|]; try done.
    destruct Ha as (ba & Hpa & Hra), Hb as (bb & Hpb & Hrb).
    rewrite (cmp_with_spec f m pb pa bb ba), (cmp_with_spec f m pa pb ba bb) by done.
    simpl. by rewrite lex_cmp_antisym. }
  split; apply H.
Qed.

Lemma bufcmp_antisym_witness :
  let a := CONST_BUF "abc" in
  let b := VOLATILE_BUF "abd" in
  let m := Mem {[1%positive := a; 2%positive := b]} [] 0 0 in
  bufcmp (Some 2%positive) (Some 1%positive) m
  = negated (bufcmp (Some 1%positive) (Some 2%positive) m) ∧
  bufcasecmp (Some 2%positive) (Some 1%positive) m
  = negated (bufcasecmp (Some 1%positive) (Some 2%positive) m).
Proof.
  intros a b m.
  assert (readable_in m (Some 1%positive)) as Ha.
  { exists a. split; [reflexivity|]. unfold buf_readable, SIZE_MAX. simpl. lia. }
  assert (readable_in m (Some 2%positive)) as Hb.
  { exists b. split; [reflexivity|]. unfold buf_readable, SIZE_MAX. simpl. lia. }
  exact (bufcmp_antisym m (Some 1%positive) (Some 2%positive) Ha Hb).
Defined.

(** X9: buffers that [bufcmp] finds equal, [bufcasecmp] finds equal. *)
Theorem bufcmp_equal_bufcasecmp_equal (m : mem) (pa pb : positive) (a b : buf) :
  heap m !! pa = Some a → heap m !! pb = Some b →
  buf_readable a → buf_readable b →
  bufcmp (Some pa) (Some pb) m = Done 0 m →
  bufcasecmp (Some pa) (Some pb) m = Done 0 m.
Proof.
  intros Hpa Hpb Ha Hb. unfold bufcmp, bufcasecmp.
  rewrite (cmp_with_spec id m pa pb a b), (cmp_with_spec lower m pa pb a b) by done.
  intros [= Hz]. f_equal. apply lex_cmp_zero. apply lex_cmp_zero in Hz.
  apply (f_equal (map lower)) in Hz. by rewrite !map_map in Hz.
Qed.

Lemma bufcmp_equal_bufcasecmp_equal_witness :
  let a := CONST_BUF "abc" in
  let b := VOLATILE_BUF "abc" in
  let m := Mem {[1%positive := a; 2%positive := b]} [] 0 0 in
  bufcasecmp (Some 1%positive) (Some 2%positive) m = Done 0 m.
Proof.
  intros a b m.
  assert (heap m !! 1%positive = Some a) as Hpa by reflexivity.
  assert (heap m !! 2%positive = Some b) as Hpb by reflexivity.
  assert (buf_readable a) as Ha by (unfold buf_readable, SIZE_MAX; simpl; lia).
  assert (buf_readable b) as Hb by (unfold buf_readable, SIZE_MAX; simpl; lia).
  assert (bufcmp (Some 1%positive) (Some 2%positive) m = Done 0 m) as Heq
    by (vm_compute; reflexivity).
  exact (bufcmp_equal_bufcasecmp_equal m 1%positive 2%positive a b Hpa Hpb Ha Hb Heq).
Defined.

(** X10: [bufcasecmp] returns 0 exactly when the contents are the same once
    every byte is mapped by [lower]. *)
Theorem bufcasecmp_equal_iff (m : mem) (pa pb : positive) (a b : buf) :
  heap m !! pa = Some a → heap m !! pb = Some b →
  buf_readable a → buf_readable b →
  (bufcasecmp (Some pa) (Some pb) m = Done 0 m ↔
   map (λ c, lower (char_val c)) (contents a) = map (λ c, lower (char_val c)) (contents b)).
Proof.
  intros Hpa Hpb Ha Hb. unfold bufcasecmp.
  rewrite (cmp_with_spec lower m pa pb a b) by done. rewrite <- lex_cmp_zero.
  split; [by intros [= ->]|by intros ->].
Qed.

Lemma bufcasecmp_equal_iff_witness :
  let a := CONST_BUF "Content-Type" in
  let b := VOLATILE_BUF "content-type" in
  let m := Mem {[1%positive := a; 2%positive := b]} [] 0 0 in
  bufcasecmp (Some 1%positive) (Some 2%positive) m = Done 0 m ↔
  map (λ c, lower (char_val c)) (contents a) = map (λ c, lower (char_val c)) (contents b).
Proof.
  intros a b m.
  assert (heap m !! 1%positive = Some a) as Hpa by reflexivity.
  assert (heap m !! 2%positive = Some b) as Hpb by reflexivity.
  assert (buf_readable a) as Ha by (unfold buf_readable, SIZE_MAX; simpl; lia).
  assert (buf_readable b) as Hb by (unfold buf_readable, SIZE_MAX; simpl; lia).
  exact (bufcasecmp_equal_iff m 1%positive 2%positive a b Hpa Hpb Ha Hb).
Defined.

(** ** bufputc and bufputs *)

(** X11: [bufputc (buf, c)] does what [bufput (buf, &c, 1)] does, in every
    state: the same growth, the same failure, the same result. *)
Theorem bufputc_as_bufput (buf : ptr) (c : Z) (m : mem) :
  bufputc buf c m = bufput buf (Some [c]) 1 m.
Proof.
  destruct buf as [p|]; [|done]. unfold bufputc, bufput.
  rewrite !run_bind. destruct (deref p m) as [b m1| |]; [|done..].
  rewrite !run_bind. destruct (bufgrow (Some p) (wrap (buf_size b + 1)) m1) as [ok m2| |];
    [|done..].
  destruct (ok =? 0); [done|].
  rewrite !run_bind. destruct (deref p m2) as [b2 m3| |]; [|done..].
  by rewrite run_bind.
Qed.

Lemma strlen_text (l rest : list Z) :
  0 ∉ l → strlen (Some (l ++ 0 :: rest)) = Some (Z.of_nat (length l)).
Proof. intros H. unfold strlen. by rewrite strlen_from_prefix. Qed.

(** X12: [bufputs] appends the bytes of the C string up to its NUL, and
    not the NUL: the size grows by the length of the string. *)
Theorem bufputs_appends (m : mem) (p : positive) (b : buf) (l rest : list Z) :
  heap m !! p = Some b → buf_wf b → 0 < buf_unit b →
  0 ∉ l → buf_size b + Z.of_nat (length l) <= 2 ^ 63 →
  (buf_size b + Z.of_nat (length l) <= buf_asize b ∨
   ∃ fill rest', allocs m = AllocOk fill :: rest') →
  ∃ m' b', bufputs (Some p) (Some (l ++ 0 :: rest)) m = Done tt m' ∧
    heap m' = <[p := b']> (heap m) ∧
    buf_size b' = buf_size b + Z.of_nat (length l) ∧
    contents b' = contents b ++ l ∧ buf_wf b'.
Proof.
  intros Hp Hwf Hu Hl Hmax Hcan.
  destruct (bufput_succeeds m p b (l ++ 0 :: rest) (Z.of_nat (length l)))
    as (m' & b' & Hrun & Hheap & Hs & Hc & _ & _ & Hwf' & _); try done.
  { rewrite length_app. simpl. lia. }
  exists m', b'. split.
  { unfold bufputs. by rewrite run_bind, strlen_text, run_defined. }
  split; [done|]. split; [done|]. split; [|done].
  by rewrite Hc, Nat2Z.id, take_app_length.
Qed.

Lemma bufputs_appends_witness :
  let b := Buf (Some (bytes_of "hello" ++ [7; 7; 7])) 5 8 8 1 in
  let m := Mem {[1%positive := b]} [AllocOk 7] 1 8 in
  ∃ m' b', bufputs (Some 1%positive) (Some (bytes_of ", world" ++ 0 :: [])) m = Done tt m' ∧
    heap m' = <[1%positive := b']> (heap m) ∧
    buf_size b' = buf_size b + Z.of_nat (length (bytes_of ", world")) ∧
    contents b' = contents b ++ bytes_of ", world" ∧ buf_wf b'.
Proof.
  intros b m.
  assert (heap m !! 1%positive = Some b) as Hp by reflexivity.
  assert (buf_wf b) as Hwf by (split; simpl; unfold SIZE_MAX; lia).
  assert (0 < buf_unit b) as Hu by reflexivity.
  assert (0 ∉ bytes_of ", world") as Hnz by (apply (bool_decide_unpack _); vm_compute; exact I).
  assert (buf_size b + Z.of_nat (length (bytes_of ", world")) <= 2 ^ 63) as Hmax
    by (simpl; lia).
  assert (buf_size b + Z.of_nat (length (bytes_of ", world")) <= buf_asize b ∨
          ∃ fill rest', allocs m = AllocOk fill :: rest') as Hcan
    by (right; exists 7, []; reflexivity).
  exact (bufputs_appends m 1%positive b (bytes_of ", world") [] Hp Hwf Hu Hnz Hmax Hcan).
Defined.

(** ** Appending and slurping *)

(** X13: with room for the bytes or the allocator agreeing, [bufput]
    followed by [bufslurp (k)] leaves the old contents and the appended
    bytes without their first [k] bytes; nothing is left when [k] is the
    whole size or more. *)
Theorem bufput_then_bufslurp (m : mem) (p : positive) (b : buf) (d : list Z) (len k : Z) :
  heap m !! p = Some b → buf_wf b → 0 < buf_unit b →
  0 <= len <= Z.of_nat (length d) → buf_size b + len <= 2 ^ 63 →
  (buf_size b + len <= buf_asize b ∨ ∃ fill rest, allocs m = AllocOk fill :: rest) →
  0 < k →
  ∃ m' b', (bufput (Some p) (Some d) len ≫= λ _, bufslurp (Some p) k) m = Done tt m' ∧
    heap m' = <[p := b']> (heap m) ∧
    contents b' = drop (Z.to_nat k) (contents b ++ take (Z.to_nat len) d) ∧
    buf_size b' = Z.max 0 (buf_size b + len - k) ∧ buf_wf b'.
Proof.
  intros Hp Hwf Hu Hlen Hmax Hcan Hk.
  destruct (bufput_succeeds m p b d len)
    as (m1 & b1 & Hrun & Hheap & Hs & Hc & Hu1 & _ & Hwf1 & _); try done.
  assert (heap m1 !! p = Some b1) as Hp1 by (by rewrite Hheap, lookup_insert_eq).
  destruct (bufslurp_spec m1 p b1 k Hp1 Hwf1 ltac:(lia) Hk)
    as (b2 & Hrun2 & Hs2 & Hc2 & _ & Hwf2).
  eexists _, b2. split; [by rewrite run_bind, Hrun, Hrun2|]. simpl.
  split; [by rewrite Hheap, insert_insert_eq|]. split; [by rewrite Hc2, Hc|].
  split; [lia|done].
Qed.

Lemma bufput_then_bufslurp_witness :
  let b := Buf (Some (bytes_of "hello" ++ [7; 7; 7])) 5 8 8 1 in
  let m := Mem {[1%positive := b]} [AllocOk 7] 1 8 in
  ∃ m' b',
    (bufput (Some 1%positive) (Some (bytes_of "0123456789")) 10
       ≫= λ _, bufslurp (Some 1%positive) 3) m = Done tt m' ∧
    heap m' = <[1%positive := b']> (heap m) ∧
    contents b' = drop (Z.to_nat 3) (contents b ++ take (Z.to_nat 10) (bytes_of "0123456789")) ∧
    buf_size b' = Z.max 0 (buf_size b + 10 - 3) ∧ buf_wf b'.
Proof.
  intros b m.
  assert (heap m !! 1%positive = Some b) as Hp by reflexivity.
  assert (buf_wf b) as Hwf by (split; simpl; unfold SIZE_MAX; lia).
  assert (0 < buf_unit b) as Hu by reflexivity.
  assert (0 <= 10 <= Z.of_nat (length (bytes_of "0123456789"))) as Hlen by (simpl; lia).
  assert (buf_size b + 10 <= 2 ^ 63) as Hmax by (simpl; lia).
  assert (buf_size b + 10 <= buf_asize b ∨ ∃ fill rest, allocs m = AllocOk fill :: rest)
    as Hcan by (right; exists 7, []; reflexivity).
  assert (0 < 3) as Hk by lia.
  exact (bufput_then_bufslurp m 1%positive b (bytes_of "0123456789") 10 3
           Hp Hwf Hu Hlen Hmax Hcan Hk).
Defined.

(** ** bufreset and reuse *)

(** X4: [bufreset] on an owned buffer leaves an empty buffer (size 0,
    allocated size 0) of the same unit and reference count, with the
    allocated bytes taken off [buffer_stat_alloc_bytes]; the buffer is
    usable again: a following [bufput] (the allocator agreeing) leaves
    exactly the bytes put. *)
Theorem bufreset_reuse (m : mem) (p : positive) (b : buf) :
  heap m !! p = Some b → buf_wf b → 0 < buf_unit b →
  ∃ m1 b1, bufreset (Some p) m = Done tt m1 ∧ heap m1 = <[p := b1]> (heap m) ∧
    buf_size b1 = 0 ∧ buf_asize b1 = 0 ∧ contents b1 = [] ∧
    buf_unit b1 = buf_unit b ∧ buf_ref b1 = buf_ref b ∧ buf_wf b1 ∧
    buffer_stat_alloc_bytes m1
    = (if buf_asize b =? 0 then buffer_stat_alloc_bytes m
       else wrap (buffer_stat_alloc_bytes m - buf_asize b)) ∧
    ∀ d len fill rest,
      0 <= len <= Z.of_nat (length d) → len <= 2 ^ 63 →
      allocs m = AllocOk fill :: rest →
      ∃ m2 b2, bufput (Some p) (Some d) len m1 = Done tt m2 ∧
        heap m2 = <[p := b2]> (heap m) ∧
        buf_size b2 = len ∧ contents b2 = take (Z.to_nat len) d ∧ buf_wf b2.
Proof.
  intros Hp Hwf Hu.
  destruct (bufreset_spec m p b Hp Hwf Hu)
    as (m1 & b1 & Hrun & Hheap & Hs & Ha & Hc & Hu1 & Hr1 & Hwf1 & Hal1 & _ & Hstat).
  exists m1, b1. do 8 (split; [done|]). split; [done|].
  intros d len fill rest Hlen Hmax Hal.
  assert (heap m1 !! p = Some b1) as Hp1 by (by rewrite Hheap, lookup_insert_eq).
  destruct (bufput_succeeds m1 p b1 d len)
    as (m2 & b2 & Hrun2 & Hheap2 & Hs2 & Hc2 & _ & _ & Hwf2 & _); try done; try lia.
  { right. rewrite Hal1. eauto. }
  exists m2, b2. split; [done|].
  split; [by rewrite Hheap2, Hheap, insert_insert_eq|].
  split; [lia|]. split; [by rewrite Hc2, Hc|done].
Qed.

Lemma bufreset_reuse_witness :
  let b := Buf (Some (bytes_of "hello" ++ [7; 7; 7])) 5 8 8 1 in
  let m := Mem {[1%positive := b]} [AllocOk 7] 1 8 in
  ∃ m1 m2 b2,
    bufreset (Some 1%positive) m = Done tt m1 ∧
    buffer_stat_alloc_bytes m1 = 0 ∧
    bufput (Some 1%positive) (Some (bytes_of "abc")) 3 m1 = Done tt m2 ∧
    heap m2 = <[1%positive := b2]> (heap m) ∧ contents b2 = bytes_of "abc".
Proof.
  intros b m.
  assert (heap m !! 1%positive = Some b) as Hp by reflexivity.
  assert (buf_wf b) as Hwf by (split; simpl; unfold SIZE_MAX; lia).
  assert (0 < buf_unit b) as Hu by reflexivity.
  destruct (bufreset_reuse m 1%positive b Hp Hwf Hu)
    as (m1 & b1 & Hreset & _ & _ & _ & _ & _ & _ & _ & Hbytes & Hput).
  assert (0 <= 3 <= Z.of_nat (length (bytes_of "abc"))) as Hlen by (simpl; lia).
  assert (3 <= 2 ^ 63) as Hmax by lia.
  assert (allocs m = AllocOk 7 :: []) as Ha by reflexivity.
  destruct (Hput (bytes_of "abc") 3 7 [] Hlen Hmax Ha) as (m2 & b2 & Hrun & Hheap & _ & Hc & _).
  exists m1, m2, b2. split; [exact Hreset|]. split; [exact Hbytes|].
  split; [exact Hrun|]. split; [exact Hheap|exact Hc].
Defined.

(** ** bufdup and comparison *)

(** X14: a successful [bufdup] returns a buffer at a new address, with the
    contents of the source, the requested unit and one reference, which
    [bufcmp] and [bufcasecmp] find equal to the source. *)
Theorem bufdup_compares_equal (m : mem) (s : positive) (b : buf) (dupunit f1 f2 : Z)
    (rest : list alloc_result) :
  heap m !! s = Some b → buf_readable b →
  0 < dupunit → buf_size b + dupunit - 1 <= SIZE_MAX →
  allocs m = AllocOk f1 :: AllocOk f2 :: rest →
  ∃ q m' b', bufdup (Some s) dupunit m = Done (Some q) m' ∧
    q ≠ s ∧ heap m' = <[q := b']> (heap m) ∧
    contents b' = contents b ∧ buf_unit b' = dupunit ∧ buf_ref b' = 1 ∧
    bufcmp (Some s) (Some q) m' = Done 0 m' ∧
    bufcasecmp (Some s) (Some q) m' = Done 0 m'.
Proof.
  intros Hs Hrd Hu Hmax Hal. pose proof Hrd as [Hsz Hlen].
  assert (fresh (dom (heap m)) ≠ s) as Hne.
  { intros Heq. by rewrite <- Heq, fresh_address_free in Hs. }
  assert (∀ m' b', heap m' = <[fresh (dom (heap m)) := b']> (heap m) →
            buf_readable b' → contents b' = contents b →
            bufcmp (Some s) (Some (fresh (dom (heap m)))) m' = Done 0 m' ∧
            bufcasecmp (Some s) (Some (fresh (dom (heap m)))) m' = Done 0 m') as Hcmp.
  { intros m' b' Hheap Hrd' Hc.
    assert (heap m' !! s = Some b) by (by rewrite Hheap, lookup_insert_ne).
    assert (heap m' !! fresh (dom (heap m)) = Some b') by (by rewrite Hheap, lookup_insert_eq).
    unfold bufcmp, bufcasecmp.
    rewrite !(cmp_with_spec _ m' s (fresh (dom (heap m))) b b') by done.
    by rewrite Hc, !lex_cmp_refl. }
  exists (fresh (dom (heap m))).
  destruct (Z.eq_dec (buf_size b) 0) as [Hz|Hnz].
  - eexists _, _. split; [by apply (bufdup_empty m s b dupunit f1 (AllocOk f2 :: rest))|].
    split; [done|]. split; [done|].
    assert (contents (Buf None 0 0 dupunit 1) = contents b) as Hc.
    { rewrite (contents_block_bytes b), Hz. by rewrite take_0. }
    split; [done|]. split; [done|]. split; [done|].
    apply (Hcmp _ (Buf None 0 0 dupunit 1)); [done| |done].
    split; simpl; unfold SIZE_MAX; lia.
  - destruct (bufdup_ok m s b dupunit f1 f2 rest) as (d' & Hrun & Hlen' & Hbytes);
      [done|done|lia|done|done|done|].
    destruct (bufdup_asize_least (buf_size b) dupunit) as (_ & Hge & _); [lia|done|done|].
    eexists _, _. split; [exact Hrun|]. split; [done|]. split; [done|].
    assert (contents (Buf d' (buf_size b) (bufdup_asize (buf_size b) dupunit) dupunit 1)
            = contents b) as Hc by (by rewrite contents_block_bytes).
    split; [done|]. split; [done|]. split; [done|].
    apply (Hcmp _ (Buf d' (buf_size b) (bufdup_asize (buf_size b) dupunit) dupunit 1));
      [done| |done].
    split; simpl; [done|lia].
Qed.

Lemma bufdup_compares_equal_witness :
  let b := VOLATILE_BUF "hello" in
  let m := Mem {[1%positive := b]} [AllocOk 0; AllocOk 7] 0 0 in
  ∃ q m' b', bufdup (Some 1%positive) 8 m = Done (Some q) m' ∧
    q ≠ 1%positive ∧ heap m' = <[q := b']> (heap m) ∧
    contents b' = contents b ∧ buf_unit b' = 8 ∧ buf_ref b' = 1 ∧
    bufcmp (Some 1%positive) (Some q) m' = Done 0 m' ∧
    bufcasecmp (Some 1%positive) (Some q) m' = Done 0 m'.
Proof.
  intros b m.
  assert (heap m !! 1%positive = Some b) as Hp by reflexivity.
  assert (buf_readable b) as Hr by (unfold buf_readable, SIZE_MAX; simpl; lia).
  assert (0 < 8) as Hu by lia.
  assert (buf_size b + 8 - 1 <= SIZE_MAX) as Hmax by (unfold SIZE_MAX; simpl; lia).
  assert (allocs m = AllocOk 0 :: AllocOk 7 :: []) as Ha by reflexivity.
  exact (bufdup_compares_equal m 1%positive b 8 0 7 [] Hp Hr Hu Hmax Ha).
Defined.

(** ** Reference counting *)

Lemma mem_eta (m : mem) :
  Mem (heap m) (allocs m) (buffer_stat_nb m) (buffer_stat_alloc_bytes m) = m.
Proof. by destruct m. Qed.

Lemma release_times_S (k : nat) (buf : ptr) (m : mem) :
  release_times (S k) buf m =
    match bufrelease buf m with
    | Done _ m' => release_times k buf m'
    | Undefined => Undefined
    | Diverges => Diverges
    end.
Proof. reflexivity. Qed.

(** One release of a buffer that has other holders. *)
Lemma bufrelease_shared (m : mem) (p : positive) (b : buf) :
  heap m !! p = Some b → buf_unit b ≠ 0 → 1 < buf_ref b < 2 ^ 31 →
  bufrelease (Some p) m = Done tt (set_heap (<[p := set_ref (buf_ref b - 1) b]> (heap m)) m).
Proof.
  intros Hp Hu Hr. rewrite (bufrelease_spec m p b Hp).
  destruct (Z.eqb_spec (buf_unit b) 0); [done|].
  rewrite wrap_int_small by lia.
  by destruct (Z.eqb_spec (buf_ref b - 1) 0); [lia|].
Qed.

(** The release of the last holder. *)
Lemma bufrelease_last (m : mem) (p : positive) (b : buf) :
  heap m !! p = Some b → buf_unit b ≠ 0 → buf_ref b = 1 →
  bufrelease (Some p) m
  = Done tt (Mem (delete p (heap m)) (allocs m) (wrap_long (buffer_stat_nb m - 1))
                 (wrap (buffer_stat_alloc_bytes m - buf_asize b))).
Proof.
  intros Hp Hu Hr. rewrite (bufrelease_spec m p b Hp), Hr.
  by destruct (Z.eqb_spec (buf_unit b) 0).
Qed.

Lemma release_times_fewer (k : nat) (m : mem) (p : positive) (b : buf) :
  heap m !! p = Some b → buf_unit b ≠ 0 →
  Z.of_nat k < buf_ref b < 2 ^ 31 →
  release_times k (Some p) m
  = Done tt (set_heap (<[p := set_ref (buf_ref b - Z.of_nat k) b]> (heap m)) m).
Proof.
  revert m b. induction k as [|k IH]; intros m b Hp Hu Hr.
  - simpl. unfold set_heap. rewrite Z.sub_0_r.
    replace (set_ref (buf_ref b) b) with b by (by destruct b).
    by rewrite insert_id, mem_eta.
  - rewrite release_times_S, (bufrelease_shared m p b) by (done || lia).
    rewrite (IH _ (set_ref (buf_ref b - 1) b)); [|apply lookup_insert_eq|done|simpl; lia].
    unfold set_heap. simpl. rewrite insert_insert_eq. do 3 f_equal.
    unfold set_ref. simpl. f_equal. lia.
Qed.

Lemma release_times_all (n : nat) (m : mem) (p : positive) (b : buf) :
  heap m !! p = Some b → buf_unit b ≠ 0 →
  buf_ref b = Z.of_nat (S n) → buf_ref b < 2 ^ 31 →
  release_times (S n) (Some p) m
  = Done tt (Mem (delete p (heap m)) (allocs m) (wrap_long (buffer_stat_nb m - 1))
                 (wrap (buffer_stat_alloc_bytes m - buf_asize b))) ∧
  release_times (S (S n)) (Some p) m = Undefined.
Proof.
  revert m b. induction n as [|n IH]; intros m b Hp Hu Hr Hmax.
  - rewrite !release_times_S, (bufrelease_last m p b) by done. split; [done|].
    rewrite release_times_S. unfold bufrelease, deref. rewrite run_bind. simpl.
    by rewrite lookup_delete_eq.
  - rewrite (release_times_S (S n)), (release_times_S (S (S n))).
    rewrite (bufrelease_shared m p b) by (done || lia).
    destruct (IH (set_heap (<[p := set_ref (buf_ref b - 1) b]> (heap m)) m)
                (set_ref (buf_ref b - 1) b)) as [Hall Hmore];
      [apply lookup_insert_eq|done|simpl; lia|simpl; lia|].
    rewrite Hall, Hmore. split; [|done]. simpl. by rewrite delete_insert_eq.
Qed.

(** X15: a buffer with [n + 1] references survives up to [n] calls of
    [bufrelease], each taking one reference and leaving the statistics
    alone; the call after those frees it, takes it off [buffer_stat_nb] and
    its allocated bytes off [buffer_stat_alloc_bytes]; one more call is a
    use of a freed buffer, which has no defined behaviour. *)
Theorem bufrelease_counts (n : nat) (m : mem) (p : positive) (b : buf) :
  heap m !! p = Some b → buf_unit b ≠ 0 →
  buf_ref b = Z.of_nat (S n) → buf_ref b < 2 ^ 31 →
  (∀ k, (k ≤ n)%nat →
     ∃ m', release_times k (Some p) m = Done tt m' ∧
       heap m' = <[p := set_ref (buf_ref b - Z.of_nat k) b]> (heap m) ∧
       buffer_stat_nb m' = buffer_stat_nb m ∧
       buffer_stat_alloc_bytes m' = buffer_stat_alloc_bytes m) ∧
  (∃ m', release_times (S n) (Some p) m = Done tt m' ∧
     heap m' = delete p (heap m) ∧
     buffer_stat_nb m' = wrap_long (buffer_stat_nb m - 1) ∧
     buffer_stat_alloc_bytes m' = wrap (buffer_stat_alloc_bytes m - buf_asize b)) ∧
  release_times (S (S n)) (Some p) m = Undefined.
Proof.
  intros Hp Hu Hr Hmax. split.
  - intros k Hk. eexists. split; [apply (release_times_fewer k m p b); (done || lia)|].
    done.
  - destruct (release_times_all n m p b Hp Hu Hr Hmax) as [Hall Hmore].
    split; [|done]. eexists. split; [exact Hall|]. done.
Qed.

Lemma bufrelease_counts_witness :
  let b := Buf (Some (bytes_of "hello" ++ [7; 7; 7])) 5 8 8 2 in
  let m := Mem {[1%positive := b]} [] 1 8 in
  (∃ m', release_times 1 (Some 1%positive) m = Done tt m' ∧
     heap m' = <[1%positive := set_ref (buf_ref b - Z.of_nat 1) b]> (heap m) ∧
     buffer_stat_nb m' = buffer_stat_nb m ∧
     buffer_stat_alloc_bytes m' = buffer_stat_alloc_bytes m) ∧
  (∃ m', release_times 2 (Some 1%positive) m = Done tt m' ∧
     heap m' = delete 1%positive (heap m) ∧
     buffer_stat_nb m' = wrap_long (buffer_stat_nb m - 1) ∧
     buffer_stat_alloc_bytes m' = wrap (buffer_stat_alloc_bytes m - buf_asize b)) ∧
  release_times 3 (Some 1%positive) m = Undefined.
Proof.
  intros b m.
  assert (heap m !! 1%positive = Some b) as Hp by reflexivity.
  assert (buf_unit b ≠ 0) as Hu by (simpl; lia).
  assert (buf_ref b = Z.of_nat 2) as Href by reflexivity.
  assert (buf_ref b < 2 ^ 31) as Hmax by (simpl; lia).
  destruct (bufrelease_counts 1 m 1%positive b Hp Hu Href Hmax) as (Hfew & Hall & Hmore).
  split; [|split; [exact Hall|exact Hmore]].
  apply (Hfew 1%nat). lia.
Defined.

(** ** bufset and bufrelease *)

(** X16: [bufset] of an owned buffer into an empty slot shares it (the slot
    holds the same buffer, with one more reference), and a [bufrelease]
    through the slot restores the state from before the [bufset]. *)
Theorem bufset_then_bufrelease (m : mem) (s : positive) (b : buf) :
  heap m !! s = Some b → is_volatile b = false → buf_unit b ≠ 0 →
  1 <= buf_ref b < 2 ^ 31 - 1 →
  ∃ m1, bufset None (Some s) m = Done (Some s) m1 ∧
    heap m1 = <[s := set_ref (buf_ref b + 1) b]> (heap m) ∧
    bufrelease (Some s) m1 = Done tt m.
Proof.
  intros Hs Hvol Hu Hr. eexists. split.
  { unfold bufset. rewrite run_bind, run_bind, (run_deref _ _ _ Hs), Hvol.
    rewrite run_bind. reflexivity. }
  rewrite wrap_int_small by lia. split; [done|].
  rewrite (bufrelease_shared _ s (set_ref (buf_ref b + 1) b));
    [|apply lookup_insert_eq|done|simpl; lia].
  simpl. unfold set_heap. simpl. rewrite insert_insert_eq.
  replace (set_ref (buf_ref b + 1 - 1) (set_ref (buf_ref b + 1) b)) with b.
  - by rewrite insert_id, mem_eta.
  - destruct b. unfold set_ref. simpl. f_equal. lia.
Qed.

Lemma bufset_then_bufrelease_witness :
  let b := Buf (Some (bytes_of "hello" ++ [7; 7; 7])) 5 8 8 1 in
  let m := Mem {[1%positive := b]} [] 1 8 in
  ∃ m1, bufset None (Some 1%positive) m = Done (Some 1%positive) m1 ∧
    heap m1 = <[1%positive := set_ref (buf_ref b + 1) b]> (heap m) ∧
    bufrelease (Some 1%positive) m1 = Done tt m.
Proof.
  intros b m.
  assert (heap m !! 1%positive = Some b) as Hp by reflexivity.
  assert (is_volatile b = false) as Hv by reflexivity.
  assert (buf_unit b ≠ 0) as Hu by (simpl; lia).
  assert (1 <= buf_ref b < 2 ^ 31 - 1) as Href by (simpl; lia).
  exact (bufset_then_bufrelease m 1%positive b Hp Hv Hu Href).
Defined.

(** ** Operations on null and read-only buffers *)

(** X17: [bufput], [bufputc], [bufslurp], [bufnullterm], [bufreset],
    [bufrelease] and [bufprintf] do nothing, in any state, on a null pointer
    and on a buffer with [unit == 0] (the read-only buffers of [CONST_BUF]
    and [VOLATILE_BUF]): nothing is written, freed or allocated. On a null
    pointer [vbufprintf] does nothing either, and [bufdup] returns null. *)
Theorem invalid_operations_ignored (m : mem) :
  (∀ d len c k r,
     bufput None d len m = Done tt m ∧ bufputc None c m = Done tt m ∧
     bufslurp None k m = Done tt m ∧ bufnullterm None m = Done tt m ∧
     bufreset None m = Done tt m ∧ bufrelease None m = Done tt m ∧
     bufprintf None r m = Done tt m ∧ vbufprintf None r m = Done tt m ∧
     bufdup None k m = Done None m) ∧
  (∀ p b, heap m !! p = Some b → buf_unit b = 0 →
     ∀ d len c k r,
       bufput (Some p) d len m = Done tt m ∧ bufputc (Some p) c m = Done tt m ∧
       bufslurp (Some p) k m = Done tt m ∧ bufnullterm (Some p) m = Done tt m ∧
       bufreset (Some p) m = Done tt m ∧ bufrelease (Some p) m = Done tt m ∧
       bufprintf (Some p) r m = Done tt m).
Proof.
  split; [done|]. intros p b Hp Hu d len c k r.
  assert (∀ n, bufgrow (Some p) n m = Done 0 m) as Hgrow.
  { intros n. unfold bufgrow. by rewrite run_bind, (run_deref _ _ _ Hp), Hu. }
  split. { unfold bufput. by rewrite run_bind, (run_deref _ _ _ Hp), run_bind, Hgrow. }
  split. { unfold bufputc. by rewrite run_bind, (run_deref _ _ _ Hp), run_bind, Hgrow. }
  split. { unfold bufslurp. by rewrite run_bind, (run_deref _ _ _ Hp), Hu. }
  split. { unfold bufnullterm. by rewrite run_bind, (run_deref _ _ _ Hp), Hu. }
  split. { unfold bufreset. by rewrite run_bind, (run_deref _ _ _ Hp), Hu. }
  split. { unfold bufrelease. by rewrite run_bind, (run_deref _ _ _ Hp), Hu. }
  unfold bufprintf. by rewrite run_bind, (run_deref _ _ _ Hp), Hu.
Qed.

Lemma invalid_operations_ignored_witness :
  let b := CONST_BUF "abc" in
  let m := Mem {[1%positive := b]} [AllocOk 7] 0 0 in
  bufput (Some 1%positive) (Some (bytes_of "de")) 2 m = Done tt m ∧
  bufputc (Some 1%positive) 100 m = Done tt m ∧
  bufslurp (Some 1%positive) 1 m = Done tt m ∧
  bufnullterm (Some 1%positive) m = Done tt m ∧
  bufreset (Some 1%positive) m = Done tt m ∧
  bufrelease (Some 1%positive) m = Done tt m ∧
  bufprintf (Some 1%positive) (Some (bytes_of "de")) m = Done tt m.
Proof.
  intros b m.
  assert (heap m !! 1%positive = Some b) as Hp by reflexivity.
  assert (buf_unit b = 0) as Hu by reflexivity.
  exact (proj2 (invalid_operations_ignored m) 1%positive b Hp Hu
           (Some (bytes_of "de")) 2 100 1 (Some (bytes_of "de"))).
Defined.

(** ** bufcmps as an equality test *)

Lemma strncmp_from_S (n : nat) (s1 s2 : block) (i : Z) :
  strncmp_from (S n) s1 s2 i =
    match load s1 i, load s2 i with
    | Some c1, Some c2 =>
        if negb (c1 =? c2) then Some (c1 - c2)
        else if c1 =? 0 then Some 0
        else strncmp_from n s1 s2 (i + 1)
    | _, _ => None
    end.
Proof. simpl. destruct (load s1 i), (load s2 i); done. Qed.

Lemma strncmp_from_zero_iff (n : nat) (d s : list Z) (i : nat) :
  (i + n ≤ length s)%nat → 0 ∉ take n (drop i s) →
  (strncmp_from n (Some d) (Some s) (Z.of_nat i) = Some 0 ↔
   take n (drop i d) = take n (drop i s)).
Proof.
  revert i. induction n as [|n IH]; intros i Hlen Hnz; [done|].
  destruct (lookup_lt_is_Some_2 s i) as [y Hy]; [lia|].
  rewrite (drop_S s y i Hy) in *. simpl in Hnz.
  apply not_elem_of_cons in Hnz as [Hy0 Hnz].
  rewrite strncmp_from_S, (load_inside s) by lia. rewrite Nat2Z.id, Hy.
  destruct (decide (i < length d)%nat) as [Hi|Hi].
  - destruct (lookup_lt_is_Some_2 d i Hi) as [x Hx].
    rewrite (load_inside d) by lia. rewrite Nat2Z.id, Hx, (drop_S d x i Hx). simpl.
    destruct (Z.eqb_spec x y) as [->|Hne]; simpl.
    + destruct (Z.eqb_spec y 0); [done|].
      replace (Z.of_nat i + 1) with (Z.of_nat (S i)) by lia.
      rewrite IH by (done || lia). split; [by intros ->|by intros [= ?]].
    + split; [intros [= ?]; lia|by intros [= ? _]].
  - assert (load (Some d) (Z.of_nat i) = None) as ->.
    { unfold load. destruct (Z.ltb_spec (Z.of_nat i) (Z.of_nat (length d))); [lia|].
      by rewrite andb_false_r. }
    rewrite drop_ge by lia. done.
Qed.

(** X18: on a buffer that is not empty, [bufcmps] returns 0 exactly when the
    contents of the buffer are the bytes of the C string. *)
Theorem bufcmps_equal_iff (m : mem) (p : positive) (b : buf) (l rest : list Z) :
  heap m !! p = Some b → buf_readable b → 0 < buf_size b → 0 ∉ l →
  (bufcmps (Some p) (Some (l ++ 0 :: rest)) m = Done 0 m ↔ contents b = l).
Proof.
  intros Hp Hrd Hsize Hl. pose proof Hrd as [Hs Hlen].
  destruct (buf_data b) as [d|] eqn:Hd; simpl in Hlen; [|lia].
  unfold bufcmps. rewrite run_bind, strlen_text, run_defined, run_bind by done.
  unfold fmap, M_fmap, bind. rewrite (run_deref _ _ _ Hp). simpl.
  destruct (Z.eqb_spec (buf_size b) 0); [lia|]. rewrite Hd.
  assert (0 ∉ take (length l) (drop 0 (l ++ 0 :: rest))) as Hnz
    by (by rewrite drop_0, take_app_length).
  assert (contents b = l ↔ buf_size b = Z.of_nat (length l) ∧
            take (length l) (drop 0 d) = take (length l) (drop 0 (l ++ 0 :: rest))) as ->.
  { rewrite !drop_0, take_app_length. unfold contents. rewrite Hd. split.
    - intros <-. rewrite length_take. split; [lia|]. f_equal. lia.
    - intros [Hsz <-]. f_equal. lia. }
  rewrite <- (strncmp_from_zero_iff (length l) d (l ++ 0 :: rest) 0)
    by (done || rewrite length_app; simpl; lia).
  destruct (Z.ltb_spec (Z.of_nat (length l)) (buf_size b)) as [Hlt|Hge].
  - rewrite run_bind.
    destruct (strncmp (Some d) (Some (l ++ 0 :: rest)) (buf_size b)) as [r|]; simpl.
    + destruct (Z.eqb_spec r 0) as [->|Hr]; simpl.
      * destruct (Z.eqb_spec (buf_size b) (Z.of_nat (length l))); [lia|].
        destruct (Z.ltb_spec (buf_size b) (Z.of_nat (length l))); [lia|].
        split; [done|lia].
      * split; [intros [= ?]; lia|lia].
    + split; [done|lia].
  - rewrite run_bind. unfold strncmp. rewrite Nat2Z.id. change (Z.of_nat 0) with 0.
    destruct (strncmp_from (length l) (Some d) (Some (l ++ 0 :: rest)) 0) as [r|]; simpl.
    + destruct (Z.eqb_spec r 0) as [->|Hr]; simpl.
      * destruct (Z.eqb_spec (buf_size b) (Z.of_nat (length l))); [done|].
        destruct (Z.ltb_spec (buf_size b) (Z.of_nat (length l)));
          (split; [done|intros []; lia]).
      * split; [intros [= ?]; lia|]. intros [_ [= ?]]. lia.
    + split; [done|]. by intros [_ ?].
Qed.

Lemma bufcmps_equal_iff_witness :
  let b := VOLATILE_BUF "abc" in
  let m := Mem {[1%positive := b]} [] 0 0 in
  bufcmps (Some 1%positive) (Some (bytes_of "abc" ++ 0 :: [])) m = Done 0 m ↔
  contents b = bytes_of "abc".
Proof.
  intros b m.
  assert (heap m !! 1%positive = Some b) as Hp by reflexivity.
  assert (buf_readable b) as Hr by (unfold buf_readable, SIZE_MAX; simpl; lia).
  assert (0 < buf_size b) as Hs by reflexivity.
  assert (0 ∉ bytes_of "abc") as Hnz by (apply (bool_decide_unpack _); vm_compute; exact I).
  exact (bufcmps_equal_iff m 1%positive b (bytes_of "abc") [] Hp Hr Hs Hnz).
Defined.

(** ** buftoi: range of the results *)

Lemma wrap_int_range (z : Z) : - 2 ^ 31 <= wrap_int z < 2 ^ 31.
Proof. unfold wrap_int. pose proof (Z.mod_pos_bound (z + 2 ^ 31) (2 ^ 32)). lia. Qed.

Lemma digit_run_length (l : list Z) : (length (digit_run l) ≤ length l)%nat.
Proof.
  induction l as [|c l IH]; simpl; [done|]. destruct (is_digit c); simpl; lia.
Qed.

Lemma parse_leading_integer_range (l : list Z) :
  let parsed := parse_leading_integer l in
  - 2 ^ 31 <= parsed.1 < 2 ^ 31 ∧ 0 <= parsed.2 <= Z.of_nat (length l) ∧
  (parsed.2 = 0 → parsed.1 = 0).
Proof.
  destruct l as [|c l]; simpl; [lia|].
  pose proof (digit_run_length l). pose proof (digit_run_length (c :: l)) as Hcl.
  simpl in Hcl.
  destruct (c =? byte_of "+"); [|destruct (c =? byte_of "-")]; simpl;
    (split; [apply wrap_int_range|]); (split; [lia|]); try lia.
  destruct (is_digit c); simpl; [lia|done].
Qed.

(** X19: from an offset inside the buffer, [buftoi] returns, changes
    nothing, and writes to [*offset_o] a position between the offset and the
    size; the value is in the range of [int], and it is 0 when no character
    was consumed. *)
Theorem buftoi_end_offset (m : mem) (p : positive) (b : buf) (offset_i old : Z) :
  heap m !! p = Some b → buf_readable b → 0 <= offset_i < buf_size b →
  ∃ v e, buftoi (Some p) offset_i (Some old) m = Done (v, Some e) m ∧
    offset_i <= e <= buf_size b ∧ - 2 ^ 31 <= v < 2 ^ 31 ∧
    (e = offset_i → v = 0).
Proof.
  intros Hp Hrd Hoff.
  destruct (buftoi_scan_spec b offset_i Hrd Hoff) as (t' & Hscan & _).
  pose proof (parse_leading_integer_range (drop (Z.to_nat offset_i) (contents b)))
    as (Hv & He & Hzero).
  rewrite length_drop, contents_length in He by done.
  eexists _, _. split.
  { unfold buftoi. rewrite run_bind, (run_deref _ _ _ Hp).
    destruct (Z.eqb_spec (buf_size b) 0); [lia|].
    by rewrite run_bind, Hscan. }
  split; [lia|]. split; [done|]. intros He0. apply Hzero. lia.
Qed.

Lemma buftoi_end_offset_witness :
  let b := CONST_BUF "x=+17;" in
  let m := Mem {[1%positive := b]} [] 0 0 in
  ∃ v e, buftoi (Some 1%positive) 2 (Some 0) m = Done (v, Some e) m ∧
    2 <= e <= buf_size b ∧ - 2 ^ 31 <= v < 2 ^ 31 ∧ (e = 2 → v = 0).
Proof.
  intros b m.
  assert (heap m !! 1%positive = Some b) as Hp by reflexivity.
  assert (buf_readable b) as Hr by (unfold buf_readable, SIZE_MAX; simpl; lia).
  assert (0 <= 2 < buf_size b) as Ho by (simpl; lia).
  exact (buftoi_end_offset m 1%positive b 2 0 Hp Hr Ho).
Defined.

(** ** vbufprintf and bufprintf *)

(** [vsnprintf] into the room behind the string of a buffer: the rendering,
    cut to the room less one, and a NUL. *)
Lemma vsnprintf_tail (b : buf) (out : list Z) :
  buf_wf b → buf_size b < buf_asize b → Z.of_nat (length out) < 2 ^ 31 →
  let w := take (Z.to_nat (buf_asize b - buf_size b - 1)) out ++ [0] in
  ∃ d', vsnprintf (buf_data b) (buf_size b) (wrap (buf_asize b - buf_size b)) (Some out)
        = Some (d', Z.of_nat (length out)) ∧
    block_len d' = block_len (buf_data b) ∧
    take (Z.to_nat (buf_size b) + length w) (block_bytes d') = contents b ++ w.
Proof.
  intros Hwf Hroom Hout w. pose proof Hwf as [Hsize Hasize Hmax Hunit].
  unfold SIZE_MAX in *. unfold vsnprintf.
  rewrite (wrap_small (buf_asize b - buf_size b)) by lia.
  destruct (Z.ltb_spec (Z.of_nat (length out)) (2 ^ 31)); [|lia].
  destruct (Z.eqb_spec (buf_asize b - buf_size b) 0); [lia|].
  destruct (Z.ltb_spec (Z.of_nat (length out)) 0); [lia|]. simpl orb. cbv iota.
  destruct (blit_tail b w Hwf) as (d' & Hblit & Hlen' & Htake).
  { subst w. rewrite length_app, length_take. simpl. lia. }
  fold w. rewrite Hblit. by exists d'.
Qed.

(** The buffer once the rendering and its NUL are behind the string and the
    size has advanced over the rendering. *)
Lemma appended_with_nul (b : buf) (d' : block) (out : list Z) :
  buf_wf b → block_len d' = block_len (buf_data b) →
  buf_size b + Z.of_nat (length out) + 1 <= buf_asize b →
  take (Z.to_nat (buf_size b) + length (out ++ [0])) (block_bytes d')
  = contents b ++ out ++ [0] →
  let b' := set_size (buf_size b + Z.of_nat (length out)) (set_data d' b) in
  contents b' = contents b ++ out ∧ buf_size b' < buf_asize b' ∧
  load (buf_data b') (buf_size b') = Some 0 ∧ buf_wf b'.
Proof.
  intros Hwf Hlen Hroom Htake b'. pose proof Hwf as [Hsize Hasize Hmax Hunit].
  assert (length (contents b) = Z.to_nat (buf_size b)) as Hcl.
  { rewrite contents_block_bytes, length_take. rewrite block_len_bytes in Hasize. lia. }
  rewrite length_app in Htake. simpl in Htake.
  split; [|split; [simpl; lia|split]].
  - rewrite (contents_block_bytes b'). simpl.
    replace (contents b ++ out) with (take (Z.to_nat (buf_size b) + length out)
                                        (contents b ++ out ++ [0])).
    + rewrite <- Htake, take_take. f_equal. lia.
    + rewrite app_assoc, take_app_length'; [done|]. rewrite length_app. lia.
  - simpl. destruct d' as [l'|]; [|simpl in Hlen; lia].
    change (block_len (Some l')) with (Z.of_nat (length l')) in Hlen.
    rewrite load_inside by lia.
    change l' with (block_bytes (Some l')).
    rewrite <- (lookup_take_lt _ (Z.to_nat (buf_size b) + (length out + 1))) by lia.
    rewrite Htake, app_assoc, lookup_app_r by (rewrite length_app; lia).
    rewrite length_app.
    replace (Z.to_nat (buf_size b + Z.of_nat (length out)) - (length (contents b) + length out))%nat
      with 0%nat by lia.
    done.
  - split; simpl; unfold SIZE_MAX in *; lia.
Qed.

(** X20: when the rendering of the format is [out] and the allocator
    agrees, [vbufprintf] appends [out] to the contents, with a NUL behind it
    inside the allocated block and outside the size; [bufprintf] does the
    same, and a following [bufnullterm] has nothing to do. *)
Theorem vbufprintf_appends (m : mem) (p : positive) (b : buf) (out : list Z)
    (f1 f2 : Z) (rest : list alloc_result) :
  heap m !! p = Some b → buf_wf b → 0 < buf_unit b →
  Z.of_nat (length out) < 2 ^ 31 →
  buf_size b + Z.of_nat (length out) + 1 <= 2 ^ 63 →
  allocs m = AllocOk f1 :: AllocOk f2 :: rest →
  ∃ m' b', vbufprintf (Some p) (Some out) m = Done tt m' ∧
    heap m' = <[p := b']> (heap m) ∧
    buf_size b' = buf_size b + Z.of_nat (length out) ∧
    contents b' = contents b ++ out ∧
    buf_size b' < buf_asize b' ∧ load (buf_data b') (buf_size b') = Some 0 ∧
    buf_wf b' ∧ buf_unit b' = buf_unit b ∧ buf_ref b' = buf_ref b ∧
    bufprintf (Some p) (Some out) m = Done tt m' ∧
    bufnullterm (Some p) m' = Done tt m'.
Proof.
  intros Hp Hwf Hu Hout Hmax Hal. pose proof (wf_size _ Hwf) as Hsize.
  cut (∃ m' b', vbufprintf (Some p) (Some out) m = Done tt m' ∧
    heap m' = <[p := b']> (heap m) ∧
    buf_size b' = buf_size b + Z.of_nat (length out) ∧
    contents b' = contents b ++ out ∧
    buf_size b' < buf_asize b' ∧ load (buf_data b') (buf_size b') = Some 0 ∧
    buf_wf b' ∧ buf_unit b' = buf_unit b ∧ buf_ref b' = buf_ref b).
  { intros (m' & b' & Hrun & Hheap & Hs & Hc & Hroom & Hnul & Hwf' & Hu' & Hr').
    exists m', b'. do 8 (split; [done|]). split; [done|]. split.
    - unfold bufprintf. rewrite run_bind, (run_deref _ _ _ Hp).
      by destruct (Z.eqb_spec (buf_unit b) 0); [lia|].
    - apply (bufnullterm_noop m' p b'); [|done..]. by rewrite Hheap, lookup_insert_eq. }
  (* the first test: room for at least the terminator *)
  assert (∃ m1 b1,
    (if buf_asize b <=? buf_size b then bufgrow (Some p) (wrap (buf_size b + 1))
     else mret 1) m = Done 1 m1 ∧
    heap m1 = <[p := b1]> (heap m) ∧ buf_wf b1 ∧ buf_size b1 = buf_size b ∧
    contents b1 = contents b ∧ buf_unit b1 = buf_unit b ∧ buf_ref b1 = buf_ref b ∧
    buf_size b1 < buf_asize b1 ∧ ∃ f r, allocs m1 = AllocOk f :: r)
    as (m1 & b1 & Hstep1 & Hheap1 & Hwf1 & Hs1 & Hc1 & Hu1 & Hr1 & Hroom1 & Hal1).
  { destruct (Z.leb_spec (buf_asize b) (buf_size b)).
    - rewrite wrap_small by lia.
      destruct (bufgrow_succeeds m p b (buf_size b + 1) Hp Hwf Hu ltac:(lia))
        as (m1 & b1 & Hgrow & Hheap & Hgrown & Hal1); [right; eauto|].
      pose proof (grown_contents _ _ _ Hwf Hgrown).
      destruct Hgrown as (Hwf1 & Hroom & Hs1 & Hu1 & Hr1 & _).
      exists m1, b1. do 7 (split; [done|]). split; [lia|].
      destruct Hal1 as [-> | ->]; rewrite Hal; simpl; eauto.
    - exists m, b. split; [done|]. split; [by rewrite insert_id|].
      do 5 (split; [done|]). split; [lia|]. eauto. }
  assert (heap m1 !! p = Some b1) as Hp1 by (by rewrite Hheap1, lookup_insert_eq).
  (* the first attempt *)
  destruct (vsnprintf_tail b1 out Hwf1 Hroom1 Hout) as (d1 & Hprint1 & Hlen1 & Htake1).
  set (b2 := set_data d1 b1).
  set (m2 := set_heap (<[p := b2]> (heap m1)) m1).
  assert (buf_wf b2) as Hwf2.
  { destruct Hwf1. split; simpl; try done. lia. }
  assert (heap m2 !! p = Some b2) as Hp2 by apply lookup_insert_eq.
  assert (length (contents b1) = Z.to_nat (buf_size b1)) as Hcl1.
  { rewrite contents_block_bytes, length_take.
    pose proof (wf_asize _ Hwf1) as Ha. rewrite block_len_bytes in Ha.
    pose proof (wf_size _ Hwf1). lia. }
  assert (contents b2 = contents b1) as Hc2.
  { rewrite (contents_block_bytes b2). simpl.
    rewrite <- (take_app_length' (contents b1)
                  (take (Z.to_nat (buf_asize b1 - buf_size b1 - 1)) out ++ [0])
                  (Z.to_nat (buf_size b1))) by done.
    rewrite <- Htake1, take_take. f_equal. lia. }
  unfold vbufprintf.
  rewrite run_bind, (run_deref _ _ _ Hp), run_bind, Hstep1.
  change (1 =? 0) with false. cbv iota.
  rewrite run_bind, (run_deref _ _ _ Hp1), run_bind, Hprint1, run_defined.
  cbv beta iota. rewrite run_bind.
  change (store p (set_data d1 b1) m1) with (Done tt m2). cbv beta iota.
  pose proof (wf_size _ Hwf1) as Hsize1. pose proof (wf_asize_max _ Hwf1) as Hamax1.
  unfold SIZE_MAX in Hamax1.
  unfold int_to_size. rewrite (wrap_small (Z.of_nat (length out))) by lia.
  rewrite (wrap_small (buf_asize b1 - buf_size b1)) by lia.
  rewrite run_bind.
  destruct (Z.leb_spec (buf_asize b1 - buf_size b1) (Z.of_nat (length out))) as [Hfull|Hfits].
  - (* no room for the whole rendering: grow and print again *)
    rewrite run_bind.
    rewrite (wrap_small (buf_size b1 + _)), wrap_small by lia.
    destruct (bufgrow_succeeds m2 p b2 (buf_size b1 + Z.of_nat (length out) + 1)
                Hp2 Hwf2 ltac:(simpl; lia) ltac:(lia))
      as (m3 & b3 & Hgrow & Hheap3 & Hgrown & _); [right; exact Hal1|].
    pose proof (grown_contents _ _ _ Hwf2 Hgrown) as Hc3.
    destruct Hgrown as (Hwf3 & Hroom3 & Hs3 & Hu3 & Hr3 & _).
    change (buf_size b2) with (buf_size b1) in Hs3.
    change (buf_unit b2) with (buf_unit b1) in Hu3.
    change (buf_ref b2) with (buf_ref b1) in Hr3.
    assert (heap m3 !! p = Some b3) as Hp3 by (by rewrite Hheap3, lookup_insert_eq).
    destruct (vsnprintf_tail b3 out Hwf3 ltac:(lia) Hout) as (d3 & Hprint3 & Hlen3 & Htake3).
    rewrite (take_ge out) in Htake3 by lia.
    rewrite Hgrow. change (1 =? 0) with false. cbv iota.
    rewrite run_bind, (run_deref _ _ _ Hp3), run_bind, Hprint3, run_defined.
    cbv beta iota. rewrite run_bind.
    set (b4 := set_data d3 b3).
    set (m4 := set_heap (<[p := b4]> (heap m3)) m3).
    change (store p b4 m3) with (Done tt m4). cbv beta iota.
    rewrite run_ret. cbv beta iota.
    destruct (Z.ltb_spec (Z.of_nat (length out)) 0); [lia|].
    rewrite run_bind, (run_deref p b4 m4) by apply lookup_insert_eq.
    destruct (appended_with_nul b3 d3 out Hwf3 Hlen3 ltac:(lia) Htake3)
      as (Hc' & Hroom' & Hnul' & Hwf').
    eexists _, _. split; [reflexivity|].
    subst b4. simpl. rewrite ?(wrap_small (Z.of_nat (length out))) by lia.
    rewrite (wrap_small (buf_size b3 + _)) by lia.
    split.
    { subst m4. simpl. rewrite Hheap3. subst m2. simpl.
      rewrite Hheap1, !insert_insert_eq. reflexivity. }
    split; [simpl; lia|]. split; [by rewrite Hc', Hc3, Hc2, Hc1|].
    split; [exact Hroom'|]. split; [exact Hnul'|]. split; [exact Hwf'|].
    simpl. split; congruence.
  - (* the rendering fits *)
    rewrite run_ret. cbv beta iota.
    destruct (Z.ltb_spec (Z.of_nat (length out)) 0); [lia|].
    rewrite run_bind, (run_deref _ _ _ Hp2).
    rewrite (take_ge out) in Htake1 by lia.
    destruct (appended_with_nul b1 d1 out Hwf1 Hlen1 ltac:(lia) Htake1)
      as (Hc' & Hroom' & Hnul' & Hwf').
    eexists _, _. split; [reflexivity|].
    subst b2. simpl. rewrite ?(wrap_small (Z.of_nat (length out))) by lia.
    rewrite (wrap_small (buf_size b1 + _)) by lia.
    split.
    { subst m2. simpl. rewrite Hheap1, !insert_insert_eq. reflexivity. }
    split; [simpl; lia|]. split; [by rewrite Hc', Hc1|].
    split; [exact Hroom'|]. split; [exact Hnul'|]. split; [exact Hwf'|].
    done.
Qed.

Lemma vbufprintf_appends_witness :
  let b := Buf (Some (bytes_of "hello" ++ [7; 7; 7])) 5 8 8 1 in
  let m := Mem {[1%positive := b]} [AllocOk 7; AllocOk 7] 1 8 in
  ∃ m' b', vbufprintf (Some 1%positive) (Some (bytes_of ", world")) m = Done tt m' ∧
    heap m' = <[1%positive := b']> (heap m) ∧
    buf_size b' = buf_size b + Z.of_nat (length (bytes_of ", world")) ∧
    contents b' = contents b ++ bytes_of ", world" ∧
    buf_size b' < buf_asize b' ∧ load (buf_data b') (buf_size b') = Some 0 ∧
    buf_wf b' ∧ buf_unit b' = buf_unit b ∧ buf_ref b' = buf_ref b ∧
    bufprintf (Some 1%positive) (Some (bytes_of ", world")) m = Done tt m' ∧
    bufnullterm (Some 1%positive) m' = Done tt m'.
Proof.
  intros b m.
  assert (heap m !! 1%positive = Some b) as Hp by reflexivity.
  assert (buf_wf b) as Hwf by (split; simpl; unfold SIZE_MAX; lia).
  assert (0 < buf_unit b) as Hu by reflexivity.
  assert (Z.of_nat (length (bytes_of ", world")) < 2 ^ 31) as Hout by (simpl; lia).
  assert (buf_size b + Z.of_nat (length (bytes_of ", world")) + 1 <= 2 ^ 63) as Hmax
    by (simpl; lia).
  assert (allocs m = AllocOk 7 :: AllocOk 7 :: []) as Ha by reflexivity.
  exact (vbufprintf_appends m 1%positive b (bytes_of ", world") 7 7 []
           Hp Hwf Hu Hout Hmax Ha).
Defined.

(** ** The macros of buffer.h *)

Lemma bytes_of_length (s : string) : length (bytes_of s) = String.length s.
Proof.
  unfold bytes_of. rewrite length_map. induction s as [|c s IH]; simpl; [done|].
  by rewrite IH.
Qed.

(** X21: on a string literal without an embedded NUL, [BUFPUTSL] does what
    [bufputs] does: [sizeof litteral - 1] is the [strlen] of the literal. *)
Theorem BUFPUTSL_as_bufputs (output : ptr) (litteral : string) (m : mem) :
  0 ∉ bytes_of litteral →
  BUFPUTSL output litteral m = bufputs output (Some (cstring litteral)) m.
Proof.
  intros Hnz. unfold BUFPUTSL, bufputs, cstring.
  by rewrite run_bind, strlen_text, run_defined, bytes_of_length.
Qed.

Lemma BUFPUTSL_as_bufputs_witness :
  let b := Buf (Some (bytes_of "hello" ++ [7; 7; 7])) 5 8 8 1 in
  let m := Mem {[1%positive := b]} [AllocOk 7] 1 8 in
  BUFPUTSL (Some 1%positive) ", world" m
  = bufputs (Some 1%positive) (Some (cstring ", world")) m.
Proof.
  intros b m.
  assert (0 ∉ bytes_of ", world") as Hnz by (apply (bool_decide_unpack _); vm_compute; exact I).
  exact (BUFPUTSL_as_bufputs (Some 1%positive) ", world" m Hnz).
Defined.

(** X22: the buffers that [CONST_BUF] and [VOLATILE_BUF] build from one
    literal (without an embedded NUL) both hold its characters without the
    NUL: the size of the second, computed by [strlen], is the size of the
    first, computed by [sizeof], the NUL is just behind the contents, and
    [bufcmp] and [bufcasecmp] find them equal. *)
Theorem macro_buffers_hold_literal (m : mem) (p q : positive) (s : string) :
  heap m !! p = Some (CONST_BUF s) → heap m !! q = Some (VOLATILE_BUF s) →
  Z.of_nat (String.length s) < 2 ^ 64 → 0 ∉ bytes_of s →
  contents (CONST_BUF s) = bytes_of s ∧ contents (VOLATILE_BUF s) = bytes_of s ∧
  strlen (buf_data (VOLATILE_BUF s)) = Some (buf_size (VOLATILE_BUF s)) ∧
  load (buf_data (CONST_BUF s)) (buf_size (CONST_BUF s)) = Some 0 ∧
  bufcmp (Some p) (Some q) m = Done 0 m ∧
  bufcasecmp (Some p) (Some q) m = Done 0 m.
Proof.
  intros Hp Hq Hlen Hnz.
  assert (contents (CONST_BUF s) = bytes_of s) as Hc.
  { unfold contents, CONST_BUF, cstring. simpl.
    by rewrite Nat2Z.id, <- bytes_of_length, take_app_length. }
  assert (contents (VOLATILE_BUF s) = bytes_of s) as Hv by exact Hc.
  assert (buf_readable (CONST_BUF s)) as Hrc.
  { unfold buf_readable, CONST_BUF, cstring, SIZE_MAX. simpl.
    rewrite length_app, bytes_of_length. simpl. lia. }
  assert (buf_readable (VOLATILE_BUF s)) as Hrv by exact Hrc.
  split; [done|]. split; [done|].
  split.
  { unfold VOLATILE_BUF, cstring. cbn [buf_data buf_size].
    by rewrite strlen_text, bytes_of_length. }
  split.
  { unfold CONST_BUF, cstring. cbn [buf_data buf_size].
    rewrite (load_inside (bytes_of s ++ [0])).
    - by rewrite Nat2Z.id, <- bytes_of_length, list_lookup_middle.
    - rewrite length_app, bytes_of_length. simpl. lia. }
  unfold bufcmp, bufcasecmp.
  rewrite !(cmp_with_spec _ m p q _ _ Hp Hq Hrc Hrv), Hc, Hv, !lex_cmp_refl. done.
Qed.

Lemma macro_buffers_hold_literal_witness :
  let m := Mem {[1%positive := CONST_BUF "abc"; 2%positive := VOLATILE_BUF "abc"]} [] 0 0 in
  contents (CONST_BUF "abc") = bytes_of "abc" ∧
  contents (VOLATILE_BUF "abc") = bytes_of "abc" ∧
  strlen (buf_data (VOLATILE_BUF "abc")) = Some (buf_size (VOLATILE_BUF "abc")) ∧
  load (buf_data (CONST_BUF "abc")) (buf_size (CONST_BUF "abc")) = Some 0 ∧
  bufcmp (Some 1%positive) (Some 2%positive) m = Done 0 m ∧
  bufcasecmp (Some 1%positive) (Some 2%positive) m = Done 0 m.
Proof.
  intros m.
  assert (heap m !! 1%positive = Some (CONST_BUF "abc")) as Hp by reflexivity.
  assert (heap m !! 2%positive = Some (VOLATILE_BUF "abc")) as Hq by reflexivity.
  assert (Z.of_nat (String.length "abc") < 2 ^ 64) as Hlen by (simpl; lia).
  assert (0 ∉ bytes_of "abc") as Hnz by (apply (bool_decide_unpack _); vm_compute; exact I).
  exact (macro_buffers_hold_literal m 1%positive 2%positive "abc" Hp Hq Hlen Hnz).
Defined.

(** ** The statistics *)

Lemma owned_bytes_insert (h : gmap positive buf) (q : positive) (b : buf) :
  h !! q = None → owned_bytes (<[q := b]> h) = owned_size b + owned_bytes h.
Proof.
  intros Hq. unfold owned_bytes. rewrite map_fold_insert_L; [done| |done].
  intros. lia.
Qed.

Lemma owned_bytes_delete (h : gmap positive buf) (p : positive) (b : buf) :
  h !! p = Some b → owned_bytes h = owned_size b + owned_bytes (delete p h).
Proof.
  intros Hp. unfold owned_bytes. rewrite (map_fold_delete_L _ _ p b h); [done| |done].
  intros. lia.
Qed.

Lemma owned_bytes_update (h : gmap positive buf) (p : positive) (b b' : buf) :
  h !! p = Some b →
  owned_bytes (<[p := b']> h) = owned_bytes h + (owned_size b' - owned_size b).
Proof.
  intros Hp. rewrite <- insert_delete_eq, owned_bytes_insert by apply lookup_delete_eq.
  rewrite (owned_bytes_delete h p b Hp). lia.
Qed.

Lemma wrap_add_l (x d : Z) : wrap (wrap x + d) = wrap (x + d).
Proof. unfold wrap. apply Zplus_mod_idemp_l. Qed.

Lemma wrap_long_add_l (x d : Z) : wrap_long (wrap_long x + d) = wrap_long (x + d).
Proof.
  unfold wrap_long. f_equal.
  replace ((x + 2 ^ 63) mod 2 ^ 64 - 2 ^ 63 + d + 2 ^ 63)
    with ((x + 2 ^ 63) mod 2 ^ 64 + d) by lia.
  rewrite Zplus_mod_idemp_l. f_equal. lia.
Qed.

(** The three ways the store changes. *)
Lemma stats_exact_update (c : Z) (m : mem) (p : positive) (b b' : buf)
    (a : list alloc_result) :
  heap m !! p = Some b → stats_exact c m →
  stats_exact c (Mem (<[p := b']> (heap m)) a (buffer_stat_nb m)
                     (wrap (buffer_stat_alloc_bytes m + (owned_size b' - owned_size b)))).
Proof.
  intros Hp [Hbytes Hnb]. split; simpl.
  - by rewrite Hbytes, wrap_add_l, (owned_bytes_update _ p b).
  - rewrite map_size_insert_Some by (by eexists). done.
Qed.

Lemma stats_exact_fresh (c : Z) (m : mem) (q : positive) (b' : buf)
    (a : list alloc_result) :
  heap m !! q = None → stats_exact c m →
  stats_exact c (Mem (<[q := b']> (heap m)) a (wrap_long (buffer_stat_nb m + 1))
                     (wrap (buffer_stat_alloc_bytes m + owned_size b'))).
Proof.
  intros Hq [Hbytes Hnb]. split; simpl.
  - rewrite Hbytes, wrap_add_l, owned_bytes_insert by done. f_equal. lia.
  - rewrite map_size_insert_None, Hnb, wrap_long_add_l by done. f_equal. lia.
Qed.

Lemma stats_exact_fresh_empty (c : Z) (m : mem) (q : positive) (b' : buf)
    (a : list alloc_result) :
  heap m !! q = None → owned_size b' = 0 → stats_exact c m →
  stats_exact c (Mem (<[q := b']> (heap m)) a (wrap_long (buffer_stat_nb m + 1))
                     (buffer_stat_alloc_bytes m)).
Proof.
  intros Hq Hz [Hbytes Hnb]. split; simpl.
  - rewrite owned_bytes_insert, Hz by done. done.
  - rewrite map_size_insert_None, Hnb, wrap_long_add_l by done. f_equal. lia.
Qed.

Lemma owned_size_empty (d : block) (size unit ref : Z) :
  owned_size (Buf d size 0 unit ref) = 0.
Proof. unfold owned_size. simpl. by destruct (unit =? 0). Qed.

Lemma stats_exact_free (c : Z) (m : mem) (p : positive) (b : buf)
    (a : list alloc_result) :
  heap m !! p = Some b → stats_exact c m →
  stats_exact c (Mem (delete p (heap m)) a (wrap_long (buffer_stat_nb m + -1))
                     (wrap (buffer_stat_alloc_bytes m + - owned_size b))).
Proof.
  intros Hp [Hbytes Hnb]. split; simpl.
  - rewrite Hbytes, wrap_add_l, (owned_bytes_delete _ p b Hp). f_equal. lia.
  - rewrite map_size_delete_Some, Hnb, wrap_long_add_l by (by eexists). f_equal.
    assert (size (heap m) ≠ 0%nat).
    { intros Hz. apply map_size_empty_inv in Hz. by rewrite Hz in Hp. }
    lia.
Qed.

Lemma stats_exact_same (c : Z) (m m' : mem) :
  heap m' = heap m → buffer_stat_nb m' = buffer_stat_nb m →
  buffer_stat_alloc_bytes m' = buffer_stat_alloc_bytes m →
  stats_exact c m → stats_exact c m'.
Proof. intros Hh Hn Hb [? ?]. unfold stats_exact. by rewrite Hh, Hn, Hb. Qed.

(** Rules for [keeps_at]. *)
Lemma keeps_at_ret {A : Type} (a : A) (m : mem) : keeps_at (mret a) m.
Proof. by intros c a' m' Hm [= _ <-]. Qed.

Lemma keeps_at_undefined {A : Type} (m : mem) : keeps_at (@undefined A) m.
Proof. by intros c a' m' Hm. Qed.

Lemma keeps_at_bind {A B : Type} (f : M A) (k : A → M B) (m : mem) :
  keeps_at f m → (∀ a m1, f m = Done a m1 → keeps_at (k a) m1) →
  keeps_at (f ≫= k) m.
Proof.
  intros Hf Hk c b m' Hm. rewrite run_bind.
  destruct (f m) as [a m1| |] eqn:Hrun; [|done..].
  intros Hrun'. by apply (Hk a m1 eq_refl c b m'); [apply (Hf c a m1)|].
Qed.

Lemma keeps_at_deref (p : positive) {B : Type} (k : buf → M B) (m : mem) :
  (∀ b, heap m !! p = Some b → keeps_at (k b) m) → keeps_at (deref p ≫= k) m.
Proof.
  intros Hk c b m' Hm. rewrite run_bind. unfold deref.
  destruct (heap m !! p) as [b0|] eqn:Hp; [|done].
  by apply Hk.
Qed.

Lemma keeps_at_defined {A B : Type} (o : option A) (k : A → M B) (m : mem) :
  (∀ a, o = Some a → keeps_at (k a) m) → keeps_at (defined o ≫= k) m.
Proof.
  intros Hk c b m' Hm. rewrite run_bind. destruct o as [a|]; [|done].
  by apply Hk.
Qed.

Lemma keeps_at_store (p : positive) (b b' : buf) (m : mem) :
  heap m !! p = Some b → owned_size b' = owned_size b → keeps_at (store p b') m.
Proof.
  intros Hp Hsame c a m' Hm [= _ <-].
  pose proof (stats_exact_update c m p b b' (allocs m) Hp Hm) as H.
  rewrite Hsame, Z.sub_diag, Z.add_0_r in H.
  destruct H as [Hb Hn]. destruct Hm as [Hb0 Hn0]. split; simpl in *; [|done].
  rewrite <- Hb, Hb0. unfold wrap. by rewrite Z.mod_mod.
Qed.

Lemma keeps_at_next_alloc {B : Type} (k : alloc_result → M B) (m : mem) :
  (∀ r m1, heap m1 = heap m → buffer_stat_nb m1 = buffer_stat_nb m →
           buffer_stat_alloc_bytes m1 = buffer_stat_alloc_bytes m →
           keeps_at (k r) m1) →
  keeps_at (next_alloc ≫= k) m.
Proof.
  intros Hk. apply keeps_at_bind.
  - intros c r m1 Hm. unfold next_alloc.
    destruct (allocs m) as [|r0 rest]; intros [= _ <-]; [done|].
    by apply (stats_exact_same c m).
  - intros r m1. unfold next_alloc.
    destruct (allocs m) as [|r0 rest]; intros [= _ <-]; by apply Hk.
Qed.

Lemma next_alloc_only : allocator_only next_alloc.
Proof.
  intros m a m1. unfold next_alloc.
  by destruct (allocs m) as [|r0 rest]; intros [= _ <-].
Qed.

Lemma malloc_only (n : Z) : allocator_only (malloc n).
Proof.
  intros m a m1. unfold malloc. rewrite run_bind.
  destruct (next_alloc m) as [r m2| |] eqn:Hr; [|done..].
  apply next_alloc_only in Hr. by destruct r; intros [= _ <-].
Qed.

Lemma realloc_only (old : block) (n : Z) : allocator_only (realloc old n).
Proof.
  intros m a m1. unfold realloc. rewrite run_bind.
  destruct (next_alloc m) as [r m2| |] eqn:Hr; [|done..].
  apply next_alloc_only in Hr. by destruct r; intros [= _ <-].
Qed.

Lemma malloc_buf_only : allocator_only malloc_buf.
Proof.
  intros m a m1. unfold malloc_buf. rewrite run_bind.
  destruct (next_alloc m) as [r m2| |] eqn:Hr; [|done..].
  apply next_alloc_only in Hr. by destruct r; intros [= _ <-].
Qed.

Lemma malloc_buf_fresh (m m1 : mem) (q : positive) :
  malloc_buf m = Done (Some q) m1 → heap m !! q = None.
Proof.
  unfold malloc_buf. rewrite run_bind.
  destruct (next_alloc m) as [r m2| |] eqn:Hr; [|done..].
  apply next_alloc_only in Hr as (Hh & _). destruct r; [done|].
  intros [= <- _]. rewrite Hh. apply fresh_address_free.
Qed.

Lemma keeps_at_alloc {A B : Type} (f : M A) (k : A → M B) (m : mem) :
  allocator_only f →
  (∀ a m1, f m = Done a m1 → heap m1 = heap m →
           buffer_stat_nb m1 = buffer_stat_nb m →
           buffer_stat_alloc_bytes m1 = buffer_stat_alloc_bytes m →
           keeps_at (k a) m1) →
  keeps_at (f ≫= k) m.
Proof.
  intros Hf Hk. apply keeps_at_bind.
  - intros c a m1 Hm Hrun. destruct (Hf m a m1 Hrun) as (? & ? & ?).
    by apply (stats_exact_same c m).
  - intros a m1 Hrun. destruct (Hf m a m1 Hrun) as (? & ? & ?). by apply Hk.
Qed.

Lemma bufgrow_keeps (buf : ptr) (neosz : Z) : keeps_stats (bufgrow buf neosz).
Proof.
  intros m. destruct buf as [p|]; [|apply keeps_at_ret]. unfold bufgrow.
  apply keeps_at_deref. intros b Hb.
  destruct (Z.eqb_spec (buf_unit b) 0) as [|Hu]; [apply keeps_at_ret|].
  destruct (neosz <=? buf_asize b); [apply keeps_at_ret|].
  destruct (grow_loop _ _ _) as [neoasz|]; [|by intros c a m'].
  apply keeps_at_alloc; [apply realloc_only|].
  intros neodata m1 _ Hh Hn Hbytes. destruct neodata as [d|]; [|apply keeps_at_ret].
  intros c a m' Hm [= _ <-].
  rewrite <- Hh in Hb.
  pose proof (stats_exact_update c m1 p b (set_asize neoasz (set_data (Some d) b))
                (allocs m1) Hb Hm) as H.
  unfold owned_size in H. simpl in H.
  destruct (Z.eqb_spec (buf_unit b) 0); [done|]. exact H.
Qed.

Lemma bufnew_keeps (unit : Z) : keeps_stats (bufnew unit).
Proof.
  intros m. unfold bufnew. apply keeps_at_alloc; [apply malloc_buf_only|].
  intros ret_ m1 Hrun Hh Hn Hbytes. destruct ret_ as [q|]; [|apply keeps_at_ret].
  apply malloc_buf_fresh in Hrun. rewrite <- Hh in Hrun.
  intros c a m' Hm [= _ <-].
  apply (stats_exact_fresh_empty c m1 q); [done|apply owned_size_empty|done].
Qed.

Lemma bufdup_keeps (src : ptr) (dupunit : Z) : keeps_stats (bufdup src dupunit).
Proof.
  intros m. destruct src as [s|]; [|apply keeps_at_ret]. unfold bufdup.
  apply keeps_at_alloc; [apply malloc_buf_only|].
  intros ret_ m1 Hrun Hh Hn Hbytes. destruct ret_ as [q|]; [|apply keeps_at_ret].
  apply malloc_buf_fresh in Hrun. rewrite <- Hh in Hrun.
  apply keeps_at_deref. intros b Hb.
  destruct (Z.eqb_spec (buf_size b) 0).
  - intros c a m' Hm [= _ <-].
    apply (stats_exact_fresh_empty c m1 q); [done|apply owned_size_empty|done].
  - destruct (Z.eqb_spec dupunit 0) as [|Hu]; [by intros c a m'|].
    apply keeps_at_alloc; [apply malloc_only|].
    intros data m2 _ Hh2 Hn2 Hbytes2. destruct data as [d|]; [|apply keeps_at_ret].
    apply keeps_at_defined. intros bytes _. apply keeps_at_defined. intros data' _.
    intros c a m' Hm [= _ <-].
    rewrite <- Hh2 in Hrun.
    pose proof (stats_exact_fresh c m2 q
                  (Buf data' (buf_size b) (bufdup_asize (buf_size b) dupunit) dupunit 1)
                  (allocs m2) Hrun Hm) as H.
    unfold owned_size in H. simpl in H.
    by destruct (Z.eqb_spec dupunit 0).
Qed.

Lemma keeps_at_store_fields (p : positive) (b b' : buf) (m : mem) :
  heap m !! p = Some b → buf_unit b' = buf_unit b → buf_asize b' = buf_asize b →
  keeps_at (store p b') m.
Proof.
  intros Hp Hu Ha. apply (keeps_at_store p b); [done|].
  unfold owned_size. by rewrite Hu, Ha.
Qed.

Lemma bufput_keeps (buf : ptr) (data : block) (len : Z) :
  keeps_stats (bufput buf data len).
Proof.
  intros m. destruct buf as [p|]; [|apply keeps_at_ret]. unfold bufput.
  apply keeps_at_deref. intros b Hb.
  apply keeps_at_bind; [apply bufgrow_keeps|]. intros ok m1 _.
  destruct (ok =? 0); [apply keeps_at_ret|].
  apply keeps_at_deref. intros b1 Hb1.
  apply keeps_at_defined. intros bytes _. apply keeps_at_defined. intros data' _.
  by apply (keeps_at_store_fields p b1).
Qed.

Lemma bufputs_keeps (buf : ptr) (str : block) : keeps_stats (bufputs buf str).
Proof.
  intros m. unfold bufputs. apply keeps_at_defined. intros len _. apply bufput_keeps.
Qed.

Lemma bufputc_keeps (buf : ptr) (c : Z) : keeps_stats (bufputc buf c).
Proof.
  intros m. destruct buf as [p|]; [|apply keeps_at_ret]. unfold bufputc.
  apply keeps_at_deref. intros b Hb.
  apply keeps_at_bind; [apply bufgrow_keeps|]. intros ok m1 _.
  destruct (ok =? 0); [apply keeps_at_ret|].
  apply keeps_at_deref. intros b1 Hb1.
  apply keeps_at_defined. intros data' _.
  by apply (keeps_at_store_fields p b1).
Qed.

Lemma bufslurp_keeps (buf : ptr) (len : Z) : keeps_stats (bufslurp buf len).
Proof.
  intros m. destruct buf as [p|]; [|apply keeps_at_ret]. unfold bufslurp.
  apply keeps_at_deref. intros b Hb.
  destruct (_ || _); [apply keeps_at_ret|].
  destruct (_ <=? _); [by apply (keeps_at_store_fields p b)|].
  apply keeps_at_defined. intros bytes _. apply keeps_at_defined. intros data' _.
  by apply (keeps_at_store_fields p b).
Qed.

Lemma bufnullterm_keeps (buf : ptr) : keeps_stats (bufnullterm buf).
Proof.
  intros m. destruct buf as [p|]; [|apply keeps_at_ret]. unfold bufnullterm.
  apply keeps_at_deref. intros b Hb.
  destruct (buf_unit b =? 0); [apply keeps_at_ret|].
  apply keeps_at_bind.
  { unfold nullterm_present. destruct (_ <? _); [|apply keeps_at_ret].
    apply keeps_at_defined. intros c _. apply keeps_at_ret. }
  intros terminated m0 Hpresent.
  assert (m0 = m) as ->.
  { unfold nullterm_present in Hpresent. destruct (_ <? _); [|by injection Hpresent].
    rewrite run_bind in Hpresent.
    destruct (load _ _); [|done]. by injection Hpresent. }
  destruct terminated; [apply keeps_at_ret|].
  apply keeps_at_bind; [apply bufgrow_keeps|]. intros ok m1 _.
  destruct (ok =? 0); [apply keeps_at_ret|].
  apply keeps_at_deref. intros b1 Hb1.
  apply keeps_at_defined. intros data' _.
  by apply (keeps_at_store_fields p b1).
Qed.

Lemma bufreset_keeps (buf : ptr) : keeps_stats (bufreset buf).
Proof.
  intros m. destruct buf as [p|]; [|apply keeps_at_ret]. unfold bufreset.
  apply keeps_at_deref. intros b Hb.
  destruct (Z.eqb_spec (buf_unit b) 0) as [|Hu]; [apply keeps_at_ret|]. simpl orb.
  destruct (buf_asize b =? 0); [apply keeps_at_ret|].
  intros c a m' Hm [= _ <-].
  pose proof (stats_exact_update c m p b (set_asize 0 (set_size 0 (set_data None b)))
                (allocs m) Hb Hm) as H.
  unfold owned_size in H. simpl in H.
  destruct (Z.eqb_spec (buf_unit b) 0); [done|]. exact H.
Qed.

Lemma bufrelease_keeps (buf : ptr) : keeps_stats (bufrelease buf).
Proof.
  intros m. destruct buf as [p|]; [|apply keeps_at_ret].
  intros c a m' Hm. destruct (heap m !! p) as [b|] eqn:Hb.
  - rewrite (bufrelease_spec m p b Hb).
    destruct (Z.eqb_spec (buf_unit b) 0) as [|Hu]; [by intros [= _ <-]|].
    destruct (wrap_int (buf_ref b - 1) =? 0); intros [= _ <-].
    + pose proof (stats_exact_free c m p b (allocs m) Hb Hm) as H.
      unfold owned_size in H. by destruct (Z.eqb_spec (buf_unit b) 0).
    + assert (keeps_at (store p (set_ref (wrap_int (buf_ref b - 1)) b)) m) as Hk
        by by apply (keeps_at_store_fields p b).
      by apply (Hk c tt).
  - unfold bufrelease, deref. rewrite run_bind, Hb. done.
Qed.

Lemma bufset_keeps (dest src : ptr) : keeps_stats (bufset dest src).
Proof.
  intros m. unfold bufset. apply keeps_at_bind.
  - destruct src as [s|]; [|apply keeps_at_ret].
    apply keeps_at_deref. intros b Hb.
    destruct (is_volatile b); [apply bufdup_keeps|].
    apply keeps_at_bind; [by apply (keeps_at_store_fields s b)|].
    intros ? m1 _. apply keeps_at_ret.
  - intros src' m1 _. apply keeps_at_bind; [apply bufrelease_keeps|].
    intros ? m2 _. apply keeps_at_ret.
Qed.

Lemma vbufprintf_keeps (buf : ptr) (rendered : option (list Z)) :
  keeps_stats (vbufprintf buf rendered).
Proof.
  intros m. destruct buf as [p|]; [|apply keeps_at_ret]. unfold vbufprintf.
  apply keeps_at_deref. intros b Hb.
  apply keeps_at_bind.
  { destruct (_ <=? _); [apply bufgrow_keeps|apply keeps_at_ret]. }
  intros ok m1 _. destruct (ok =? 0); [apply keeps_at_ret|].
  apply keeps_at_deref. intros b1 Hb1.
  apply keeps_at_defined. intros [data' n] _.
  apply keeps_at_bind; [by apply (keeps_at_store_fields p b1)|].
  intros ? m2 _. apply keeps_at_bind.
  { destruct (_ <=? _); [|apply keeps_at_ret].
    apply keeps_at_bind; [apply bufgrow_keeps|]. intros ok2 m3 _.
    destruct (ok2 =? 0); [apply keeps_at_ret|].
    apply keeps_at_deref. intros b3 Hb3.
    apply keeps_at_defined. intros [data3 n3] _.
    apply keeps_at_bind; [by apply (keeps_at_store_fields p b3)|].
    intros ? m4 _. apply keeps_at_ret. }
  intros r m5 _. destruct r as [n'|]; [|apply keeps_at_ret].
  destruct (n' <? 0); [apply keeps_at_ret|].
  apply keeps_at_deref. intros b5 Hb5.
  by apply (keeps_at_store_fields p b5).
Qed.

Lemma bufprintf_keeps (buf : ptr) (rendered : option (list Z)) :
  keeps_stats (bufprintf buf rendered).
Proof.
  intros m. destruct buf as [p|]; [|apply keeps_at_ret]. unfold bufprintf.
  apply keeps_at_deref. intros b Hb.
  destruct (buf_unit b =? 0); [apply keeps_at_ret|apply vbufprintf_keeps].
Qed.

(** X23: every function of the file that allocates, frees or writes a buffer
    keeps the statistics exact: if before the call
    [buffer_stat_alloc_bytes] is the sum of the allocated sizes of the owned
    buffers and [buffer_stat_nb] the number of live buffers up to a constant
    (the buffers built by the macros, which are not counted), then so they
    are after it, whatever the allocator answers. *)
Theorem statistics_stay_exact :
  (∀ unit, keeps_stats (bufnew unit)) ∧
  (∀ src dupunit, keeps_stats (bufdup src dupunit)) ∧
  (∀ buf neosz, keeps_stats (bufgrow buf neosz)) ∧
  (∀ buf, keeps_stats (bufreset buf)) ∧
  (∀ buf, keeps_stats (bufrelease buf)) ∧
  (∀ dest src, keeps_stats (bufset dest src)) ∧
  (∀ buf data len, keeps_stats (bufput buf data len)) ∧
  (∀ buf str, keeps_stats (bufputs buf str)) ∧
  (∀ buf c, keeps_stats (bufputc buf c)) ∧
  (∀ buf len, keeps_stats (bufslurp buf len)) ∧
  (∀ buf, keeps_stats (bufnullterm buf)) ∧
  (∀ buf rendered, keeps_stats (vbufprintf buf rendered)) ∧
  (∀ buf rendered, keeps_stats (bufprintf buf rendered)).
Proof.
  split; [exact bufnew_keeps|]. split; [exact bufdup_keeps|].
  split; [exact bufgrow_keeps|]. split; [exact bufreset_keeps|].
  split; [exact bufrelease_keeps|]. split; [exact bufset_keeps|].
  split; [exact bufput_keeps|]. split; [exact bufputs_keeps|].
  split; [exact bufputc_keeps|]. split; [exact bufslurp_keeps|].
  split; [exact bufnullterm_keeps|]. split; [exact vbufprintf_keeps|].
  exact bufprintf_keeps.
Qed.

Lemma statistics_stay_exact_witness :
  let b := Buf (Some (bytes_of "hello" ++ [7; 7; 7])) 5 8 8 1 in
  let m := Mem {[1%positive := b; 2%positive := CONST_BUF "abc"]} [AllocOk 7] 1 8 in
  stats_exact (-1) m ∧
  ∃ m', bufput (Some 1%positive) (Some (bytes_of "0123456789")) 10 m = Done tt m' ∧
    stats_exact (-1) m'.
Proof.
  intros b m.
  assert (stats_exact (-1) m) as Hm by (split; reflexivity).
  assert (heap m !! 1%positive = Some b) as Hp by reflexivity.
  assert (buf_wf b) as Hwf by (split; simpl; unfold SIZE_MAX; lia).
  assert (0 < buf_unit b) as Hu by reflexivity.
  assert (0 <= 10 <= Z.of_nat (length (bytes_of "0123456789"))) as Hlen by (simpl; lia).
  assert (buf_size b + 10 <= 2 ^ 63) as Hmax by (simpl; lia).
  assert (buf_size b + 10 <= buf_asize b ∨ ∃ fill rest, allocs m = AllocOk fill :: rest)
    as Hcan by (right; exists 7, []; reflexivity).
  destruct (bufput_succeeds m 1%positive b (bytes_of "0123456789") 10
              Hp Hwf Hu Hlen Hmax Hcan) as (m' & b' & Hrun & _).
  split; [exact Hm|]. exists m'. split; [exact Hrun|].
  destruct statistics_stay_exact as (_ & _ & _ & _ & _ & _ & Hput & _).
  exact (Hput (Some 1%positive) (Some (bytes_of "0123456789")) 10 m (-1) tt m' Hm Hrun).
Defined.
